(** * golang-ssdl: the SlideShare acquisition-and-export pipeline

    A shallow embedding of the Go program (package [main]: the fetcher, the
    three exporters, the publisher, the orchestrator and the request handler)
    and the proofs of its specification's claims, followed by further
    properties of the code.

    Go functions that touch the network, the file system or a library object
    become functions in a state-and-error monad over an explicit [World];
    everything the program cannot decide itself (what a server answers, which
    bytes decode as an image, which system call fails) is read from an
    environment [Env] of oracles, so every theorem holds for all behaviours
    of the outside world.  The goroutines of [fetchImagesConcurrently] are a
    task pool stepped by an explicit schedule. *)

From Stdlib Require Import ZArith PrimFloat Uint63.
From Stdlib.Strings Require Import Byte Ascii String.
From stdpp Require Import base strings gmap list pretty.

Open Scope string_scope.
Open Scope list_scope.
Open Scope Z_scope.

(** ** Values *)

(** [[]byte]: response bodies and file contents. *)
Abbreviation bytes := (list byte).

(** Go's [error] values. [CustomAPIError] is the program's own type
    (main.go); every other error ([errors.New], [fmt.Errorf], a library's
    error) is an [errorString]. *)
Inductive error :=
| CustomAPIError (StatusCode : Z) (Detail : string)
| errorString (msg : string).

(** [(e error).Error()] *)
Definition Error (e : error) : string :=
  match e with
  | CustomAPIError _ d => d
  | errorString m => m
  end.

(** A Go result pair [(v, err)]: [Ok v] is [(v, nil)], [Err e] is [(_, e)]. *)
Inductive Result (A : Type) :=
| Ok (a : A)
| Err (e : error).
Arguments Ok {A} a.
Arguments Err {A} e.

Definition is_ok {A} (r : Result A) : bool :=
  match r with Ok _ => true | Err _ => false end.

(** [type SlidesConversionType string] and [type QualityType string]. *)
Definition SlidesConversionType := string.
Definition PDF : SlidesConversionType := "PDF".
Definition PPTX : SlidesConversionType := "PPTX".
Definition ImagesZip : SlidesConversionType := "IMAGES_ZIP".

Definition QualityType := string.
Definition HD : QualityType := "HD".
Definition SD : QualityType := "SD".

(** What [url.Parse] keeps of a URL, as far as the program reads it. *)
Record URL := { Host : string; Path : string }.

(** The outcome of one [fasthttp] request. *)
Inductive HttpResult :=
| TransportError (msg : string)
| Response (status : Z) (body : bytes).

(** A decoded raster image: its bounds and its pixels. *)
Record Image := { Dx : Z; Dy : Z; Pix : bytes }.

(** The HTML document as the scraper sees it: the text of [<title>] and, for
    each [img[data-testid='vertical-slide-image']] in page order, its
    [srcset] attribute if it has one. *)
Record Document := { doc_title : string; doc_srcsets : list (option string) }.

(** A [gofpdf] document: how it was set up, its pages (each the images placed
    on it) and its sticky error. *)
Record Placement :=
  { pl_image : string; pl_x : float; pl_y : float; pl_w : float; pl_h : float }.

Record Fpdf :=
  { fpdf_orientation : string; fpdf_unit : string; fpdf_size : string;
    fpdf_pages : list (list Placement);
    fpdf_err : option error }.

(** An [archive/zip] writer: the entries written so far, the last one being
    the one [io.Copy] appends to. *)
Definition ZipEntry : Type := string * bytes.

(** What the program asks of the FTP server ([github.com/jlaffaye/ftp]). *)
Inductive FtpCommand :=
| FtpDial (addr : string)
| FtpLogin (user password : string)
| FtpChangeDir (path : string)
| FtpMakeDir (path : string)
| FtpStorFile (path : string) (data : bytes).

(** External calls the claims speak about, in the order they happen.
    [HttpGet] is one request put on the wire (one call of the client can put
    several), [FtpStor] a [STOR] that the server has completed. *)
Inductive Event :=
| HttpGet (url : string) (timeout_s : option Z)
| ImageDecode
| ImageDecodeConfig (path : string)
| FtpStor (remotePath : string).

(** ** The outside world *)

(** Everything the program asks of its libraries and of the machine it runs
    on.  Oracles that stand for something which may change between two calls
    (the network, an I/O failure, the random source of [os.CreateTemp]) take
    the time ([clock]) of the call. *)
Record Env := {
  (** [net/url.Parse]; [None] is a parse error. *)
  url_Parse : string -> option URL;
  (** What a call of [fasthttp.Client.Do] ([None]) or [DoTimeout]
      ([Some seconds]) returns, and how often the client had put the request
      on the wire when it returned. *)
  http_Do : nat -> string -> option Z -> HttpResult;
  http_sent : nat -> string -> option Z -> nat;
  (** [goquery.NewDocumentFromReader] and the two [Find]s. *)
  goquery_NewDocument : bytes -> Result Document;
  (** [strings.TrimSpace], [strings.Fields] (both by Unicode white space)
      and [strconv.Atoi]. *)
  strings_TrimSpace : string -> string;
  strings_Fields : string -> list string;
  strconv_Atoi : string -> Result Z;
  (** [image.Decode] with the gif, png, jpeg and webp decoders registered. *)
  image_Decode : bytes -> Result Image;
  (** [image.DecodeConfig]: width and height only. *)
  image_DecodeConfig : bytes -> Result (Z * Z);
  (** [imaging.Clone] *)
  imaging_Clone : Image -> Image;
  (** The bytes [jpeg.Encode] produces at a quality, or its own error. *)
  jpeg_Encode : Image -> Z -> Result bytes;
  (** [runtime_rand], the source of [os.CreateTemp]'s names. *)
  runtime_rand : nat -> N;
  (** Whether the system call made at a given time fails, and how; for a
      write that fails, how many bytes had reached the file before. *)
  syscall_fault : nat -> option string;
  write_done : nat -> nat;
  os_TempDir : string;
  os_Getenv : string -> string;
  (** [time.Now().Format(layout)] *)
  time_Now_Format : string -> string;
  (** [pdf.GetPageSize()] of a document set up with orientation, unit, size. *)
  fpdf_PageSize : string -> string -> string -> float * float;
  (** [gofpdf]'s image registration of a file (by name and content). *)
  fpdf_RegisterImage : string -> bytes -> option string;
  (** The bytes of a finished PDF. *)
  fpdf_Output : list (list Placement) -> bytes;
  (** [ppt.AddImageSlide] on a file's content, and the bytes [Save] writes. *)
  ppt_AddImageSlide : bytes -> option string;
  ppt_Output : list bytes -> bytes;
  (** [zip.Writer.Create]'s own verdict on an entry name, and the bytes of a
      closed archive. *)
  zip_Create_error : string -> option string;
  zip_Output : list ZipEntry -> bytes;
  (** The FTP server's answer to a command sent at a given time: [Some msg]
      is an error.  For a [STOR] that fails: how much of the file the server
      has kept ([None]: the transfer never began). *)
  ftp_reply : nat -> FtpCommand -> option string;
  ftp_kept : nat -> option nat
}.

(** The state the program changes: local files, the files and the
    directories of the FTP server (both by their path from the root), the
    number of calls made so far and the log of external calls. *)
Record World := {
  files : gmap string bytes;
  remote : gmap string bytes;
  remote_dirs : gset string;
  clock : nat;
  trace : list Event
}.

Definition tick (w : World) : World :=
  {| files := files w; remote := remote w; remote_dirs := remote_dirs w;
     clock := S (clock w); trace := trace w |}.

Definition log (e : Event) (w : World) : World :=
  {| files := files w; remote := remote w; remote_dirs := remote_dirs w;
     clock := clock w; trace := trace w ++ [e] |}.

(** Several events, in order. *)
Definition log_all (es : list Event) (w : World) : World :=
  {| files := files w; remote := remote w; remote_dirs := remote_dirs w;
     clock := clock w; trace := trace w ++ es |}.

Definition set_files (f : gmap string bytes -> gmap string bytes) (w : World) : World :=
  {| files := f (files w); remote := remote w; remote_dirs := remote_dirs w;
     clock := clock w; trace := trace w |}.

Definition set_remote (f : gmap string bytes -> gmap string bytes) (w : World) : World :=
  {| files := files w; remote := f (remote w); remote_dirs := remote_dirs w;
     clock := clock w; trace := trace w |}.

Definition add_remote_dir (dir : string) (w : World) : World :=
  {| files := files w; remote := remote w; remote_dirs := {[ dir ]} ∪ remote_dirs w;
     clock := clock w; trace := trace w |}.

(** ** The monad of sequential Go code *)

Definition M (A : Type) : Type := World -> Result A * World.

Definition ret {A} (a : A) : M A := fun w => (Ok a, w).
Definition throw {A} (e : error) : M A := fun w => (Err e, w).

Definition bind {A B} (m : M A) (k : A -> M B) : M B :=
  fun w => match m w with
           | (Ok a, w1) => k a w1
           | (Err e, w1) => (Err e, w1)
           end.

(** [if err != nil { return ..., f(err) }] *)
Definition wrap_err {A} (f : error -> error) (m : M A) : M A :=
  fun w => match m w with
           | (Ok a, w1) => (Ok a, w1)
           | (Err e, w1) => (Err (f e), w1)
           end.

(** [defer cleanup()] at the head of [body]: [cleanup] runs when the function
    returns, whatever it returns; its own result is dropped. *)
Definition defer {A B} (cleanup : M B) (body : M A) : M A :=
  fun w => let (r, w1) := body w in (r, snd (cleanup w1)).

(** A library call that only computes: its result pair, the world as it is. *)
Definition pure {A} (r : Result A) : M A := fun w => (r, w).

(** A call whose error the program ignores ([_ = f()]). *)
Definition ignore {A} (m : M A) : M unit :=
  fun w => (Ok tt, snd (m w)).

Declare Scope go_scope.
Delimit Scope go_scope with go.
Notation "'let*' x ':=' m 'in' k" := (bind m (fun x => k))
  (at level 10, x pattern, m at level 100, k at level 200) : go_scope.
Notation "m ';;' k" := (bind m (fun _ => k))
  (at level 100, k at level 200, right associativity) : go_scope.
Open Scope go_scope.

(** [for _, x := range xs { if err := f(x); err != nil { return err } }] *)
Fixpoint for_each {A} (f : A -> M unit) (xs : list A) : M unit :=
  match xs with
  | [] => ret tt
  | x :: xs' => f x ;; for_each f xs'
  end.

(** ** Go's standard library, as far as the program uses it *)

(** [strings.Trim(s, cutset)] for a cutset of single-byte characters. *)
Definition in_cutset (c : ascii) (cutset : string) : bool :=
  existsb (Ascii.eqb c) (list_ascii_of_string cutset).

Fixpoint trimLeft (cut : ascii -> bool) (s : list ascii) : list ascii :=
  match s with
  | c :: s' => if cut c then trimLeft cut s' else s
  | [] => []
  end.

Definition strings_Trim (s cutset : string) : string :=
  let cut := fun c => in_cutset c cutset in
  string_of_list_ascii
    (rev (trimLeft cut (rev (trimLeft cut (list_ascii_of_string s))))).

(** [strings.Split(s, sep)] for a one-byte separator: the pieces between the
    separators, so that [""] splits into one empty piece. *)
Fixpoint strings_Split (s : string) (sep : ascii) : list string :=
  match s with
  | EmptyString => [EmptyString]
  | String c s' =>
      if Ascii.eqb c sep then EmptyString :: strings_Split s' sep
      else match strings_Split s' sep with
           | p :: ps => String c p :: ps
           | [] => [String c EmptyString]
           end
  end.

(** [strings.HasSuffix] *)
Definition strings_HasSuffix (s suffix : string) : bool :=
  String.prefix (String.rev suffix) (String.rev s).

(** [strings.Join] *)
Definition strings_Join (elems : list string) (sep : string) : string :=
  String.concat sep elems.

Fixpoint takeWhile {A} (f : A -> bool) (l : list A) : list A :=
  match l with
  | x :: l' => if f x then x :: takeWhile f l' else []
  | [] => []
  end.

(** [filepath.Base] on a Unix path. *)
Definition filepath_Base (path : string) : string :=
  if String.eqb path "" then "."
  else
    let is_sep := Ascii.eqb "/"%char in
    let stripped := trimLeft is_sep (rev (list_ascii_of_string path)) in
    let last := takeWhile (fun c => negb (Ascii.eqb "/"%char c)) stripped in
    match last with
    | [] => "/"
    | _ => string_of_list_ascii (rev last)
    end.

(** [os.joinPath] *)
Definition joinPath (dir name : string) : string :=
  match rev (list_ascii_of_string dir) with
  | c :: _ => if Ascii.eqb c "/"%char then dir +:+ name else dir +:+ "/" +:+ name
  | [] => dir +:+ "/" +:+ name
  end.

Section Program.

Variable env : Env.

(** A system call: it takes one unit of time and fails when the environment
    says so. *)
Definition syscall : M unit :=
  fun w => match syscall_fault env (clock w) with
           | Some msg => (Err (errorString msg), tick w)
           | None => (Ok tt, tick w)
           end.

(** [os.CreateTemp(dir, prefix + "*" + suffix)]'s loop: draw a name, open it
    with [O_CREATE|O_EXCL], try again (at most 10000 times) if it exists. *)
Fixpoint createTemp_try (tries : nat) (prefix suffix : string) : M string :=
  fun w =>
    match tries with
    | O => (Err (errorString ("createtemp " +:+ prefix +:+ "*" +:+ suffix +:+ ": file already exists")), w)
    | S tries' =>
        let name := prefix +:+ pretty (runtime_rand env (clock w)) +:+ suffix in
        match files w !! name with
        | Some _ => createTemp_try tries' prefix suffix (tick w)
        | None =>
            match syscall_fault env (clock w) with
            | Some msg => (Err (errorString msg), tick w)
            | None => (Ok name, set_files (insert name []) (tick w))
            end
        end
    end.

Definition os_CreateTemp (dir prefix suffix : string) : M string :=
  let dir := if String.eqb dir "" then os_TempDir env else dir in
  createTemp_try (N.to_nat 10000) (joinPath dir prefix) suffix.

(** [os.Open]: the handle is the name; it fails on a missing file. *)
Definition os_Open (name : string) : M string :=
  syscall ;;
  fun w => match files w !! name with
           | Some _ => (Ok name, w)
           | None => (Err (errorString ("open " +:+ name +:+ ": no such file or directory")), w)
           end.

(** Reading an open file to its end. *)
Definition file_Read (name : string) : M bytes :=
  syscall ;;
  fun w => match files w !! name with
           | Some data => (Ok data, w)
           | None => (Err (errorString ("read " +:+ name +:+ ": file already closed")), w)
           end.

(** Writing [data] to an open file from its start.  The bytes go out piece
    by piece: a write that fails leaves what went out before it, a prefix of
    [data], in the file. *)
Definition file_Write (name : string) (data : bytes) : M unit :=
  fun w =>
    match syscall_fault env (clock w) with
    | Some msg =>
        (Err (errorString msg),
         set_files (insert name (take (write_done env (clock w)) data)) (tick w))
    | None => (Ok tt, set_files (insert name data) (tick w))
    end.

(** [os.Stat(name).Size()] *)
Definition os_Stat_Size (name : string) : M Z :=
  syscall ;;
  fun w => match files w !! name with
           | Some data => (Ok (Z.of_nat (length data)), w)
           | None => (Err (errorString ("stat " +:+ name +:+ ": no such file or directory")), w)
           end.

(** [os.Remove]: unlinking an existing file succeeds; a missing one is an
    error (which every caller in this program drops). *)
Definition os_Remove (name : string) : M unit :=
  fun w => match files w !! name with
           | Some _ => (Ok tt, set_files (delete name) (tick w))
           | None => (Err (errorString ("remove " +:+ name +:+ ": no such file or directory")), tick w)
           end.

(** [fasthttp.DefaultMaxIdemponentCallAttempts] *)
Definition DefaultMaxIdemponentCallAttempts : nat := 5.

(** How often one call of [Do] puts its request on the wire.  The program's
    clients are [&fasthttp.Client{}], without options, and its requests are
    GETs: such a client sends an idempotent request again when the connection
    fails before the response has arrived, up to
    [DefaultMaxIdemponentCallAttempts] attempts in all.  When no connection
    can be made nothing is sent; a response means the request went out at
    least once. *)
Definition client_sends (t : nat) (urlStr : string) (timeout_s : option Z) : nat :=
  let n := Nat.min (http_sent env t urlStr timeout_s) DefaultMaxIdemponentCallAttempts in
  match http_Do env t urlStr timeout_s with
  | TransportError _ => n
  | Response _ _ => Nat.max 1 n
  end.

(** [client.Do] and [client.DoTimeout]: one call, every request it sends
    logged. *)
Definition client_Do (urlStr : string) (timeout_s : option Z) : M (Z * bytes) :=
  fun w =>
    let sent := replicate (client_sends (clock w) urlStr timeout_s)
                  (HttpGet urlStr timeout_s) in
    let w1 := tick (log_all sent w) in
    match http_Do env (clock w) urlStr timeout_s with
    | TransportError msg => (Err (errorString msg), w1)
    | Response status body => (Ok (status, body), w1)
    end.

(** ** The program (unnamed/part_000) *)

(** [ValidateURL] *)
Definition ValidateURL (urlStr : string) : option error :=
  match url_Parse env urlStr with
  | None => Some (CustomAPIError 400 "Invalid URL")
  | Some u =>
      if negb (String.eqb (Host u) "www.slideshare.net")
      then Some (CustomAPIError 400 "Invalid SlideShare URL")
      else None
  end.

(** [fetchImage], lines 112-136: the request, the status check and the
    decoding of the body. *)
Definition fetch_decode (urlStr : string) : M Image :=
  let* resp := wrap_err (fun err => errorString ("error fetching image: " +:+ Error err))
                 (client_Do urlStr (Some 20)) in
  let '(status, imgData) := resp in
  if negb (Z.eqb status 200)
  then throw (errorString ("failed to fetch image: " +:+ urlStr
                           +:+ " (status " +:+ pretty status +:+ ")"))
  else fun w => (image_Decode env imgData, log ImageDecode w).

(** [fetchImage], lines 145-151: the image, cloned, is encoded as JPEG into
    the temporary file, whose name is returned. *)
Definition encode_into (tmpFile : string) (img : Image) : M string :=
  let rgbImg := imaging_Clone env img in
  let* data := pure (jpeg_Encode env rgbImg 90) in
  file_Write tmpFile data ;;
  ret tmpFile.

(** [fetchImage] (the [ctx] and [client] arguments carry no state). *)
Definition fetchImage (urlStr : string) : M string :=
  let* img := fetch_decode urlStr in
  let* tmpFile := os_CreateTemp "" "slide-" ".jpg" in
  encode_into tmpFile img.

(** *** The goroutines of [fetchImagesConcurrently]

    A goroutine is [Waiting] at [sem.Acquire]; once it holds a unit of the
    semaphore it runs [fetchImage], where the scheduler may switch to another
    goroutine before each call that touches the network or the disk: it is
    [Acquired] before the request, [Decoded] before [os.CreateTemp] and
    [Created] before the JPEG is written; then it is [Finished] (it has
    written its slot, released the semaphore and called [wg.Done]).  A
    schedule is the list of goroutine indices in the order the scheduler
    lets them take a step; a goroutine that cannot move (the semaphore is
    full, or it has finished) stays where it is.  With
    [context.Background()], [sem.Acquire] never returns an error: it waits. *)
Inductive TaskState :=
| Waiting
| Acquired
| Decoded (img : Image)
| Created (img : Image) (tmpFile : string)
| Finished.

Record Pool := {
  sem_cur : Z;
  tasks : list TaskState;
  results : list string;
  errors : list (option error)
}.

Definition init_pool (n : nat) : Pool :=
  {| sem_cur := 0; tasks := replicate n Waiting;
     results := replicate n ""; errors := replicate n None |}.

(** Goroutine [i] goes on inside [fetchImage]. *)
Definition move (p : Pool) (i : nat) (t : TaskState) : Pool :=
  {| sem_cur := sem_cur p; tasks := <[i := t]> (tasks p);
     results := results p; errors := errors p |}.

(** [errors[i] = err; return] with the deferred [sem.Release(1)] and
    [wg.Done()]. *)
Definition finish_err (p : Pool) (i : nat) (err : error) : Pool :=
  {| sem_cur := sem_cur p - 1; tasks := <[i := Finished]> (tasks p);
     results := results p; errors := <[i := Some err]> (errors p) |}.

(** [results[i] = filePath] with the deferred [sem.Release(1)] and
    [wg.Done()]. *)
Definition finish_ok (p : Pool) (i : nat) (filePath : string) : Pool :=
  {| sem_cur := sem_cur p - 1; tasks := <[i := Finished]> (tasks p);
     results := <[i := filePath]> (results p); errors := errors p |}.

Definition pool_step (urls : list string) (maxConcurrency : Z) (i : nat)
    (s : Pool * World) : Pool * World :=
  let (p, w) := s in
  match tasks p !! i, urls !! i with
  | Some Waiting, Some _ =>
      if Z.leb 1 (maxConcurrency - sem_cur p)
      then ({| sem_cur := sem_cur p + 1; tasks := <[i := Acquired]> (tasks p);
               results := results p; errors := errors p |}, w)
      else s
  | Some Acquired, Some urlStr =>
      match fetch_decode urlStr w with
      | (Ok img, w1) => (move p i (Decoded img), w1)
      | (Err err, w1) => (finish_err p i err, w1)
      end
  | Some (Decoded img), Some _ =>
      match os_CreateTemp "" "slide-" ".jpg" w with
      | (Ok tmpFile, w1) => (move p i (Created img tmpFile), w1)
      | (Err err, w1) => (finish_err p i err, w1)
      end
  | Some (Created img tmpFile), Some _ =>
      match encode_into tmpFile img w with
      | (Ok filePath, w1) => (finish_ok p i filePath, w1)
      | (Err err, w1) => (finish_err p i err, w1)
      end
  | _, _ => s
  end.

Definition run_schedule (urls : list string) (maxConcurrency : Z)
    (sched : list nat) (s : Pool * World) : Pool * World :=
  foldl (fun s i => pool_step urls maxConcurrency i s) s sched.

Definition is_finished (t : TaskState) : bool :=
  match t with Finished => true | _ => false end.

(** The loop after [wg.Wait()]: the first error in slot order decides; on an
    error every non-empty result is removed. *)
Definition first_error (errs : list (option error)) : option error :=
  match omap id errs with
  | e :: _ => Some e
  | [] => None
  end.

Definition remove_results (rs : list string) : M unit :=
  for_each (fun file => if String.eqb file "" then ret tt else ignore (os_Remove file)) rs.

Definition collect_results (p : Pool) : M (list string) :=
  match first_error (errors p) with
  | Some err =>
      remove_results (results p) ;;
      throw (CustomAPIError 500 ("Failed to fetch images: " +:+ Error err))
  | None => ret (results p)
  end.

(** [fetchImagesConcurrently]: [None] when [wg.Wait()] has not returned at
    the end of the schedule. *)
Definition fetchImagesConcurrently (urls : list string) (maxConcurrency : Z)
    (sched : list nat) (w : World) : option (Result (list string) * World) :=
  let (p, w1) := run_schedule urls maxConcurrency sched (init_pool (length urls), w) in
  if forallb is_finished (tasks p) then Some (collect_results p w1) else None.

(** Computations that contain the fetch stage: [None] is "blocked for ever". *)
Definition B (A : Type) : Type := World -> option (Result A * World).

Definition lift {A} (m : M A) : B A := fun w => Some (m w).

Definition bindB {A C} (m : B A) (k : A -> B C) : B C :=
  fun w => match m w with
           | Some (Ok a, w1) => k a w1
           | Some (Err e, w1) => Some (Err e, w1)
           | None => None
           end.

(** [FetchSlideImages]: the page, its title and one width-to-URL map per
    slide image that has a [srcset] with at least one usable entry. *)
Record SlidesData := { title : string; slides : list (gmap Z string) }.

(** One turn of the loop over the sources of a [srcset] (lines 83-95). *)
Definition add_source (slideResolutions : gmap Z string) (src : string) : gmap Z string :=
  match strings_Fields env (strings_TrimSpace env src) with
  | [urlPart; res] =>
      if strings_HasSuffix res "w"
      then match strconv_Atoi env (substring 0 (String.length res - 1) res) with
           | Ok resolution => <[resolution := urlPart]> slideResolutions
           | Err _ => slideResolutions
           end
      else slideResolutions
  | _ => slideResolutions
  end.

(** Lines 81-95: the width-to-URL map of one [srcset] attribute. *)
Definition slideResolutions_of (srcset : string) : gmap Z string :=
  foldl add_source ∅ (strings_Split srcset ","%char).

Definition allSlideImages (doc : Document) : list (gmap Z string) :=
  filter (fun slideResolutions : gmap Z string => size slideResolutions ≠ 0%nat)
    (map slideResolutions_of (omap id (doc_srcsets doc))).

Definition FetchSlideImages (urlStr : string) : M SlidesData :=
  let* resp := wrap_err (fun _ => CustomAPIError 500 "Failed to fetch the presentation page")
                 (client_Do urlStr None) in
  let '(status, body) := resp in
  if negb (Z.eqb status 200)
  then throw (CustomAPIError status "Failed to fetch the presentation page")
  else
    match goquery_NewDocument env body with
    | Err _ => throw (CustomAPIError 500 "Failed to parse HTML")
    | Ok doc =>
        if Nat.eqb (length (allSlideImages doc)) 0
        then throw (CustomAPIError 404 "No slide images found")
        else ret {| title := doc_title doc; slides := allSlideImages doc |}
    end.

(** *** The PDF exporter *)

(** [gofpdf.New(orientation, unit, size, fontDir)] *)
Definition gofpdf_New (orientationStr unitStr sizeStr fontDirStr : string) : Fpdf :=
  {| fpdf_orientation := orientationStr; fpdf_unit := unitStr; fpdf_size := sizeStr;
     fpdf_pages := []; fpdf_err := None |}.

Definition pdf_GetPageSize (pdf : Fpdf) : float * float :=
  fpdf_PageSize env (fpdf_orientation pdf) (fpdf_unit pdf) (fpdf_size pdf).

Definition pdf_with (pdf : Fpdf) (pages : list (list Placement)) (err : option error) : Fpdf :=
  {| fpdf_orientation := fpdf_orientation pdf; fpdf_unit := fpdf_unit pdf;
     fpdf_size := fpdf_size pdf; fpdf_pages := pages; fpdf_err := err |}.

(** [pdf.AddPage()]: nothing once the document is in error. *)
Definition pdf_AddPage (pdf : Fpdf) : Fpdf :=
  match fpdf_err pdf with
  | Some _ => pdf
  | None => pdf_with pdf (fpdf_pages pdf ++ [[]]) None
  end.

Definition place_on_last (pl : Placement) (pages : list (list Placement)) : list (list Placement) :=
  match rev pages with
  | page :: before => rev before ++ [page ++ [pl]]
  | [] => []
  end.

(** [pdf.Image(path, x, y, w, h, false, "", 0, "")]: registers the file (read
    from disk now) and puts it on the current page; a failure becomes the
    document's sticky error. *)
Definition pdf_Image (pdf : Fpdf) (imageNameStr : string) (x y w h : float) : M Fpdf :=
  fun wd =>
    match fpdf_err pdf with
    | Some _ => (Ok pdf, wd)
    | None =>
        match files wd !! imageNameStr with
        | None => (Ok (pdf_with pdf (fpdf_pages pdf)
                         (Some (errorString ("open " +:+ imageNameStr +:+ ": no such file or directory")))), wd)
        | Some data =>
            match fpdf_RegisterImage env imageNameStr data with
            | Some msg => (Ok (pdf_with pdf (fpdf_pages pdf) (Some (errorString msg))), wd)
            | None =>
                (Ok (pdf_with pdf
                       (place_on_last {| pl_image := imageNameStr; pl_x := x; pl_y := y;
                                         pl_w := w; pl_h := h |} (fpdf_pages pdf)) None), wd)
            end
        end
    end.

(** [pdf.OutputFileAndClose(path)] *)
Definition pdf_OutputFileAndClose (pdf : Fpdf) (fileStr : string) : M unit :=
  match fpdf_err pdf with
  | Some err => throw err
  | None => file_Write fileStr (fpdf_Output env (fpdf_pages pdf))
  end.

(** [float64(n)] for an [int] *)
Definition float64_of_int (n : Z) : float :=
  if Z.ltb n 0 then PrimFloat.opp (PrimFloat.of_uint63 (Uint63.of_Z (- n)))
  else PrimFloat.of_uint63 (Uint63.of_Z n).

(** [math.Min] *)
Definition math_Min (x y : float) : float :=
  if (PrimFloat.is_infinity x && PrimFloat.get_sign x)
     || (PrimFloat.is_infinity y && PrimFloat.get_sign y) then PrimFloat.neg_infinity
  else if PrimFloat.is_nan x || PrimFloat.is_nan y then PrimFloat.nan
  else if PrimFloat.is_zero x && PrimFloat.eqb x y
       then (if PrimFloat.get_sign x then x else y)
  else if PrimFloat.ltb x y then x else y.

(** [image.DecodeConfig(file)] on an open file. *)
Definition image_DecodeConfig_file (file : string) : M (Z * Z) :=
  let* data := file_Read file in
  fun w => (image_DecodeConfig env data, log (ImageDecodeConfig file) w).

(** The size the image gets on the page (lines 216-220). *)
Definition fit_to_page (pageWidth pageHeight : float) (imgWidth imgHeight : Z) : float * float :=
  let width := float64_of_int imgWidth in
  let height := float64_of_int imgHeight in
  let ratio := math_Min (PrimFloat.div pageWidth width) (PrimFloat.div pageHeight height) in
  (PrimFloat.mul width ratio, PrimFloat.mul height ratio).

(** The body of the loop of [convertImagePathsToPDF]. *)
Definition pdf_add_image (pdf : Fpdf) (imgPath : string) : M Fpdf :=
  let* file := os_Open imgPath in
  let* img := image_DecodeConfig_file file in
  let '(pageWidth, pageHeight) := pdf_GetPageSize pdf in
  let '(width, height) := fit_to_page pageWidth pageHeight (fst img) (snd img) in
  let pdf := pdf_AddPage pdf in
  pdf_Image pdf imgPath 0%float 0%float width height.

Fixpoint pdf_add_images (pdf : Fpdf) (imagePaths : list string) : M Fpdf :=
  match imagePaths with
  | [] => ret pdf
  | imgPath :: rest =>
      let* pdf := pdf_add_image pdf imgPath in
      pdf_add_images pdf rest
  end.

(** [convertImagePathsToPDF] *)
Definition convertImagePathsToPDF (imagePaths : list string) (pdfPath : string) : M unit :=
  let pdf := gofpdf_New "P" "mm" "A4" "" in
  let* pdf := pdf_add_images pdf imagePaths in
  pdf_OutputFileAndClose pdf pdfPath.

(** *** The publisher *)

(** The remote store after a successful [STOR]. *)
Definition stored (remotePath : string) (data : bytes) : M unit :=
  fun w => (Ok tt, set_remote (insert remotePath data) (log (FtpStor remotePath) w)).

(** One command to the FTP server. *)
Definition ftp (c : FtpCommand) : M unit :=
  fun w => match ftp_reply env (clock w) c with
           | Some msg => (Err (errorString msg), tick w)
           | None => (Ok tt, tick w)
           end.

(** The path from the root of [dir] in the directory [cwd] (the root is
    [""]). *)
Definition remote_join (cwd dir : string) : string :=
  if String.eqb cwd "" then dir else cwd +:+ "/" +:+ dir.

(** [conn.MakeDir(dir)] in the directory [cwd]: when the server accepts it,
    the directory is there. *)
Definition ftp_MakeDir (cwd dir : string) : M unit :=
  ftp (FtpMakeDir dir) ;;
  fun w => (Ok tt, add_remote_dir (remote_join cwd dir) w).

(** [conn.Stor(remoteFile, file)] for the file that is to be [remotePath].
    A transfer that breaks leaves the part the server has received. *)
Definition ftp_Stor (remotePath remoteFile : string) (data : bytes) : M unit :=
  fun w =>
    match ftp_reply env (clock w) (FtpStorFile remoteFile data) with
    | None => stored remotePath data (tick w)
    | Some msg =>
        (Err (errorString msg),
         match ftp_kept env (clock w) with
         | Some n => set_remote (insert remotePath (take n data)) (tick w)
         | None => tick w
         end)
    end.

(** Lines 267-282: walk down the remote directories from [cwd], making the
    missing ones. *)
Fixpoint ftp_enter_dirs_from (cwd : string) (dirs : list string) : M unit :=
  match dirs with
  | [] => ret tt
  | dir :: rest =>
      if String.eqb dir "" then ftp_enter_dirs_from cwd rest
      else
        (fun w => match ftp (FtpChangeDir dir) w with
                  | (Ok _, w1) => (Ok tt, w1)
                  | (Err _, w1) => (ftp_MakeDir cwd dir ;; ftp (FtpChangeDir dir)) w1
                  end) ;;
        ftp_enter_dirs_from (remote_join cwd dir) rest
  end.

(** The loop starts in the root, where [conn.ChangeDir("/")] has gone. *)
Definition ftp_enter_dirs (dirs : list string) : M unit :=
  ftp_enter_dirs_from "" dirs.

(** [uploadToFTP].  The remote store is kept by the path the file was to be
    stored under. *)
Definition uploadToFTP (filePath remotePath : string) : M unit :=
  let ftpHost := os_Getenv env "FTP_HOST" in
  let ftpUser := os_Getenv env "FTP_USER" in
  let ftpPass := os_Getenv env "FTP_PASS" in
  let ftpPortStr := os_Getenv env "FTP_PORT" in
  let ftpPortStr := if String.eqb ftpPortStr "" then "21" else ftpPortStr in
  let* ftpPort := pure (strconv_Atoi env ftpPortStr) in
  ftp (FtpDial (ftpHost +:+ ":" +:+ pretty ftpPort)) ;;
  ftp (FtpLogin ftpUser ftpPass) ;;
  let dirs := strings_Split remotePath "/"%char in
  let remoteDir := strings_Join (removelast dirs) "/" in
  let remoteFile := List.last dirs "" in
  ftp (FtpChangeDir "/") ;;
  ftp_enter_dirs (strings_Split remoteDir "/"%char) ;;
  let* file := os_Open filePath in
  let* data := file_Read file in
  ftp_Stor remotePath remoteFile data.

(** [fmt.Sprintf("%s/%s", fmt.Sprintf("SS_DL/%s", dateStr), filename)] *)
Definition ftpPath_of (filename : string) : string :=
  ("SS_DL/" +:+ time_Now_Format env "02012006") +:+ "/" +:+ filename.

(** The deferred loop [for _, path := range imagePaths { os.Remove(path) }]. *)
Definition remove_all (imagePaths : list string) : M unit :=
  for_each (fun path => ignore (os_Remove path)) imagePaths.

(** The tail shared by the three converters (prepare the path, upload, stat);
    [wrap] is how each of them dresses an upload error. *)
Definition publish (tmp filename : string) (wrap : error -> error) : M (string * Z) :=
  let ftpPath := ftpPath_of filename in
  wrap_err wrap (uploadToFTP tmp ftpPath) ;;
  let* size := os_Stat_Size tmp in
  ret (ftpPath, size).

(** [ConvertURLsToPDF] from the temporary PDF file on (lines 316-347). *)
Definition buildAndPublishPDF (imagePaths : list string) (pdfFilename : string) : M (string * Z) :=
  let* tmpPDF := os_CreateTemp "" "slides-" ".pdf" in
  defer (os_Remove tmpPDF)
    (wrap_err (fun err => CustomAPIError 500 (Error err))
       (convertImagePathsToPDF imagePaths tmpPDF) ;;
     publish tmpPDF pdfFilename
       (fun err => CustomAPIError 500 ("FTP upload failed: " +:+ Error err))).

(** [ConvertURLsToPDF] after the fetch (lines 306-347). *)
Definition exportPDF (imagePaths : list string) (pdfFilename : string) : M (string * Z) :=
  defer (remove_all imagePaths)
    (if Nat.eqb (length imagePaths) 0
     then throw (CustomAPIError 500 "No images to convert to PDF")
     else buildAndPublishPDF imagePaths pdfFilename).

(** [ConvertURLsToPDF] *)
Definition ConvertURLsToPDF (imageURLs : list string) (pdfFilename : string)
    (sched : list nat) : B (string * Z) :=
  bindB (fetchImagesConcurrently imageURLs 25000 sched)
        (fun imagePaths => lift (exportPDF imagePaths pdfFilename)).

(** *** The slide-deck exporter *)

Fixpoint ppt_add_slides (p : list bytes) (imagePaths : list string) : M (list bytes) :=
  match imagePaths with
  | [] => ret p
  | imgPath :: rest =>
      let* data := wrap_err (fun err => errorString ("failed to add image to slide: " +:+ Error err))
                     (file_Read imgPath) in
      match ppt_AddImageSlide env data with
      | Some msg => throw (errorString ("failed to add image to slide: " +:+ msg))
      | None => ppt_add_slides (p ++ [data]) rest
      end
  end.

(** [ConvertURLsToPPTX] after the fetch (lines 357-405). *)
Definition exportPPTX (imagePaths : list string) (pptxFilename : string) : M (string * Z) :=
  defer (remove_all imagePaths)
    (let* p := ppt_add_slides [] imagePaths in
     let* tmpPPTX := os_CreateTemp "" "slides-" ".pptx" in
     defer (os_Remove tmpPPTX)
       (wrap_err (fun err => errorString ("failed to save PPTX: " +:+ Error err))
          (file_Write tmpPPTX (ppt_Output env p)) ;;
        publish tmpPPTX pptxFilename
          (fun err => errorString ("FTP upload failed: " +:+ Error err)))).

(** [ConvertURLsToPPTX] *)
Definition ConvertURLsToPPTX (imageURLs : list string) (pptxFilename : string)
    (sched : list nat) : B (string * Z) :=
  bindB (fetchImagesConcurrently imageURLs 10 sched)
        (fun imagePaths => lift (exportPPTX imagePaths pptxFilename)).

(** *** The archive exporter *)

(** [zipWriter.Close()]: the archive's bytes are in the file. *)
Definition zipWriter_Close (tmpZip : string) (entries : list ZipEntry) : M unit :=
  file_Write tmpZip (zip_Output env entries).

(** [zipWriter.Create(name)] *)
Definition zipWriter_Create (name : string) : M unit :=
  syscall ;;
  match zip_Create_error env name with
  | Some msg => throw (errorString msg)
  | None => ret tt
  end.

(** [io.Copy(zipEntry, file)]: the bytes read from [file]. *)
Definition io_Copy (file : string) : M bytes :=
  let* data := file_Read file in
  syscall ;;
  ret data.

(** On an error inside the loop the writer is closed before the return. *)
Definition close_and_fail {A} (tmpZip : string) (entries : list ZipEntry)
    (detail : string) (m : M A) : M A :=
  fun w => match m w with
           | (Ok a, w1) => (Ok a, w1)
           | (Err err, w1) =>
               (Err (CustomAPIError 500 (detail +:+ Error err)),
                snd (zipWriter_Close tmpZip entries w1))
           end.

(** The loop of lines 430-453, from index [i] on, with the entries written
    so far. *)
Fixpoint zip_add_entries (tmpZip : string) (i : nat) (entries : list ZipEntry)
    (imagePaths : list string) : M (list ZipEntry) :=
  match imagePaths with
  | [] => ret entries
  | imgPath :: rest =>
      let* file := close_and_fail tmpZip entries "Failed to open image: " (os_Open imgPath) in
      let entryName := "image_" +:+ pretty (Z.of_nat i + 1) +:+ ".jpg" in
      close_and_fail tmpZip entries "Failed to create zip entry: " (zipWriter_Create entryName) ;;
      let* data := close_and_fail tmpZip (entries ++ [(entryName, [])])
                     "Failed to write to zip: " (io_Copy file) in
      zip_add_entries tmpZip (S i) (entries ++ [(entryName, data)]) rest
  end.

(** Lines 429-458: the archive of the image files, written to [tmpZip]. *)
Definition writeZip (imagePaths : list string) (tmpZip : string) : M (list ZipEntry) :=
  let* entries := zip_add_entries tmpZip 0 [] imagePaths in
  wrap_err (fun err => CustomAPIError 500 ("Failed to close zip: " +:+ Error err))
    (zipWriter_Close tmpZip entries) ;;
  ret entries.

(** [ConvertURLsToZip] after the fetch (lines 415-477). *)
Definition exportZip (imagePaths : list string) (zipFilename : string) : M (string * Z) :=
  defer (remove_all imagePaths)
    (let* tmpZip := os_CreateTemp "" "slides-" ".zip" in
     defer (os_Remove tmpZip)
       (writeZip imagePaths tmpZip ;;
        publish tmpZip zipFilename
          (fun err => CustomAPIError 500 ("FTP upload failed: " +:+ Error err)))).

(** [ConvertURLsToZip] *)
Definition ConvertURLsToZip (imageURLs : list string) (zipFilename : string)
    (sched : list nat) : B (string * Z) :=
  bindB (fetchImagesConcurrently imageURLs 10 sched)
        (fun imagePaths => lift (exportZip imagePaths zipFilename)).

(** *** The orchestrator *)

(** The success payload of [GetSlidesDownloadLink] ([success] is [true]). *)
Record ResponseData := {
  thumbnail : string;
  quality : QualityType;
  conversion_type : SlidesConversionType;
  slides_download_link : string;
  file_name : string;
  size : Z;
  data_title : string
}.

Record ApiResponse := { message : string; data : ResponseData }.

(** Lines 514-517: the width asked of every slide. *)
Definition quality_of (qualityType : QualityType) : Z :=
  if String.eqb qualityType SD then 638 else 2048.

(** Lines 520-525: the URL of each slide that has the width, in slide order. *)
Definition highResImages (slides : list (gmap Z string)) (quality : Z) : list string :=
  omap (fun slide : gmap Z string => slide !! quality) slides.

(** Lines 513-534: the selected URLs and the thumbnail. *)
Definition select_resolution (slides : list (gmap Z string)) (qualityType : QualityType)
    : Result (list string * string) :=
  let quality := quality_of qualityType in
  let urls := highResImages slides quality in
  match urls with
  | [] => Err (CustomAPIError 404 ("No " +:+ pretty quality +:+ "px resolution slides found"))
  | thumbnail :: _ => Ok (urls, thumbnail)
  end.

(** Lines 494-498: the pieces of the path and the document's short name. *)
Definition pathParts (u : URL) : list string :=
  strings_Split (strings_Trim (Path u) "/") "/"%char.

Definition docShort_of (parts : list string) : string :=
  nth (length parts - 2) parts "".

(** The [switch] of lines 540-552. *)
Definition convert (conversionType : SlidesConversionType) (urls : list string)
    (docShort : string) (sched : list nat) : B (string * Z * string) :=
  let with_message (msg : string) (m : B (string * Z)) : B (string * Z * string) :=
    bindB m (fun r => lift (ret (r, msg))) in
  if String.eqb conversionType PDF
  then with_message "PDF generated successfully."
         (ConvertURLsToPDF urls (docShort +:+ ".pdf") sched)
  else if String.eqb conversionType PPTX
  then with_message "PPTX generated successfully."
         (ConvertURLsToPPTX urls (docShort +:+ ".pptx") sched)
  else if String.eqb conversionType ImagesZip
  then with_message "IMAGES ZIP generated successfully."
         (ConvertURLsToZip urls (docShort +:+ ".zip") sched)
  else lift (throw (CustomAPIError 400 "Unsupported conversion type")).

(** [GetSlidesDownloadLink].  The type assertion of line 506 cannot fail:
    [FetchSlideImages] always stores a [[]map[int]string] under ["slides"]. *)
Definition GetSlidesDownloadLink (urlStr : string) (conversionType : SlidesConversionType)
    (qualityType : QualityType) (sched : list nat) : B ApiResponse :=
  match ValidateURL urlStr with
  | Some err => lift (throw err)
  | None =>
      match url_Parse env urlStr with
      | None => lift (throw (CustomAPIError 400 "Invalid URL format"))
      | Some u =>
          if Nat.ltb (length (pathParts u)) 2
          then lift (throw (CustomAPIError 400 "Invalid SlideShare URL format"))
          else
            let docShort := docShort_of (pathParts u) in
            bindB (lift (FetchSlideImages urlStr)) (fun slidesData =>
            match select_resolution (slides slidesData) qualityType with
            | Err err => lift (throw err)
            | Ok (urls, thumb) =>
                bindB (convert conversionType urls docShort sched) (fun r =>
                let '(path, sz, msg) := r in
                lift (ret {| message := msg;
                             data := {| thumbnail := thumb;
                                        quality := qualityType;
                                        conversion_type := conversionType;
                                        slides_download_link :=
                                          os_Getenv env "BASE_URL" +:+ "/" +:+ path;
                                        file_name := filepath_Base path;
                                        size := sz;
                                        data_title := title slidesData |} |}))
            end)
      end
  end.

End Program.

(** [convertHandler] (main.go), from the parsed query parameters on ([None]
    when [QueryParser] fails). *)
Record ConvertParams := {
  param_URL : string;
  param_ConversionType : SlidesConversionType;
  param_Quality : QualityType
}.

Definition convertHandler (env : Env) (params : option ConvertParams) (sched : list nat)
    : B ApiResponse :=
  match params with
  | None => lift (throw (CustomAPIError 400 "Invalid query parameters"))
  | Some params =>
      if String.eqb (strings_TrimSpace env (param_URL params)) ""
      then lift (throw (CustomAPIError 400 "Url can't be empty"))
      else
        let quality := if String.eqb (param_Quality params) "" then HD
                       else param_Quality params in
        GetSlidesDownloadLink env (param_URL params) (param_ConversionType params)
          quality sched
  end.

(** [customErrorHandler] (main.go): the status and detail a request ends with
    when the pipeline returns [err]. *)
Definition customErrorHandler (err : error) : Z * string :=
  match err with
  | CustomAPIError code detail => (code, detail)
  | errorString _ => (500, "Internal Server Error")
  end.

(** ** A small concrete world

    Toy codecs and a scripted network, used to run the program on concrete
    inputs.  A source image is the byte [P], then width and height as three
    big-endian bytes each, then its pixels; the toy JPEG is [FF D8], width and
    height as two bytes each, the quality, then the pixels.  Like the real
    encoder, the toy one refuses an image with a side of 65536 or more. *)
Module Demo.

Definition byte_of (n : Z) : byte :=
  match Byte.of_N (Z.to_N (n mod 256)) with Some b => b | None => x00 end.

Definition be (bs : list byte) : Z :=
  foldl (fun acc b => 256 * acc + Z.of_N (Byte.to_N b)) 0 bs.

Definition source_image (w h : Z) (pix : bytes) : bytes :=
  [x50; byte_of (w / 65536); byte_of (w / 256); byte_of w;
        byte_of (h / 65536); byte_of (h / 256); byte_of h] ++ pix.

Definition decode (body : bytes) : Result Image :=
  match body with
  | x50 :: a :: b :: c :: d :: e :: f :: pix =>
      Ok {| Dx := be [a; b; c]; Dy := be [d; e; f]; Pix := pix |}
  | _ => Err (errorString "image: unknown format")
  end.

Definition encode (img : Image) (q : Z) : Result bytes :=
  if Z.leb 65536 (Dx img) || Z.leb 65536 (Dy img)
  then Err (errorString "jpeg: image is too large to encode")
  else Ok ([xff; xd8; byte_of (Dx img / 256); byte_of (Dx img);
            byte_of (Dy img / 256); byte_of (Dy img); byte_of q] ++ Pix img).

Definition decodeConfig (data : bytes) : Result (Z * Z) :=
  match data with
  | xff :: xd8 :: a :: b :: c :: d :: _ => Ok (be [a; b], be [c; d])
  | _ => Err (errorString "image: unknown format")
  end.

(** [scheme://host/path], enough of [url.Parse] for the URLs used below. *)
Definition parse (s : string) : option URL :=
  if String.prefix "https://" s
  then match strings_Split (substring 8 (String.length s - 8) s) "/"%char with
       | host :: [] => Some {| Host := host; Path := "" |}
       | host :: segs => Some {| Host := host; Path := "/" +:+ String.concat "/" segs |}
       | [] => None
       end
  else None.

Definition page_url : string := "https://www.slideshare.net/slideshow/verified-go/42".
Definition page_body : bytes := list_byte_of_string "<html>deck</html>".

Definition the_document : Document :=
  {| doc_title := "Verified Go";
     doc_srcsets := [Some "s1-320.jpg 320w, s1-638.jpg 638w, s1-2048.jpg 2048w";
                     None;
                     Some "s2-320.jpg 320w, s2-2048.jpg 2048w";
                     Some "s3-638.jpg 638w, s3-2048.jpg 2048w"] |}.

(** A page whose slide images offer nothing the scraper can use. *)
Definition bare_url : string := "https://www.slideshare.net/slideshow/bare/3".
Definition bare_body : bytes := list_byte_of_string "<html>bare</html>".

Definition bare_document : Document :=
  {| doc_title := "Bare";
     doc_srcsets := [Some "logo.png"; None; Some "a.jpg 2x, b.jpg wide";
                     Some "c.jpg xw, d.jpg 100w 2x"] |}.

(** A deck that has its slides at width 2048 only. *)
Definition hd_only_url : string := "https://www.slideshare.net/slideshow/hd-only/9".
Definition hd_only_body : bytes := list_byte_of_string "<html>hd only</html>".

Definition hd_only_document : Document :=
  {| doc_title := "HD only";
     doc_srcsets := [Some "h1-2048.jpg 2048w"; Some "h2-2048.jpg 2048w"] |}.

(** [strconv.Atoi] on unsigned decimal numerals. *)
Definition atoi (s : string) : Result Z :=
  let digit (c : ascii) : option Z :=
    let n := Z.of_nat (nat_of_ascii c) - 48 in
    if Z.leb 0 n && Z.leb n 9 then Some n else None in
  match s with
  | "" => Err (errorString "strconv.Atoi: parsing an empty string: invalid syntax")
  | _ =>
      match foldl (fun acc c => match acc, digit c with
                                | Some a, Some d => Some (10 * a + d)
                                | _, _ => None
                                end) (Some 0) (list_ascii_of_string s) with
      | Some n => Ok n
      | None => Err (errorString "strconv.Atoi: invalid syntax")
      end
  end.

(** The scripted network: the deck's page, a deck with wide slides only, a
    page without usable images, a page that is gone, three slides at 2048
    pixels, two at 638, one image too wide for JPEG, one image served with
    status 201, one body that is no image, one image that arrives at the
    third attempt, one server that closes every connection; every other
    request fails to connect. *)
Definition network (t : nat) (url : string) (timeout_s : option Z) : HttpResult :=
  if String.eqb url page_url then Response 200 page_body
  else if String.eqb url hd_only_url then Response 200 hd_only_body
  else if String.eqb url bare_url then Response 200 bare_body
  else if String.eqb url "slow.jpg" then Response 200 (source_image 4 3 [x07])
  else if String.eqb url "flaky.jpg"
  then TransportError "the server closed connection before returning the first response byte"
  else if String.eqb url "s1-2048.jpg" then Response 200 (source_image 2048 1152 [x01])
  else if String.eqb url "s2-2048.jpg" then Response 200 (source_image 2048 1152 [x02])
  else if String.eqb url "s3-2048.jpg" then Response 200 (source_image 1152 2048 [x03])
  else if String.eqb url "s1-638.jpg" then Response 200 (source_image 638 359 [x04])
  else if String.eqb url "s3-638.jpg" then Response 200 (source_image 638 359 [x05])
  else if String.eqb url "https://www.slideshare.net/slideshow/removed/7"
  then Response 404 (list_byte_of_string "not found")
  else if String.eqb url "wide.png" then Response 200 (source_image 65536 1 [])
  else if String.eqb url "created.png" then Response 201 (source_image 4 3 [x06])
  else if String.eqb url "gone.html" then Response 404 (list_byte_of_string "not found")
  else if String.eqb url "text.txt" then Response 200 (list_byte_of_string "hello")
  else TransportError "dial tcp: connection refused".

(** How often a request goes out: once when it is answered, not at all when
    no connection can be made; the slow image is answered at the third
    attempt, the flaky server is tried for as long as the client will. *)
Definition times_sent (net : nat -> string -> option Z -> HttpResult)
    (t : nat) (url : string) (timeout_s : option Z) : nat :=
  if String.eqb url "slow.jpg" then 3
  else if String.eqb url "flaky.jpg" then 9
  else match net t url timeout_s with
       | Response _ _ => 1
       | TransportError _ => 0
       end.

(** An FTP server that has every directory and answers [STOR] with
    [stor]. *)
Definition server (stor : option string) (t : nat) (c : FtpCommand) : option string :=
  match c with FtpStorFile _ _ => stor | _ => None end.

(** An FTP server that has no directory yet: of an upload that begins at
    time 0 and goes down two directories, the first [CWD] into each (the
    commands sent at times 3 and 6) fails. *)
Definition empty_server (stor : option string) (t : nat) (c : FtpCommand) : option string :=
  match c with
  | FtpChangeDir _ =>
      if Nat.eqb t 3 || Nat.eqb t 6 then Some "550 Failed to change directory." else None
  | FtpStorFile _ _ => stor
  | _ => None
  end.

(** The environment with a given network, a given plan of failing system
    calls (a failing write leaves [done] bytes) and a given FTP server (a
    refused file is kept up to [kept]). *)
Definition env_of (net : nat -> string -> option Z -> HttpResult)
    (fault : nat -> option string) (done : nat)
    (reply : nat -> FtpCommand -> option string) (kept : option nat) : Env :=
  {| url_Parse := parse;
     http_Do := net;
     http_sent := times_sent net;
     goquery_NewDocument := fun body =>
       if String.eqb (string_of_list_byte body) "<html>deck</html>" then Ok the_document
       else if String.eqb (string_of_list_byte body) "<html>hd only</html>"
       then Ok hd_only_document
       else if String.eqb (string_of_list_byte body) "<html>bare</html>"
       then Ok bare_document
       else Ok {| doc_title := ""; doc_srcsets := [] |};
     strings_TrimSpace := fun s => strings_Trim s " ";
     strings_Fields := String.words;
     strconv_Atoi := atoi;
     image_Decode := decode;
     image_DecodeConfig := decodeConfig;
     imaging_Clone := fun img => img;
     jpeg_Encode := encode;
     runtime_rand := fun t => N.of_nat t;
     syscall_fault := fault;
     write_done := fun _ => done;
     os_TempDir := "/tmp";
     os_Getenv := fun k => if String.eqb k "BASE_URL" then "https://files.example" else "";
     time_Now_Format := fun _ => "03112026";
     fpdf_PageSize := fun _ _ _ => (210%float, 297%float);
     fpdf_RegisterImage := fun _ _ => None;
     fpdf_Output := fun pages => map (fun _ => x25) pages;
     ppt_AddImageSlide := fun _ => None;
     ppt_Output := fun slides => concat slides;
     zip_Create_error := fun _ => None;
     zip_Output := fun entries => concat (map snd entries);
     ftp_reply := reply;
     ftp_kept := fun _ => kept |}.

(** The environment with a given network, a given plan of failing system
    calls and a given answer of the FTP server to [STOR]. *)
Definition env_with (net : nat -> string -> option Z -> HttpResult)
    (fault : nat -> option string) (stor : option string) : Env :=
  env_of net fault 0 (server stor) None.

Definition env : Env := env_with network (fun _ => None) None.

Definition w0 : World :=
  {| files := ∅; remote := ∅; remote_dirs := ∅; clock := 0; trace := [] |}.

(** A disk with two images and the (empty) temporary archive. *)
Definition two_files (a b out : string) (da db : bytes) : World :=
  {| files := <[a := da]> (<[b := db]> (<[out := []]> ∅));
     remote := ∅; remote_dirs := ∅; clock := 0; trace := [] |}.

End Demo.

(** * The vocabulary of the statements *)

(** [keeps_files m]: [m] leaves every local file as it is. *)
Definition keeps_files {A} (m : M A) : Prop :=
  forall w, files (snd (m w)) = files w.

(** [touches_only name m]: [m] changes no local file but [name]. *)
Definition touches_only {A} (name : string) (m : M A) : Prop :=
  forall w k, k <> name -> files (snd (m w)) !! k = files w !! k.

(** The schedule that lets each goroutine run to its end before the next
    starts. *)
Definition one_by_one (k n : nat) : list nat :=
  flat_map (fun i => [i; i; i; i]) (seq k n).

(** [fmt.Sprintf("image_%d.jpg", i+1)] for the loop index [i]. *)
Definition entry_name (i : nat) : string :=
  "image_" +:+ pretty (Z.of_nat i + 1) +:+ ".jpg".

(** The page the claim describes for one image: the image at the top-left
    corner, at size [(imgWidth * r, imgHeight * r)] with
    [r = min(pageWidth / imgWidth, pageHeight / imgHeight)]. *)
Definition fitted_page (pageSize : float * float) (imgPath : string) (dims : Z * Z)
    : list Placement :=
  let imgWidth := float64_of_int (fst dims) in
  let imgHeight := float64_of_int (snd dims) in
  let r := math_Min (fst pageSize / imgWidth) (snd pageSize / imgHeight) in
  [ {| pl_image := imgPath; pl_x := 0; pl_y := 0;
       pl_w := imgWidth * r; pl_h := imgHeight * r |} ]%float.

Section Vocabulary.

Context (env : Env) (urls : list string) (w0 : World).

(** What a successful [fetchImage] of [url] has done to the world: it got a
    200 answer whose body decoded, and a file that did not exist before now
    holds that image re-encoded as JPEG at quality 90. *)
Definition fetched (url name : string) (w w' : World) : Prop :=
  name <> "" /\ files w !! name = None /\
  exists body img data,
    http_Do env (clock w) url (Some 20) = Response 200 body /\
    image_Decode env body = Ok img /\
    jpeg_Encode env (imaging_Clone env img) 90 = Ok data /\
    files w' = <[name := data]> (files w).

(** [img] is what some request for [url] returned, decoded. *)
Definition served (url : string) (img : Image) : Prop :=
  exists t body,
    http_Do env t url (Some 20) = Response 200 body /\
    image_Decode env body = Ok img.

(** [name] holds the JPEG of an image that some request for [url] returned;
    it did not exist when the call started. *)
Definition produced (url name : string) (w : World) : Prop :=
  name <> "" /\ files w0 !! name = None /\
  exists t body img data,
    http_Do env t url (Some 20) = Response 200 body /\
    image_Decode env body = Ok img /\
    jpeg_Encode env (imaging_Clone env img) 90 = Ok data /\
    files w !! name = Some data.

(** What a task that failed after [os.CreateTemp] can have left in its
    file: nothing, or the beginning of the JPEG of its image, when the write
    broke off. *)
Definition partial_jpeg (url : string) (v : bytes) : Prop :=
  v = [] \/
  exists img data n,
    served url img /\ jpeg_Encode env (imaging_Clone env img) 90 = Ok data /\
    v = take n data.

(** The image a goroutine has in hand, and the temporary file it has created
    and not yet written. *)
Definition image_of (t : TaskState) : option Image :=
  match t with
  | Decoded img | Created img _ => Some img
  | _ => None
  end.

Definition held (t : TaskState) : option string :=
  match t with
  | Created _ tmpFile => Some tmpFile
  | _ => None
  end.

(** How many steps a goroutine has before it at most. *)
Definition steps_left (t : TaskState) : nat :=
  match t with
  | Waiting => 4
  | Acquired => 3
  | Decoded _ => 2
  | Created _ _ => 1
  | Finished => 0
  end.

Definition no_error (p : Pool) : Prop :=
  forall i e, errors p !! i <> Some (Some e).

Definition has_error (p : Pool) : Prop :=
  exists i e, errors p !! i = Some (Some e).

Record pool_inv (p : Pool) (w : World) : Prop := {
  inv_tasks : length (tasks p) = length urls;
  inv_results : length (results p) = length urls;
  inv_errors : length (errors p) = length urls;
  (** a goroutine that has not finished has written neither slot *)
  inv_pending : forall i, (i < length urls)%nat -> tasks p !! i <> Some Finished ->
                results p !! i = Some "" /\ errors p !! i = Some None;
  (** a finished goroutine has written exactly one of its two slots *)
  inv_done : forall i, tasks p !! i = Some Finished -> errors p !! i = Some None ->
             exists name, results p !! i = Some name /\ name <> "";
  (** the image a goroutine has in hand was served for its own URL *)
  inv_image : forall i t img, tasks p !! i = Some t -> image_of t = Some img ->
              exists url, urls !! i = Some url /\ served url img;
  (** the file a goroutine has created is new, still empty, and its alone *)
  inv_held : forall i t tmp, tasks p !! i = Some t -> held t = Some tmp ->
             tmp <> "" /\ files w0 !! tmp = None /\ files w !! tmp = Some [];
  inv_held_distinct : forall i j t t' tmp, i <> j ->
                      tasks p !! i = Some t -> tasks p !! j = Some t' ->
                      held t = Some tmp -> held t' <> Some tmp;
  inv_held_slot : forall i j t tmp, tasks p !! i = Some t -> held t = Some tmp ->
                  results p !! j <> Some tmp;
  (** a non-empty result slot holds the file of its own URL *)
  inv_slot : forall i name, results p !! i = Some name -> name <> "" ->
             errors p !! i = Some None /\
             exists url, urls !! i = Some url /\ produced url name w;
  inv_distinct : forall i j name, i <> j -> results p !! i = Some name ->
                 results p !! j = Some name -> name = "";
  (** the files that were there are untouched, and so is the remote store *)
  inv_old : forall k v, files w0 !! k = Some v -> files w !! k = Some v;
  inv_remote : remote w = remote w0;
  (** a new file has a name; if it is neither in a slot nor in a goroutine's
      hands, it is the file a failed goroutine left behind *)
  inv_nonempty : forall k, is_Some (files w !! k) -> files w0 !! k = None -> k <> "";
  inv_new : forall k v, files w !! k = Some v -> files w0 !! k = None ->
            (forall j, results p !! j <> Some k) ->
            (forall j t, tasks p !! j = Some t -> held t <> Some k) ->
            exists i err url,
              errors p !! i = Some (Some err) /\ urls !! i = Some url /\
              partial_jpeg url v
}.

End Vocabulary.

(** When a fetch task fails according to the specification's sentence: the
    request timed out (or failed in transport), the status is not 2xx, or
    the body is not an image. *)
Definition fails_as_specified (env : Env) (url : string) (w : World) : Prop :=
  match http_Do env (clock w) url (Some 20) with
  | TransportError _ => True
  | Response status body =>
      ~ (200 <= status < 300) \/ is_ok (image_Decode env body) = false
  end.

(** When [fetchImage] fails: the request failed, the status is not 200, the
    body is not an image, the temporary file could not be created, the
    encoder refused the image, or the write to the file failed. *)
Definition fetch_fails (env : Env) (url : string) (w : World) : Prop :=
  match http_Do env (clock w) url (Some 20) with
  | TransportError _ => True
  | Response status body =>
      status <> 200 \/
      match image_Decode env body with
      | Err _ => True
      | Ok img =>
          match os_CreateTemp env "" "slide-" ".jpg" (snd (fetch_decode env url w)) with
          | (Err _, _) => True
          | (Ok _, w2) =>
              is_ok (jpeg_Encode env (imaging_Clone env img) 90) = false \/
              syscall_fault env (clock w2) <> None
          end
      end
  end.

(** ** The vocabulary of the further properties *)

(** A goroutine that holds a unit of the semaphore: it has passed
    [sem.Acquire] and not yet run the deferred [sem.Release]. *)
Definition in_flight (t : TaskState) : bool :=
  match t with
  | Waiting | Finished => false
  | _ => true
  end.

Definition units_held (ts : list TaskState) : Z :=
  Z.of_nat (length (List.filter in_flight ts)).

(** The semaphore counts the goroutines in flight and stays within its
    size. *)
Definition sem_inv (maxConcurrency : Z) (p : Pool) : Prop :=
  sem_cur p = units_held (tasks p) /\ sem_cur p <= Z.max 0 maxConcurrency.

(** A goroutine that has made its call to the client. *)
Definition requested (t : TaskState) : bool :=
  match t with
  | Waiting | Acquired => false
  | _ => true
  end.

(** The HTTP requests of a log, in the order they were made. *)
Definition http_gets (tr : list Event) : list (string * option Z) :=
  omap (fun e => match e with HttpGet url t => Some (url, t) | _ => None end) tr.

(** The requests the goroutines of a pool have sent, when the one call of
    goroutine [i] has put its request on the wire [calls !! i] times. *)
Fixpoint sent (ts : list TaskState) (urls : list string) (calls : list nat)
    : list (string * option Z) :=
  match ts, urls, calls with
  | t :: ts', url :: urls', n :: calls' =>
      (if requested t then replicate n (url, Some 20) else []) ++ sent ts' urls' calls'
  | _, _, _ => []
  end.

(** The requests of one call for each URL. *)
Definition requests_of (urls : list string) (calls : list nat) : list (string * option Z) :=
  concat (zip_with (fun url n => replicate n (url, Some 20)) urls calls).

(** The requests made since the call began are those of the goroutines that
    have passed the request: one call each, of five requests at most, and of
    one at least for a goroutine that has not failed. *)
Definition gets_inv (urls : list string) (w0 : World) (p : Pool) (w : World) : Prop :=
  exists evs calls,
    trace w = trace w0 ++ evs /\
    length calls = length urls /\
    Forall (fun n => (n <= 5)%nat) calls /\
    (forall i t, tasks p !! i = Some t -> requested t = true ->
                 errors p !! i = Some None ->
                 exists n, calls !! i = Some n /\ (1 <= n)%nat) /\
    http_gets evs ≡ₚ sent (tasks p) urls calls.

(** [unchanged proj m]: [m] leaves the part [proj] of the world as it is. *)
Definition unchanged {A X} (proj : World -> X) (m : M A) : Prop :=
  forall w, proj (snd (m w)) = proj w.

(** Parts of the world that do not change when time passes, when a local
    file changes, when an external call is logged. *)
Class Timeless {X} (proj : World -> X) : Prop :=
  timeless : forall w, proj (tick w) = proj w.

Class Diskless {X} (proj : World -> X) : Prop :=
  diskless : forall f w, proj (set_files f w) = proj w.

Class Unlogged {X} (proj : World -> X) : Prop :=
  unlogged : forall es w, proj (log_all es w) = proj w.

(** Parts of the world that do not change when a directory is made on the
    server. *)
Class Dirless {X} (proj : World -> X) : Prop :=
  dirless : forall dir w, proj (add_remote_dir dir w) = proj w.

(** The files, local and remote, and the log. *)
Definition visible (w : World) : gmap string bytes * gmap string bytes * list Event :=
  (files w, remote w, trace w).

(** The directories [ftp_enter_dirs_from] comes through, each by its path
    from the root. *)
Fixpoint dirs_below (cwd : string) (dirs : list string) : list string :=
  match dirs with
  | [] => []
  | dir :: rest =>
      if String.eqb dir "" then dirs_below cwd rest
      else remote_join cwd dir :: dirs_below (remote_join cwd dir) rest
  end.

(** The directories on the way to [remotePath]. *)
Definition dirs_to (remotePath : string) : list string :=
  dirs_below "" (removelast (strings_Split remotePath "/"%char)).

(** [makes_dirs_in ds m]: [m] removes no directory of the server, and those
    it makes are among [ds]. *)
Definition makes_dirs_in {A} (ds : list string) (m : M A) : Prop :=
  forall w, remote_dirs w ⊆ remote_dirs (snd (m w)) /\
            remote_dirs (snd (m w)) ⊆ remote_dirs w ∪ list_to_set ds.

(** [remote_only path m]: [m] changes the remote store at [path] at most. *)
Definition remote_only {A} (path : string) (m : M A) : Prop :=
  forall w k, k <> path -> remote (snd (m w)) !! k = remote w !! k.

(** An error that is not the program's own [CustomAPIError]. *)
Definition plain (e : error) : Prop := exists msg, e = errorString msg.

(** An error the client sees as a 500. *)
Definition internal (e : error) : Prop := fst (customErrorHandler e) = 500.

(** [fails_in P m]: every error [m] returns satisfies [P]. *)
Definition fails_in {A} (P : error -> Prop) (m : M A) : Prop :=
  forall w e w', m w = (Err e, w') -> P e.

(** [m] returns an error, whatever the world. *)
Definition always_fails {A} (m : M A) : Prop :=
  forall w, is_ok (fst (m w)) = false.

(** The string [uploadToFTP] hands to [strconv.Atoi] (lines 234-238). *)
Definition ftpPortStr (env : Env) : string :=
  if String.eqb (os_Getenv env "FTP_PORT") "" then "21" else os_Getenv env "FTP_PORT".

(** The environment with other environment variables. *)
Definition with_Getenv (getenv : string -> string) (env : Env) : Env :=
  {| url_Parse := url_Parse env;
     http_Do := http_Do env;
     http_sent := http_sent env;
     goquery_NewDocument := goquery_NewDocument env;
     strings_TrimSpace := strings_TrimSpace env;
     strings_Fields := strings_Fields env;
     strconv_Atoi := strconv_Atoi env;
     image_Decode := image_Decode env;
     image_DecodeConfig := image_DecodeConfig env;
     imaging_Clone := imaging_Clone env;
     jpeg_Encode := jpeg_Encode env;
     runtime_rand := runtime_rand env;
     syscall_fault := syscall_fault env;
     write_done := write_done env;
     os_TempDir := os_TempDir env;
     os_Getenv := getenv;
     time_Now_Format := time_Now_Format env;
     fpdf_PageSize := fpdf_PageSize env;
     fpdf_RegisterImage := fpdf_RegisterImage env;
     fpdf_Output := fpdf_Output env;
     ppt_AddImageSlide := ppt_AddImageSlide env;
     ppt_Output := ppt_Output env;
     zip_Create_error := zip_Create_error env;
     zip_Output := zip_Output env;
     ftp_reply := ftp_reply env;
     ftp_kept := ftp_kept env |}.

(** A string without a slash. *)
Definition no_slash (s : string) : Prop :=
  forallb (fun c => negb (Ascii.eqb "/"%char c)) (list_ascii_of_string s) = true.

(** What one source of a [srcset] contributes (lines 84-93): its width and
    its URL, if it has exactly two fields, the second one a number followed
    by [w]. *)
Definition source_entry (env : Env) (src : string) : option (Z * string) :=
  match strings_Fields env (strings_TrimSpace env src) with
  | [urlPart; res] =>
      if strings_HasSuffix res "w"
      then match strconv_Atoi env (substring 0 (String.length res - 1) res) with
           | Ok resolution => Some (resolution, urlPart)
           | Err _ => None
           end
      else None
  | _ => None
  end.

(** The URLs the sources offer at a width, in the order of the sources. *)
Definition urls_at (env : Env) (width : Z) (sources : list string) : list string :=
  omap (fun src => match source_entry env src with
                   | Some (resolution, urlPart) =>
                       if Z.eqb resolution width then Some urlPart else None
                   | None => None
                   end) sources.

(** [data] is the JPEG, at quality 90, of an image that some request for
    [url] returned. *)
Definition jpeg_of (env : Env) (url : string) (data : bytes) : Prop :=
  exists t body img,
    http_Do env t url (Some 20) = Response 200 body /\
    image_Decode env body = Ok img /\
    jpeg_Encode env (imaging_Clone env img) 90 = Ok data.

(** A name [os.CreateTemp("", "slide-*.jpg")] can give: in the temporary
    directory, [slide-], a number, [.jpg]. *)
Definition temp_jpeg (env : Env) (name : string) : Prop :=
  exists n : N, name = joinPath (os_TempDir env) "slide-" +:+ pretty n +:+ ".jpg".

(** The files that were not there when the call began are temporary JPEG
    files. *)
Definition new_files_are_temp (env : Env) (w0 w : World) : Prop :=
  forall k, files w0 !! k = None -> is_Some (files w !! k) -> temp_jpeg env k.

(** * Proofs *)

(** ** The monad *)

Lemma bind_inv {A C} (m : M A) (k : A -> M C) w r w' :
  bind m k w = (r, w') ->
  (exists a w1, m w = (Ok a, w1) /\ k a w1 = (r, w')) \/
  (exists e, m w = (Err e, w') /\ r = Err e).
Proof.
  unfold bind. destruct (m w) as [[a|e] w1]; intros H.
  - left. eauto.
  - right. inversion H; subst. eauto.
Qed.

Lemma wrap_err_inv {A} (f : error -> error) (m : M A) w r w' :
  wrap_err f m w = (r, w') ->
  (exists a, m w = (Ok a, w') /\ r = Ok a) \/
  (exists e, m w = (Err e, w') /\ r = Err (f e)).
Proof.
  unfold wrap_err. destruct (m w) as [[a|e] w1]; intros H; inversion H; subst; eauto.
Qed.

(** A loop whose body never fails never fails. *)
Lemma for_each_ok {A} (f : A -> M unit) (xs : list A) :
  (forall x w, fst (f x w) = Ok tt) -> forall w, fst (for_each f xs w) = Ok tt.
Proof.
  intros Hf. induction xs as [|x xs IH]; intros w; simpl; [done|].
  unfold bind. specialize (Hf x w). destruct (f x w) as [[[]|e] w1]; simpl in *; [|done].
  apply IH.
Qed.

Lemma remove_results_ok rs w : fst (remove_results rs w) = Ok tt.
Proof. apply for_each_ok. intros x v. by destruct (String.eqb x ""). Qed.

Lemma remove_all_ok paths w : fst (remove_all paths w) = Ok tt.
Proof. by apply for_each_ok. Qed.

(** ** Which files a computation touches *)

Create HintDb frame.

Lemma keeps_touches {A} name (m : M A) : keeps_files m -> touches_only name m.
Proof. intros H w k _. by rewrite H. Qed.

Lemma keeps_ret {A} (a : A) : keeps_files (ret a).
Proof. by intros w. Qed.

Lemma keeps_throw {A} e : keeps_files (@throw A e).
Proof. by intros w. Qed.

Lemma keeps_bind {A C} (m : M A) (k : A -> M C) :
  keeps_files m -> (forall a, keeps_files (k a)) -> keeps_files (bind m k).
Proof.
  intros Hm Hk w. unfold bind. specialize (Hm w).
  destruct (m w) as [[a|e] w1]; simpl in *; [|done].
  by rewrite Hk.
Qed.

Lemma keeps_pure {A} (r : Result A) : keeps_files (pure r).
Proof. by intros w. Qed.

Lemma keeps_stored remotePath data : keeps_files (stored remotePath data).
Proof. by intros w. Qed.

Lemma keeps_wrap_err {A} f (m : M A) : keeps_files m -> keeps_files (wrap_err f m).
Proof.
  intros Hm w. unfold wrap_err. specialize (Hm w).
  by destruct (m w) as [[a|e] w1].
Qed.

Lemma touches_bind {A C} name (m : M A) (k : A -> M C) :
  touches_only name m -> (forall a, touches_only name (k a)) ->
  touches_only name (bind m k).
Proof.
  intros Hm Hk w j Hj. unfold bind. specialize (Hm w j Hj).
  destruct (m w) as [[a|e] w1]; simpl in *; [|done].
  by rewrite Hk.
Qed.

Lemma touches_wrap_err {A} name f (m : M A) :
  touches_only name m -> touches_only name (wrap_err f m).
Proof.
  intros Hm w j Hj. unfold wrap_err. specialize (Hm w j Hj).
  by destruct (m w) as [[a|e] w1].
Qed.

#[export] Hint Resolve keeps_ret keeps_throw keeps_pure keeps_stored keeps_bind
  keeps_wrap_err touches_bind touches_wrap_err : frame.
#[export] Hint Resolve keeps_touches | 5 : frame.

Section Frames.

Context (env : Env).

Lemma keeps_syscall : keeps_files (syscall env).
Proof. intros w. unfold syscall. by destruct (syscall_fault env (clock w)). Qed.

Lemma keeps_os_Open name : keeps_files (os_Open env name).
Proof.
  apply keeps_bind; [apply keeps_syscall|]. intros _ w.
  by destruct (files w !! name).
Qed.

Lemma keeps_file_Read name : keeps_files (file_Read env name).
Proof.
  apply keeps_bind; [apply keeps_syscall|]. intros _ w.
  by destruct (files w !! name).
Qed.

Lemma keeps_os_Stat_Size name : keeps_files (os_Stat_Size env name).
Proof.
  apply keeps_bind; [apply keeps_syscall|]. intros _ w.
  by destruct (files w !! name).
Qed.

Lemma os_Open_ok name w h w' :
  os_Open env name w = (Ok h, w') ->
  h = name /\ files w' = files w /\ trace w' = trace w /\ is_Some (files w !! name).
Proof.
  unfold os_Open, bind, syscall.
  destruct (syscall_fault env (clock w)); [done|].
  change (files (tick w)) with (files w).
  destruct (files w !! name) as [d|] eqn:Hd; [|done].
  intros [= <- <-]. eauto.
Qed.

Lemma file_Read_ok name w d w' :
  file_Read env name w = (Ok d, w') ->
  files w' = files w /\ trace w' = trace w /\ files w !! name = Some d.
Proof.
  unfold file_Read, bind, syscall.
  destruct (syscall_fault env (clock w)); [done|].
  change (files (tick w)) with (files w).
  destruct (files w !! name) as [d'|] eqn:Hd; [|done].
  by intros [= <- <-].
Qed.

Lemma file_Write_ok name data w w' :
  file_Write env name data w = (Ok tt, w') ->
  files w' = <[name := data]> (files w) /\ trace w' = trace w.
Proof.
  unfold file_Write.
  destruct (syscall_fault env (clock w)); [done|].
  by intros [= <-].
Qed.

Lemma keeps_client_Do url t : keeps_files (client_Do env url t).
Proof. intros w. unfold client_Do. by destruct (http_Do env (clock w) url t). Qed.

Lemma touches_file_Write name data : touches_only name (file_Write env name data).
Proof.
  intros w k Hk. unfold file_Write.
  destruct (syscall_fault env (clock w)); simpl; by rewrite lookup_insert_ne.
Qed.

Lemma keeps_ftp c : keeps_files (ftp env c).
Proof. intros w. unfold ftp. by destruct (ftp_reply env (clock w) c). Qed.

Lemma keeps_ftp_MakeDir cwd dir : keeps_files (ftp_MakeDir env cwd dir).
Proof. apply keeps_bind; [apply keeps_ftp|]. by intros _ w. Qed.

Lemma keeps_ftp_Stor remotePath remoteFile data :
  keeps_files (ftp_Stor env remotePath remoteFile data).
Proof.
  intros w. unfold ftp_Stor.
  destruct (ftp_reply env (clock w) _); [|done]. by destruct (ftp_kept env (clock w)).
Qed.

Lemma keeps_ftp_enter_dirs_from dirs : forall cwd,
  keeps_files (ftp_enter_dirs_from env cwd dirs).
Proof.
  induction dirs as [|dir rest IH]; intros cwd; simpl; [apply keeps_ret|].
  destruct (String.eqb dir ""); [done|].
  apply keeps_bind; [|done].
  intros w. pose proof (keeps_ftp (FtpChangeDir dir) w) as H1.
  destruct (ftp env (FtpChangeDir dir) w) as [[|] w1]; [done|]. simpl in *.
  rewrite <- H1. apply keeps_bind; [apply keeps_ftp_MakeDir|]. intros _. apply keeps_ftp.
Qed.

Lemma keeps_ftp_enter_dirs dirs : keeps_files (ftp_enter_dirs env dirs).
Proof. apply keeps_ftp_enter_dirs_from. Qed.

#[local] Hint Resolve keeps_syscall keeps_os_Open keeps_file_Read keeps_os_Stat_Size
  touches_file_Write keeps_ftp keeps_ftp_enter_dirs keeps_ftp_Stor : frame.

Lemma keeps_uploadToFTP filePath remotePath :
  keeps_files (uploadToFTP env filePath remotePath).
Proof. unfold uploadToFTP. eauto 20 with frame. Qed.

(** A successful upload has stored the file under [remotePath]. *)
Lemma uploadToFTP_ok filePath remotePath w w' :
  uploadToFTP env filePath remotePath w = (Ok tt, w') ->
  FtpStor remotePath ∈ trace w' /\ is_Some (remote w' !! remotePath).
Proof.
  unfold uploadToFTP. intros H.
  apply bind_inv in H. destruct H as [(ftpPort & w1 & _ & H)|(? & _ & ?)]; [|done].
  apply bind_inv in H. destruct H as [([] & w2 & _ & H)|(? & _ & ?)]; [|done].
  apply bind_inv in H. destruct H as [([] & w3 & _ & H)|(? & _ & ?)]; [|done].
  apply bind_inv in H. destruct H as [([] & w4 & _ & H)|(? & _ & ?)]; [|done].
  apply bind_inv in H. destruct H as [([] & w5 & _ & H)|(? & _ & ?)]; [|done].
  apply bind_inv in H. destruct H as [(file & w6 & _ & H)|(? & _ & ?)]; [|done].
  apply bind_inv in H. destruct H as [(data & w7 & _ & H)|(? & _ & ?)]; [|done].
  unfold ftp_Stor in H. destruct (ftp_reply env (clock w7) _); [done|].
  injection H as <-. simpl. split.
  - apply elem_of_app. right. by left.
  - rewrite lookup_insert_eq. eauto.
Qed.

Lemma keeps_publish tmp filename wrap : keeps_files (publish env tmp filename wrap).
Proof. unfold publish. eauto 10 using keeps_uploadToFTP with frame. Qed.

End Frames.

#[export] Hint Resolve keeps_syscall keeps_os_Open keeps_file_Read keeps_os_Stat_Size
  keeps_client_Do touches_file_Write keeps_ftp keeps_ftp_enter_dirs keeps_ftp_Stor
  keeps_uploadToFTP keeps_publish : frame.

(** ** Temporary files *)

Lemma append_nonempty_r (s t : string) : t <> "" -> s +:+ t <> "".
Proof. destruct s; simpl; [done | discriminate]. Qed.

Lemma append_assoc (s t u : string) : (s +:+ t) +:+ u = s +:+ (t +:+ u).
Proof.
  induction s as [|c s IH]; [done|].
  change (String c ((s +:+ t) +:+ u) = String c (s +:+ (t +:+ u))). by rewrite IH.
Qed.

Section TempFiles.

Context (env : Env).

(** [os.CreateTemp] either fails and leaves the files alone, or creates one
    empty file whose name did not exist and ends in the pattern's suffix. *)
Lemma createTemp_try_spec tries prefix suffix w r w' :
  createTemp_try env tries prefix suffix w = (r, w') ->
  remote w' = remote w /\ trace w' = trace w /\
  match r with
  | Ok name => files w !! name = None /\ files w' = <[name := []]> (files w) /\
               exists n : N, name = prefix +:+ pretty n +:+ suffix
  | Err _ => files w' = files w
  end.
Proof.
  revert w. induction tries as [|tries IH]; intros w; simpl.
  - intros [= <- <-]. done.
  - destruct (files w !! (prefix +:+ pretty (runtime_rand env (clock w)) +:+ suffix)) eqn:Hlook.
    + intros H. apply IH in H. exact H.
    + destruct (syscall_fault env (clock w)); intros [= <- <-]; simpl; [done|].
      repeat split; eauto.
Qed.

Lemma os_CreateTemp_spec dir prefix suffix w r w' :
  os_CreateTemp env dir prefix suffix w = (r, w') ->
  remote w' = remote w /\ trace w' = trace w /\
  match r with
  | Ok name => files w !! name = None /\ files w' = <[name := []]> (files w) /\
               exists stem : string, name = stem +:+ suffix
  | Err _ => files w' = files w
  end.
Proof.
  unfold os_CreateTemp. intros H. apply createTemp_try_spec in H.
  destruct H as (Hr & Ht & H). repeat split; [done..|].
  destruct r as [name|e]; [|done].
  destruct H as (Hn & Hf & n & ->). repeat split; [done..|].
  eexists (_ +:+ pretty n). by rewrite append_assoc.
Qed.

(** The first stretch of [fetchImage] touches no file; when it succeeds the
    request was answered 200 with a body that decodes to the image. *)
Lemma fetch_decode_spec url w r w' :
  fetch_decode env url w = (r, w') ->
  files w' = files w /\ remote w' = remote w /\
  match r with
  | Ok img => exists body,
      http_Do env (clock w) url (Some 20) = Response 200 body /\
      image_Decode env body = Ok img
  | Err _ => True
  end.
Proof.
  unfold fetch_decode, bind, wrap_err, client_Do, throw.
  destruct (http_Do env (clock w) url (Some 20)) as [msg|status body] eqn:Hhttp.
  { by intros [= <- <-]. }
  destruct (Z.eqb_spec status 200) as [->|Hne]; simpl.
  2:{ by intros [= <- <-]. }
  intros [= <- <-]. repeat split; try done.
  destruct (image_Decode env body) as [img|e] eqn:Hdec; [eauto | done].
Qed.

(** The last stretch of [fetchImage] writes the JPEG of the image into the
    temporary file; when the encoder refuses the image the file is as it was,
    when the write fails the file holds the beginning of the JPEG. *)
Lemma encode_into_spec tmp img w r w' :
  encode_into env tmp img w = (r, w') ->
  remote w' = remote w /\
  match r with
  | Ok name => name = tmp /\ exists data,
      jpeg_Encode env (imaging_Clone env img) 90 = Ok data /\
      files w' = <[tmp := data]> (files w)
  | Err _ =>
      (is_ok (jpeg_Encode env (imaging_Clone env img) 90) = false /\ files w' = files w) \/
      exists data n,
        jpeg_Encode env (imaging_Clone env img) 90 = Ok data /\
        files w' = <[tmp := take n data]> (files w)
  end.
Proof.
  unfold encode_into, bind, pure, ret.
  destruct (jpeg_Encode env (imaging_Clone env img) 90) as [data|e] eqn:Henc.
  2:{ intros [= <- <-]. auto. }
  unfold file_Write.
  destruct (syscall_fault env (clock w)); intros [= <- <-]; simpl.
  - split; [done|]. right. eauto.
  - split; [done|]. split; [done|]. eauto.
Qed.

Lemma fetchImage_ok url w name w' :
  fetchImage env url w = (Ok name, w') ->
  fetched env url name w w' /\ remote w' = remote w.
Proof.
  unfold fetchImage, fetch_decode, encode_into, bind, wrap_err, client_Do, throw, ret, pure.
  destruct (http_Do env (clock w) url (Some 20)) as [msg|status body] eqn:Hhttp; [done|].
  destruct (Z.eqb_spec status 200) as [->|Hne]; simpl; [|done].
  destruct (image_Decode env body) as [img|e] eqn:Hdec; [|done].
  destruct (os_CreateTemp env "" "slide-" ".jpg" _) as [[tmp|e] w2] eqn:Hct; [|done].
  apply os_CreateTemp_spec in Hct. destruct Hct as (Hr & _ & Hnone & Hf & stem & Hstem).
  destruct (jpeg_Encode env (imaging_Clone env img) 90) as [data|e] eqn:Henc; [|done].
  unfold file_Write.
  destruct (syscall_fault env (clock w2)); [done|].
  intros [= <- <-]. simpl in *. split; [|done].
  split; [subst tmp; by apply append_nonempty_r|].
  split; [done|]. exists body, img, data. repeat split; [done..|].
  simpl. rewrite Hf. by rewrite insert_insert_eq.
Qed.

(** A failed [fetchImage] has either left the files alone or left behind one
    new file (created before the encoder or the write failed): empty, or with
    the beginning of the JPEG. *)
Lemma fetchImage_err url w e w' :
  fetchImage env url w = (Err e, w') ->
  remote w' = remote w /\
  (files w' = files w \/
   exists name v, files w !! name = None /\ files w' = <[name := v]> (files w) /\
                  partial_jpeg env url v).
Proof.
  unfold fetchImage, fetch_decode, encode_into, bind, wrap_err, client_Do, throw, ret, pure.
  destruct (http_Do env (clock w) url (Some 20)) as [msg|status body] eqn:Hhttp.
  { intros [= <- <-]. simpl. auto. }
  destruct (Z.eqb_spec status 200) as [->|Hne]; simpl.
  2:{ intros [= <- <-]. simpl. auto. }
  destruct (image_Decode env body) as [img|e0] eqn:Hdec.
  2:{ intros [= <- <-]. simpl. auto. }
  destruct (os_CreateTemp env "" "slide-" ".jpg" _) as [[tmp|e1] w2] eqn:Hct;
    apply os_CreateTemp_spec in Hct; simpl in Hct.
  2:{ destruct Hct as (Hr & _ & Hf). intros [= <- <-]. auto. }
  destruct Hct as (Hr & _ & Hnone & Hf & _).
  destruct (jpeg_Encode env (imaging_Clone env img) 90) as [data|e2] eqn:Henc.
  2:{ intros [= <- <-]. split; [done|]. right. exists tmp, []. by repeat split; [..|left]. }
  unfold file_Write.
  destruct (syscall_fault env (clock w2)); [|done].
  intros [= <- <-]. simpl. split; [done|]. right.
  exists tmp, (take (write_done env (clock w2)) data). split; [done|].
  split; [by rewrite Hf, insert_insert_eq|].
  right. exists img, data, (write_done env (clock w2)). split; [|done].
  by exists (clock w), body.
Qed.

(** The requests of one [Do] are for its URL, five at most, and one at
    least when a response has come. *)
Lemma client_sends_le t url timeout_s :
  (client_sends env t url timeout_s <= DefaultMaxIdemponentCallAttempts)%nat.
Proof.
  unfold client_sends, DefaultMaxIdemponentCallAttempts.
  destruct (http_Do env t url timeout_s); lia.
Qed.

Lemma client_sends_ge t url timeout_s status body :
  http_Do env t url timeout_s = Response status body ->
  (1 <= client_sends env t url timeout_s)%nat.
Proof. unfold client_sends. intros ->. lia. Qed.

(** What [fetch_decode] logs: the requests of its one [DoTimeout] and, when
    the answer was a 200, the decoding. *)
Lemma fetch_decode_trace url w :
  let sent := replicate (client_sends env (clock w) url (Some 20)) (HttpGet url (Some 20)) in
  trace (snd (fetch_decode env url w)) = trace w ++ sent \/
  trace (snd (fetch_decode env url w)) = trace w ++ sent ++ [ImageDecode].
Proof.
  unfold fetch_decode, bind, wrap_err, client_Do, throw.
  destruct (http_Do env (clock w) url (Some 20)) as [msg|status body]; [by left|].
  destruct (negb (Z.eqb status 200)); [by left|].
  right. simpl. by rewrite <- app_assoc.
Qed.

(** The rest of [fetchImage] logs nothing. *)
Lemma fetchImage_trace url w :
  trace (snd (fetchImage env url w)) = trace (snd (fetch_decode env url w)).
Proof.
  unfold fetchImage, bind.
  destruct (fetch_decode env url w) as [[img|e] w1]; [|done]. simpl.
  destruct (os_CreateTemp env "" "slide-" ".jpg" w1) as [[tmp|e1] w2] eqn:Hct;
    apply os_CreateTemp_spec in Hct; destruct Hct as (_ & Ht & _); [|done].
  rewrite <- Ht. unfold encode_into, bind, pure, ret.
  destruct (jpeg_Encode env (imaging_Clone env img) 90) as [data|e2]; [|done].
  unfold file_Write. by destruct (syscall_fault env (clock w2)).
Qed.

End TempFiles.

(** ** The goroutine pool *)

Section PoolInvariant.

Context (env : Env) (urls : list string) (maxConcurrency : Z) (w0 : World).

Lemma pool_inv_init : pool_inv env urls w0 (init_pool (length urls)) w0.
Proof.
  split; simpl; try by rewrite length_replicate.
  - intros i Hi _. split; by apply lookup_replicate.
  - intros i [? _]%lookup_replicate. discriminate.
  - intros i t img [-> _]%lookup_replicate. discriminate.
  - intros i t tmp [-> _]%lookup_replicate. discriminate.
  - intros i j t t' tmp _ [-> _]%lookup_replicate. discriminate.
  - intros i j t tmp [-> _]%lookup_replicate. discriminate.
  - intros i name [-> _]%lookup_replicate. done.
  - intros i j name _ [-> _]%lookup_replicate. done.
  - done.
  - done.
  - intros k [v Hv] H0. congruence.
  - intros k v Hv H0. congruence.
Qed.

Lemma produced_frame url name w w' :
  files w' !! name = files w !! name ->
  produced env w0 url name w -> produced env w0 url name w'.
Proof.
  intros Hf (Hne & H0 & t & body & img & data & H1 & H2 & H3 & H4).
  split; [done|]. split; [done|]. exists t, body, img, data. repeat split; try done.
  congruence.
Qed.

(** Splitting on whether an index is the one just updated. *)
Ltac at_index j i :=
  destruct (decide (j = i)) as [->|?];
  [ rewrite ?list_lookup_insert_eq in * by lia
  | rewrite ?list_lookup_insert_ne in * by done ].

(** A goroutine goes on without touching a file. *)
Lemma pool_inv_move i p w w' t t' sem :
  pool_inv env urls w0 p w ->
  tasks p !! i = Some t -> t <> Finished -> held t = None ->
  t' <> Finished -> held t' = None ->
  (forall img, image_of t' = Some img -> exists url, urls !! i = Some url /\ served env url img) ->
  files w' = files w -> remote w' = remote w ->
  pool_inv env urls w0
    {| sem_cur := sem; tasks := <[i := t']> (tasks p);
       results := results p; errors := errors p |} w'.
Proof.
  intros [] Ht Hnf Hheld Hnf' Hheld' Himg Hfiles Hremote.
  assert (Hlt : (i < length (tasks p))%nat) by (by eapply lookup_lt_Some).
  split; simpl; rewrite ?length_insert, ?Hfiles; try done.
  - intros j Hj Hjt. apply inv_pending0; [done|]. at_index j i; congruence.
  - intros j Hjt. apply inv_done0. at_index j i; congruence.
  - intros j tj img Hjt Hi. at_index j i; [|eauto].
    injection Hjt as <-. eauto.
  - intros j tj tmp Hjt Hh. at_index j i; [congruence|]. eauto.
  - intros j1 j2 t1 t2 tmp Hne H1 H2 Hh1. at_index j1 i; [congruence|].
    at_index j2 i; [congruence|]. eauto.
  - intros j1 j2 tj tmp H1 Hh. at_index j1 i; [congruence|]. eauto.
  - intros j name Hj Hname. destruct (inv_slot0 j name Hj Hname) as (He & url & Hu & Hp).
    split; [done|]. exists url. split; [done|]. eapply produced_frame; [|done]. by rewrite Hfiles.
  - congruence.
  - intros k v Hv H0 Hres Hnh. apply (inv_new0 k v Hv H0 Hres).
    intros j tj Hjt. destruct (decide (j = i)) as [->|Hji]; [congruence|].
    apply (Hnh j). by rewrite list_lookup_insert_ne.
Qed.

(** A goroutine fails: [fetchImage] returned an error.  The file it had
    created, if any, stays, empty or with the beginning of the JPEG. *)
Lemma pool_inv_finish_err i p w w' t err url :
  pool_inv env urls w0 p w ->
  tasks p !! i = Some t -> t <> Finished -> urls !! i = Some url ->
  (forall k, held t <> Some k -> files w' !! k = files w !! k) ->
  (forall k, held t = Some k ->
     exists v, files w' !! k = Some v /\ partial_jpeg env url v) ->
  remote w' = remote w ->
  pool_inv env urls w0 (finish_err p i err) w'.
Proof.
  intros [] Ht Hnf Hu Hkeep Hleft Hremote.
  assert (Hlt : (i < length (tasks p))%nat) by (by eapply lookup_lt_Some).
  destruct (inv_pending0 i) as [Hri Hei]; [lia | congruence |].
  assert (Hmine : forall k, held t = Some k ->
            k <> "" /\ files w0 !! k = None /\ files w !! k = Some []).
  { intros k Hk. by apply (inv_held0 i t k). }
  split; simpl; rewrite ?length_insert; try done.
  - intros j Hj Hjt. at_index j i; [done|]. by apply inv_pending0.
  - intros j Hjt Hje. at_index j i; [done|]. by apply inv_done0.
  - intros j tj img Hjt Hi. at_index j i; [by injection Hjt as <-|]. eauto.
  - intros j tj tmp Hjt Hh. at_index j i; [by injection Hjt as <-|].
    destruct (inv_held0 j tj tmp Hjt Hh) as (? & ? & ?). repeat split; try done.
    rewrite Hkeep; [done|]. intros Hk. by apply (inv_held_distinct0 i j t tj tmp).
  - intros j1 j2 t1 t2 tmp Hne H1 H2 Hh1. at_index j1 i; [by injection H1 as <-|].
    at_index j2 i; [by injection H2 as <-|]. eauto.
  - intros j1 j2 tj tmp H1 Hh. at_index j1 i; [by injection H1 as <-|]. eauto.
  - intros j name Hj Hname.
    assert (j <> i) by (intros ->; congruence).
    rewrite list_lookup_insert_ne by done.
    destruct (inv_slot0 j name Hj Hname) as (He & url' & Hu' & Hp).
    split; [done|]. exists url'. split; [done|]. eapply produced_frame; [|done].
    apply Hkeep. intros Hk. by apply (inv_held_slot0 i j t name).
  - intros k v Hk. rewrite Hkeep; [eauto|]. intros Hh.
    destruct (Hmine k Hh) as (_ & ? & _). congruence.
  - congruence.
  - intros k Hk Hk0. destruct (decide (held t = Some k)) as [Hh|Hh].
    + by destruct (Hmine k Hh).
    + rewrite Hkeep in Hk by done. by apply inv_nonempty0.
  - intros k v Hv H0 Hres Hnh.
    destruct (decide (held t = Some k)) as [Hk|Hk].
    + destruct (Hleft k Hk) as (v' & Hv' & Hp). exists i, err, url.
      rewrite list_lookup_insert_eq by lia. split; [done|]. split; [done|]. congruence.
    + rewrite Hkeep in Hv by done.
      destruct (inv_new0 k v Hv H0 Hres) as (j & e & u & He & Hju & Hp).
      { intros j tj Hjt. destruct (decide (j = i)) as [->|Hji]; [congruence|].
        apply (Hnh j). by rewrite list_lookup_insert_ne. }
      exists j, e, u. split; [|done].
      rewrite list_lookup_insert_ne; [done|]. intros ->. congruence.
Qed.

(** A goroutine has created its temporary file. *)
Lemma pool_inv_create i p w w' img tmp :
  pool_inv env urls w0 p w ->
  tasks p !! i = Some (Decoded img) ->
  tmp <> "" -> files w !! tmp = None ->
  files w' = <[tmp := []]> (files w) -> remote w' = remote w ->
  pool_inv env urls w0 (move p i (Created img tmp)) w'.
Proof.
  intros [] Ht Htmp Hnone Hfiles Hremote.
  assert (Hlt : (i < length (tasks p))%nat) by (by eapply lookup_lt_Some).
  assert (Hkeep : forall k, k <> tmp -> files w' !! k = files w !! k).
  { intros k Hk. by rewrite Hfiles, lookup_insert_ne. }
  assert (Hsome : forall k v, files w !! k = Some v -> files w' !! k = Some v).
  { intros k v Hk. rewrite Hkeep; [done | congruence]. }
  assert (H0 : files w0 !! tmp = None).
  { destruct (files w0 !! tmp) eqn:E; [|done]. apply inv_old0 in E. congruence. }
  split; simpl; rewrite ?length_insert; try done.
  - intros j Hj Hjt. apply inv_pending0; [done|]. at_index j i; congruence.
  - intros j Hjt. apply inv_done0. at_index j i; congruence.
  - intros j tj img' Hjt Hi. at_index j i; [|eauto].
    injection Hjt as <-. injection Hi as <-. by apply (inv_image0 i (Decoded img)).
  - intros j tj tmp' Hjt Hh. at_index j i.
    + injection Hjt as <-. injection Hh as <-. by rewrite Hfiles, lookup_insert_eq.
    + destruct (inv_held0 j tj tmp' Hjt Hh) as (? & ? & ?). eauto.
  - intros j1 j2 t1 t2 tmp' Hne H1 H2 Hh1 Hh2.
    at_index j1 i; at_index j2 i; try done.
    + injection H1 as <-. injection Hh1 as <-.
      destruct (inv_held0 j2 t2 tmp H2 Hh2) as (_ & _ & ?). congruence.
    + injection H2 as <-. injection Hh2 as <-.
      destruct (inv_held0 j1 t1 tmp H1 Hh1) as (_ & _ & ?). congruence.
    + by apply (inv_held_distinct0 j1 j2 t1 t2 tmp').
  - intros j1 j2 tj tmp' H1 Hh Hres. at_index j1 i.
    + injection H1 as <-. injection Hh as <-.
      destruct (inv_slot0 j2 tmp Hres Htmp) as (_ & url & _ & _ & _ & t & b & im & d & _ & _ & _ & Hd).
      congruence.
    + by apply (inv_held_slot0 j1 j2 tj tmp').
  - intros j name Hj Hname. destruct (inv_slot0 j name Hj Hname) as (He & url & Hu & Hp).
    split; [done|]. exists url. split; [done|]. eapply produced_frame; [|done].
    apply Hkeep. intros ->. destruct Hp as (_ & _ & t & b & im & d & _ & _ & _ & Hd). congruence.
  - eauto.
  - congruence.
  - intros k Hk Hk0. destruct (decide (k = tmp)) as [->|Hkt]; [done|].
    rewrite Hkeep in Hk by done. by apply inv_nonempty0.
  - intros k v Hv Hk0 Hres Hnh. destruct (decide (k = tmp)) as [->|Hkt].
    + exfalso. apply (Hnh i (Created img tmp)); [|done].
      rewrite list_lookup_insert_eq; [done | lia].
    + rewrite Hkeep in Hv by done. apply (inv_new0 k v Hv Hk0 Hres).
      intros j tj Hjt. destruct (decide (j = i)) as [->|Hji].
      * intros Hh. rewrite Ht in Hjt. by injection Hjt as <-.
      * apply (Hnh j). by rewrite list_lookup_insert_ne.
Qed.

(** A goroutine has written its JPEG and its result slot. *)
Lemma pool_inv_finish_ok i p w w' img tmp data :
  pool_inv env urls w0 p w ->
  tasks p !! i = Some (Created img tmp) ->
  jpeg_Encode env (imaging_Clone env img) 90 = Ok data ->
  files w' = <[tmp := data]> (files w) -> remote w' = remote w ->
  pool_inv env urls w0 (finish_ok p i tmp) w'.
Proof.
  intros [] Ht Henc Hfiles Hremote.
  assert (Hlt : (i < length (tasks p))%nat) by (by eapply lookup_lt_Some).
  destruct (inv_pending0 i) as [Hri Hei]; [lia | congruence |].
  destruct (inv_held0 i _ tmp Ht eq_refl) as (Htmp & H0 & Hempty).
  assert (Hkeep : forall k, k <> tmp -> files w' !! k = files w !! k).
  { intros k Hk. by rewrite Hfiles, lookup_insert_ne. }
  split; simpl; rewrite ?length_insert; try done.
  - intros j Hj Hjt. at_index j i; [done|]. by apply inv_pending0.
  - intros j Hjt Hje. at_index j i; [eauto|]. by apply inv_done0.
  - intros j tj img' Hjt Hi. at_index j i; [by injection Hjt as <-|]. eauto.
  - intros j tj tmp' Hjt Hh. at_index j i; [by injection Hjt as <-|].
    destruct (inv_held0 j tj tmp' Hjt Hh) as (? & ? & ?). repeat split; try done.
    rewrite Hkeep; [done|]. intros ->.
    by apply (inv_held_distinct0 j i tj (Created img tmp) tmp).
  - intros j1 j2 t1 t2 tmp' Hne H1 H2 Hh1. at_index j1 i; [by injection H1 as <-|].
    at_index j2 i; [by injection H2 as <-|]. eauto.
  - intros j1 j2 tj tmp' H1 Hh Hres. at_index j1 i; [by injection H1 as <-|].
    at_index j2 i.
    + injection Hres as <-. by apply (inv_held_distinct0 j1 i tj (Created img tmp) tmp).
    + by apply (inv_held_slot0 j1 j2 tj tmp').
  - intros j name Hj Hname. at_index j i.
    + injection Hj as <-. split; [done|].
      destruct (inv_image0 i _ img Ht eq_refl) as (url & Hu & t & body & Hhttp & Hdec).
      exists url. split; [done|]. split; [done|]. split; [done|].
      exists t, body, img, data. repeat split; try done.
      by rewrite Hfiles, lookup_insert_eq.
    + destruct (inv_slot0 j name Hj Hname) as (He & url & Hu & Hp).
      split; [done|]. exists url. split; [done|]. eapply produced_frame; [|done].
      apply Hkeep. intros ->. by apply (inv_held_slot0 i j (Created img tmp) tmp).
  - intros j1 j2 name Hne H1 H2.
    destruct (decide (name = "")) as [|Hname]; [done|]. exfalso.
    at_index j1 i; at_index j2 i; try done.
    + injection H1 as <-. by apply (inv_held_slot0 i j2 (Created img tmp) tmp).
    + injection H2 as <-. by apply (inv_held_slot0 i j1 (Created img tmp) tmp).
    + apply Hname. exact (inv_distinct0 j1 j2 name Hne H1 H2).
  - intros k v Hk. rewrite Hkeep; [eauto | congruence].
  - congruence.
  - intros k Hk Hk0. destruct (decide (k = tmp)) as [->|Hkt]; [done|].
    rewrite Hkeep in Hk by done. by apply inv_nonempty0.
  - intros k v Hv Hk0 Hres Hnh. destruct (decide (k = tmp)) as [->|Hkt].
    + exfalso. apply (Hres i). rewrite list_lookup_insert_eq; [done | lia].
    + rewrite Hkeep in Hv by done.
      assert (Hkne : k <> "") by (apply inv_nonempty0; [by rewrite Hv | done]).
      apply (inv_new0 k v Hv Hk0).
      * intros j. destruct (decide (j = i)) as [->|Hji]; [congruence|].
        specialize (Hres j). by rewrite list_lookup_insert_ne in Hres.
      * intros j tj Hjt. destruct (decide (j = i)) as [->|Hji].
        -- rewrite Ht in Hjt. injection Hjt as <-. simpl. congruence.
        -- apply (Hnh j). by rewrite list_lookup_insert_ne.
Qed.

Lemma pool_step_inv i p w p' w' :
  pool_inv env urls w0 p w ->
  pool_step env urls maxConcurrency i (p, w) = (p', w') ->
  pool_inv env urls w0 p' w'.
Proof.
  intros Hinv. unfold pool_step.
  destruct (tasks p !! i) as [[| |img|img tmp|]|] eqn:Ht;
    destruct (urls !! i) as [url|] eqn:Hu; try (by intros [= <- <-]).
  - (* sem.Acquire *)
    destruct (Z.leb 1 (maxConcurrency - sem_cur p)); intros [= <- <-]; [|done].
    by eapply pool_inv_move.
  - (* the request and the decoding *)
    destruct (fetch_decode env url w) as [[img|err] w1] eqn:Hf; intros [= <- <-];
      apply fetch_decode_spec in Hf; destruct Hf as (Hfiles & Hremote & Hf).
    + destruct Hf as (body & Hhttp & Hdec). unfold move.
      eapply pool_inv_move; try done.
      intros img' [= <-]. exists url. split; [done|]. by exists (clock w), body.
    + eapply pool_inv_finish_err; try done. intros k _. by rewrite Hfiles.
  - (* os.CreateTemp *)
    destruct (os_CreateTemp env "" "slide-" ".jpg" w) as [[tmp|err] w1] eqn:Hc;
      intros [= <- <-]; apply os_CreateTemp_spec in Hc; destruct Hc as (Hremote & _ & Hc).
    + destruct Hc as (Hnone & Hfiles & stem & ->).
      eapply pool_inv_create; try done. by apply append_nonempty_r.
    + eapply pool_inv_finish_err; try done. intros k _. by rewrite Hc.
  - (* jpeg.Encode into the file *)
    destruct (encode_into env tmp img w) as [[name|err] w1] eqn:He; intros [= <- <-];
      apply encode_into_spec in He; destruct He as (Hremote & He).
    + destruct He as (-> & data & Henc & Hfiles). by eapply pool_inv_finish_ok.
    + destruct (inv_held _ _ _ _ _ Hinv i _ tmp Ht eq_refl) as (_ & _ & Hempty).
      destruct (inv_image _ _ _ _ _ Hinv i _ img Ht eq_refl) as (url' & Hu' & Hserved).
      assert (url' = url) as -> by congruence.
      eapply pool_inv_finish_err; try done.
      * intros k Hk. simpl in Hk.
        destruct He as [[_ ->]|(data & n & _ & ->)]; [done|].
        rewrite lookup_insert_ne; [done | congruence].
      * intros k [= <-].
        destruct He as [[_ ->]|(data & n & Henc & ->)].
        -- exists []. split; [done | by left].
        -- exists (take n data). split; [by rewrite lookup_insert_eq|].
           right. by exists img, data, n.
Qed.

Lemma run_schedule_cons i sched s :
  run_schedule env urls maxConcurrency (i :: sched) s =
  run_schedule env urls maxConcurrency sched (pool_step env urls maxConcurrency i s).
Proof. reflexivity. Qed.

Lemma run_schedule_app sched1 sched2 s :
  run_schedule env urls maxConcurrency (sched1 ++ sched2) s =
  run_schedule env urls maxConcurrency sched2
    (run_schedule env urls maxConcurrency sched1 s).
Proof. apply foldl_app. Qed.

Lemma run_schedule_inv sched p w p' w' :
  pool_inv env urls w0 p w ->
  run_schedule env urls maxConcurrency sched (p, w) = (p', w') ->
  pool_inv env urls w0 p' w'.
Proof.
  revert p w. induction sched as [|i sched IH]; intros p w Hinv.
  - by intros [= <- <-].
  - rewrite run_schedule_cons.
    destruct (pool_step env urls maxConcurrency i (p, w)) as [p1 w1] eqn:Hstep.
    apply IH. by eapply pool_step_inv.
Qed.

End PoolInvariant.

(** ** The fetch stage as a whole *)

Lemma first_error_None (errs : list (option error)) :
  first_error errs = None <-> forall i e, errs !! i <> Some (Some e).
Proof.
  unfold first_error. induction errs as [|[e|] errs IH]; simpl.
  - split; [intros _ i e; by rewrite lookup_nil | done].
  - split; [done|]. intros H. by destruct (H 0%nat e).
  - rewrite IH. split.
    + intros H [|i] e; [done|]. apply H.
    + intros H i e. apply (H (S i) e).
Qed.

Lemma forallb_is_finished (ts : list TaskState) :
  forallb is_finished ts = true <-> forall i, (i < length ts)%nat -> ts !! i = Some Finished.
Proof.
  induction ts as [|t ts IH]; simpl.
  - split; [intros _ i Hi; lia | done].
  - rewrite andb_true_iff, IH. split.
    + intros [Ht H] [|i] Hi; [by destruct t | apply H; lia].
    + intros H. split.
      * specialize (H 0%nat ltac:(lia)). by injection H as ->.
      * intros i Hi. apply (H (S i)). lia.
Qed.

Section FetchStage.

Context (env : Env).

(** A goroutine that holds the semaphore moves at every step, towards its
    end, and gives the semaphore back when it finishes. *)
Lemma pool_step_running urls maxConcurrency k p w st url :
  tasks p !! k = Some st -> urls !! k = Some url -> st <> Waiting ->
  exists t1,
    tasks (fst (pool_step env urls maxConcurrency k (p, w))) = <[k := t1]> (tasks p) /\
    t1 <> Waiting /\
    (steps_left t1 <= steps_left st - 1)%nat /\
    sem_cur (fst (pool_step env urls maxConcurrency k (p, w)))
    = if is_finished t1 && negb (is_finished st) then sem_cur p - 1 else sem_cur p.
Proof.
  intros Ht Hu Hst. unfold pool_step. rewrite Ht, Hu.
  destruct st as [| |img|img tmp|]; [done|..].
  - destruct (fetch_decode env url w) as [[img|err] w1].
    + exists (Decoded img). simpl. repeat split; (done || lia).
    + exists Finished. simpl. repeat split; (done || lia).
  - destruct (os_CreateTemp env "" "slide-" ".jpg" w) as [[tmp|err] w1].
    + exists (Created img tmp). simpl. repeat split; (done || lia).
    + exists Finished. simpl. repeat split; (done || lia).
  - destruct (encode_into env tmp img w) as [[name|err] w1];
      exists Finished; simpl; repeat split; (done || lia).
  - exists Finished. simpl. rewrite list_insert_id by done. repeat split; (done || lia).
Qed.

Lemma run_to_end urls maxConcurrency k url n : forall st p w,
  urls !! k = Some url ->
  tasks p !! k = Some st -> st <> Waiting -> (steps_left st <= n)%nat ->
  tasks (fst (run_schedule env urls maxConcurrency (replicate n k) (p, w)))
    = <[k := Finished]> (tasks p) /\
  sem_cur (fst (run_schedule env urls maxConcurrency (replicate n k) (p, w)))
    = if is_finished st then sem_cur p else sem_cur p - 1.
Proof.
  induction n as [|n IH]; intros st p w Hu Ht Hst Hn.
  - destruct st; simpl in Hn; try lia. simpl. by rewrite list_insert_id.
  - change (replicate (S n) k) with (k :: replicate n k). rewrite run_schedule_cons.
    destruct (pool_step_running urls maxConcurrency k p w st url Ht Hu Hst)
      as (t1 & Htasks & Ht1 & Hleft & Hsem).
    destruct (pool_step env urls maxConcurrency k (p, w)) as [p1 w1]. simpl in *.
    assert (Hk : (k < length (tasks p))%nat) by (by eapply lookup_lt_Some).
    destruct (IH t1 p1 w1 Hu) as [Htasks' Hsem']; [|done|lia|].
    { rewrite Htasks. by apply list_lookup_insert_eq. }
    rewrite Htasks', Hsem', Htasks, Hsem, list_insert_insert_eq. split; [done|].
    destruct st, t1; simpl in *; lia.
Qed.

(** With room for at least one goroutine in the semaphore, [one_by_one]
    finishes every goroutine. *)
Lemma one_by_one_completes urls maxConcurrency m : forall k p w,
  1 <= maxConcurrency ->
  sem_cur p = 0 ->
  length (tasks p) = length urls ->
  (k + m = length urls)%nat ->
  (forall i, (i < k)%nat -> tasks p !! i = Some Finished) ->
  (forall i, (k <= i < length urls)%nat -> tasks p !! i = Some Waiting) ->
  forall i, (i < length urls)%nat ->
    tasks (fst (run_schedule env urls maxConcurrency (one_by_one k m) (p, w))) !! i
    = Some Finished.
Proof.
  induction m as [|m IH]; intros k p w Hmax Hsem Hlen Hkm Hdone Hwait i Hi.
  - simpl. apply Hdone. lia.
  - unfold one_by_one. simpl seq. simpl flat_map.
    change (k :: k :: k :: k :: flat_map (fun i => [i; i; i; i]) (seq (S k) m))
      with ([k] ++ replicate 3 k ++ one_by_one (S k) m).
    rewrite !run_schedule_app.
    assert (Hk : (k < length urls)%nat) by lia.
    destruct (lookup_lt_is_Some_2 urls k Hk) as [url Hurl].
    assert (Hstep1 : run_schedule env urls maxConcurrency [k] (p, w) =
      ({| sem_cur := sem_cur p + 1; tasks := <[k := Acquired]> (tasks p);
          results := results p; errors := errors p |}, w)).
    { unfold run_schedule, pool_step. simpl. rewrite (Hwait k), Hurl by lia. rewrite Hsem.
      destruct (Z.leb_spec 1 (maxConcurrency - 0)); [done | lia]. }
    rewrite Hstep1.
    set (p1 := {| sem_cur := sem_cur p + 1; tasks := <[k := Acquired]> (tasks p);
                  results := results p; errors := errors p |}).
    assert (Hrun : tasks p1 !! k = Some Acquired).
    { simpl. rewrite list_lookup_insert_eq; [done | lia]. }
    destruct (run_to_end urls maxConcurrency k url 3 Acquired p1 w Hurl Hrun)
      as [Htasks2 Hsem2]; [done | simpl; lia |].
    destruct (run_schedule env urls maxConcurrency (replicate 3 k) (p1, w)) as [p2 w2].
    simpl in Htasks2, Hsem2. rewrite list_insert_insert_eq in Htasks2.
    apply IH; try done.
    + lia.
    + rewrite Htasks2, length_insert. done.
    + lia.
    + intros j Hj. rewrite Htasks2. destruct (decide (j = k)) as [->|Hne].
      * rewrite list_lookup_insert_eq; [done | lia].
      * rewrite list_lookup_insert_ne by done. apply Hdone. lia.
    + intros j Hj. rewrite Htasks2, list_lookup_insert_ne by lia. apply Hwait. lia.
Qed.

(** X1.  [fetchImagesConcurrently] returns: some schedule lets [wg.Wait()]
    pass, whatever the network and the disk do. *)
Lemma fetchImagesConcurrently_returns urls maxConcurrency w :
  1 <= maxConcurrency ->
  exists r w',
    fetchImagesConcurrently env urls maxConcurrency (one_by_one 0 (length urls)) w
    = Some (r, w').
Proof.
  intros Hmax. unfold fetchImagesConcurrently.
  pose proof (one_by_one_completes urls maxConcurrency (length urls) 0
                (init_pool (length urls)) w Hmax eq_refl) as H.
  destruct (run_schedule env urls maxConcurrency _ _) as [p w1] eqn:Hrun.
  pose proof (run_schedule_inv env urls maxConcurrency w _ _ _ _ _
                (pool_inv_init env urls w) Hrun) as Hinv.
  simpl in H.
  assert (Hfin : forallb is_finished (tasks p) = true).
  { apply forallb_is_finished. intros i Hi. apply H.
    - by rewrite length_replicate.
    - done.
    - intros j Hj. lia.
    - intros j Hj. apply lookup_replicate. split; [done | lia].
    - by rewrite <- (inv_tasks _ _ _ _ _ Hinv). }
  rewrite Hfin. destruct (collect_results p w1) as [r w']. eauto.
Qed.

End FetchStage.

Lemma os_Remove_lookup path w k :
  files (snd (os_Remove path w)) !! k
  = if decide (k = path) then None else files w !! k.
Proof.
  unfold os_Remove. destruct (files w !! path) eqn:Hp; simpl.
  - destruct (decide (k = path)) as [->|Hk];
      [apply lookup_delete_eq | by apply lookup_delete_ne].
  - destruct (decide (k = path)) as [->|Hk]; done.
Qed.

Lemma remove_results_lookup rs : forall w k,
  files (snd (remove_results rs w)) !! k
  = if decide (k ∈ rs /\ k <> "") then None else files w !! k.
Proof.
  induction rs as [|file rs IH]; intros w k.
  - destruct (decide (k ∈ [] /\ k <> "")) as [[H _]|H]; [by apply elem_of_nil in H | done].
  - change (remove_results (file :: rs) w)
      with (bind (if String.eqb file "" then ret tt else ignore (os_Remove file))
                 (fun _ => remove_results rs) w).
    unfold bind. destruct (String.eqb_spec file "") as [->|Hfile].
    + simpl. rewrite IH.
      destruct (decide (k ∈ rs /\ k <> "")) as [[H1 H2]|H1];
        destruct (decide (k ∈ "" :: rs /\ k <> "")) as [[H3 H4]|H3]; try done; exfalso.
      * apply H3. split; [by right | done].
      * apply H1. split; [|done]. apply elem_of_cons in H3 as [|]; done.
    + unfold ignore. rewrite IH, os_Remove_lookup.
      destruct (decide (k ∈ rs /\ k <> "")) as [[H1 H2]|H1];
        destruct (decide (k ∈ file :: rs /\ k <> "")) as [[H3 H4]|H3]; try done.
      * exfalso. apply H3. split; [by right | done].
      * destruct (decide (k = file)) as [->|Hk]; [done|]. exfalso.
        apply H1. split; [|done]. apply elem_of_cons in H3 as [|]; done.
      * destruct (decide (k = file)) as [->|Hk]; [|done]. exfalso.
        apply H3. split; [by left | done].
Qed.

Section FetchResults.

Context (env : Env).

Lemma fetchImagesConcurrently_inv urls maxConcurrency sched w r w' :
  fetchImagesConcurrently env urls maxConcurrency sched w = Some (r, w') ->
  exists p w1,
    pool_inv env urls w p w1 /\
    (forall i, (i < length urls)%nat -> tasks p !! i = Some Finished) /\
    collect_results p w1 = (r, w').
Proof.
  unfold fetchImagesConcurrently.
  destruct (run_schedule env urls maxConcurrency sched _) as [p w1] eqn:Hrun.
  pose proof (run_schedule_inv env urls maxConcurrency w _ _ _ _ _
                (pool_inv_init env urls w) Hrun) as Hinv.
  destruct (forallb is_finished (tasks p)) eqn:Hfin; [|done].
  intros [= Hc]. exists p, w1. split; [done|]. split; [|done].
  intros i Hi. apply forallb_is_finished; [done|].
  by rewrite (inv_tasks _ _ _ _ _ Hinv).
Qed.

(** What a successful fetch stage leaves behind: one file per URL, in the
    URL's own slot, all different, all new; nothing else has changed. *)
Lemma fetch_ok_summary urls maxConcurrency sched w paths w1 :
  fetchImagesConcurrently env urls maxConcurrency sched w = Some (Ok paths, w1) ->
  length paths = length urls /\
  (forall i url, urls !! i = Some url ->
     exists path, paths !! i = Some path /\ produced env w url path w1) /\
  NoDup paths /\
  (forall k, k ∈ paths -> k <> "" /\ files w !! k = None /\ is_Some (files w1 !! k)) /\
  (forall k, k ∉ paths -> files w1 !! k = files w !! k) /\
  remote w1 = remote w.
Proof.
  intros H. apply fetchImagesConcurrently_inv in H.
  destruct H as (p & w' & Hinv & Hfin & Hc).
  unfold collect_results in Hc.
  destruct (first_error (errors p)) as [err|] eqn:Herr.
  { unfold bind, throw in Hc. by destruct (remove_results (results p) w') as [[|] ?]. }
  injection Hc as <- <-.
  pose proof (proj1 (first_error_None _) Herr) as Hnoerr. clear Herr.
  rename Hnoerr into Herr.
  assert (Hslot : forall i, (i < length urls)%nat ->
            exists name, results p !! i = Some name /\ name <> "").
  { intros i Hi. apply (inv_done _ _ _ _ _ Hinv); [by apply Hfin|].
    destruct (lookup_lt_is_Some_2 (errors p) i) as [[e|] He]; [|by destruct (Herr i e)|done].
    by rewrite (inv_errors _ _ _ _ _ Hinv). }
  assert (Hmem : forall k, k ∈ results p ->
            k <> "" /\ files w !! k = None /\ is_Some (files w' !! k)).
  { intros k (i & Hi)%list_elem_of_lookup.
    assert (Hlt : (i < length urls)%nat).
    { rewrite <- (inv_results _ _ _ _ _ Hinv). by eapply lookup_lt_Some. }
    destruct (Hslot i Hlt) as (name & Hname & Hne).
    assert (name = k) as -> by congruence.
    destruct (inv_slot _ _ _ _ _ Hinv i k Hi Hne)
      as (_ & url & _ & _ & H0 & t & b & im & d & _ & _ & _ & Hd).
    repeat split; [done..|]. by rewrite Hd. }
  split; [apply (inv_results _ _ _ _ _ Hinv)|].
  split.
  { intros i url Hu.
    assert (Hlt : (i < length urls)%nat) by (by eapply lookup_lt_Some).
    destruct (Hslot i Hlt) as (name & Hname & Hne).
    exists name. split; [done|].
    destruct (inv_slot _ _ _ _ _ Hinv i name Hname Hne) as (_ & url' & Hu' & Hp).
    congruence. }
  split.
  { apply NoDup_alt. intros i j k Hi Hj.
    destruct (decide (i = j)) as [|Hij]; [done|]. exfalso.
    destruct (Hmem k) as [Hne _]; [apply list_elem_of_lookup; eauto|].
    apply Hne. exact (inv_distinct _ _ _ _ _ Hinv i j k Hij Hi Hj). }
  split; [exact Hmem|].
  split; [|apply (inv_remote _ _ _ _ _ Hinv)].
  intros k Hk. destruct (files w !! k) as [v|] eqn:H0.
  { by apply (inv_old _ _ _ _ _ Hinv). }
  destruct (files w' !! k) as [v|] eqn:H1; [|done]. exfalso.
  destruct (inv_new _ _ _ _ _ Hinv k v H1 H0) as (i & e & u & He & _).
  - intros j Hj. apply Hk. apply list_elem_of_lookup. eauto.
  - intros j t Hj. rewrite Hfin in Hj; [by injection Hj as <-|].
    rewrite <- (inv_tasks _ _ _ _ _ Hinv). by eapply lookup_lt_Some.
  - by apply (Herr i e).
Qed.

(** A failed fetch stage returns the program's own 500 error. *)
Lemma fetch_err_shape urls maxConcurrency sched w e w1 :
  fetchImagesConcurrently env urls maxConcurrency sched w = Some (Err e, w1) ->
  exists detail, e = CustomAPIError 500 detail.
Proof.
  intros H. apply fetchImagesConcurrently_inv in H.
  destruct H as (p & w' & _ & _ & Hc).
  unfold collect_results in Hc.
  destruct (first_error (errors p)) as [err|]; [|done].
  unfold bind, throw in Hc. pose proof (remove_results_ok (results p) w') as Hok.
  destruct (remove_results (results p) w') as [[|] ?]; [|done].
  injection Hc as <- <-; eauto.
Qed.

(** X2.  What does hold when the fetch stage fails: the error is the program's
    500 error built from a task's error; the files that were there before
    are untouched; and a new file that is still there was left by a task
    that failed after creating it: it is empty, or holds the beginning of
    the JPEG of an image served for that task's URL -- the file of every
    task that succeeded has been removed. *)
Lemma failed_fetch_cleanup urls maxConcurrency sched w e w1 :
  fetchImagesConcurrently env urls maxConcurrency sched w = Some (Err e, w1) ->
  let p := fst (run_schedule env urls maxConcurrency sched (init_pool (length urls), w)) in
  (exists err, e = CustomAPIError 500 ("Failed to fetch images: " +:+ Error err)) /\
  (forall k v, files w !! k = Some v -> files w1 !! k = Some v) /\
  (forall k v, files w !! k = None -> files w1 !! k = Some v ->
     exists i url err,
       urls !! i = Some url /\ errors p !! i = Some (Some err) /\
       partial_jpeg env url v).
Proof.
  intros H. unfold fetchImagesConcurrently in H.
  destruct (run_schedule env urls maxConcurrency sched _) as [p w'] eqn:Hrun.
  pose proof (run_schedule_inv env urls maxConcurrency w _ _ _ _ _
                (pool_inv_init env urls w) Hrun) as Hinv.
  destruct (forallb is_finished (tasks p)) eqn:Hall; [|done].
  injection H as Hc. simpl.
  assert (Hfin : forall i, (i < length urls)%nat -> tasks p !! i = Some Finished).
  { intros i Hi. apply forallb_is_finished; [done|].
    by rewrite (inv_tasks _ _ _ _ _ Hinv). }
  unfold collect_results in Hc.
  destruct (first_error (errors p)) as [err|]; [|done].
  unfold bind, throw in Hc. pose proof (remove_results_ok (results p) w') as Hok.
  destruct (remove_results (results p) w') as [[[]|] w2] eqn:Hrm; [|done].
  injection Hc as <- <-.
  assert (Hw2 : forall k, files w2 !! k
            = if decide (k ∈ results p /\ k <> "") then None else files w' !! k).
  { intros k. rewrite <- remove_results_lookup. by rewrite Hrm. }
  assert (Hfresh : forall k, k ∈ results p -> k <> "" -> files w !! k = None).
  { intros k (i & Hi)%list_elem_of_lookup Hk.
    by destruct (inv_slot _ _ _ _ _ Hinv i k Hi Hk) as (_ & url & _ & _ & H0 & _). }
  split; [eauto|]. split.
  - intros k v Hk. rewrite Hw2.
    destruct (decide (k ∈ results p /\ k <> "")) as [[H1 H2]|_].
    + rewrite (Hfresh k H1 H2) in Hk. done.
    + by apply (inv_old _ _ _ _ _ Hinv).
  - intros k v Hk Hk2. rewrite Hw2 in Hk2.
    destruct (decide (k ∈ results p /\ k <> "")) as [|Hnot]; [done|].
    assert (Hkne : k <> "").
    { apply (inv_nonempty _ _ _ _ _ Hinv); [by rewrite Hk2 | done]. }
    destruct (inv_new _ _ _ _ _ Hinv k v Hk2 Hk) as (i & err' & url & He & Hu & Hp).
    + intros j Hj. apply Hnot. split; [|done]. apply list_elem_of_lookup. eauto.
    + intros j t Hj. rewrite Hfin in Hj; [by injection Hj as <-|].
      rewrite <- (inv_tasks _ _ _ _ _ Hinv). by eapply lookup_lt_Some.
    + by exists i, url, err'.
Qed.

End FetchResults.

(** * The claims *)

(** ** C2: results are positional *)

(** C2.  When every fetch task of [fetchImagesConcurrently] succeeds (the
    call returns paths and no error), the returned sequence is as long as the
    URL list, its paths are pairwise different and, for every index [i], the
    path at position [i] names a file that did not exist before the call and
    now holds the JPEG (quality 90) of an image served for the URL at
    position [i] -- under every schedule of the goroutines, that is, whatever
    the order in which they run and finish.  (That the call does return is
    [fetchImagesConcurrently_returns].) *)
Theorem fetch_results_positional env urls maxConcurrency sched w paths w' :
  fetchImagesConcurrently env urls maxConcurrency sched w = Some (Ok paths, w') ->
  length paths = length urls /\
  NoDup paths /\
  forall i url, urls !! i = Some url ->
    exists path t body img data,
      paths !! i = Some path /\
      http_Do env t url (Some 20) = Response 200 body /\
      image_Decode env body = Ok img /\
      jpeg_Encode env (imaging_Clone env img) 90 = Ok data /\
      files w !! path = None /\
      files w' !! path = Some data.
Proof.
  intros H. apply fetch_ok_summary in H.
  destruct H as (Hlen & Hslots & Hnd & _).
  split; [done|]. split; [done|].
  intros i url Hu. destruct (Hslots i url Hu) as (path & Hp & Hprod).
  destruct Hprod as (_ & H0 & t & body & img & data & H1 & H2 & H3 & H4).
  exists path, t, body, img, data. done.
Qed.

(** Three slides fetched by two goroutines at a time: the third and the
    first start, the second has to wait for the third to finish, and they
    finish in the order third, first, second. *)
Lemma fetch_results_positional_witness :
  let urls := ["s1-2048.jpg"; "s2-2048.jpg"; "s3-2048.jpg"] in
  exists paths w',
    fetchImagesConcurrently Demo.env urls 2 [2; 0; 2; 0; 1; 2; 2; 1; 0; 1; 0; 1; 1]%nat Demo.w0
      = Some (Ok paths, w') /\
    length paths = length urls /\
    NoDup paths /\
    forall i url, urls !! i = Some url ->
      exists path t body img data,
        paths !! i = Some path /\
        http_Do Demo.env t url (Some 20) = Response 200 body /\
        image_Decode Demo.env body = Ok img /\
        jpeg_Encode Demo.env (imaging_Clone Demo.env img) 90 = Ok data /\
        files Demo.w0 !! path = None /\
        files w' !! path = Some data.
Proof.
  intros urls. eexists _, _.
  assert (Hrun : fetchImagesConcurrently Demo.env urls 2 [2; 0; 2; 0; 1; 2; 2; 1; 0; 1; 0; 1; 1]%nat Demo.w0
                 = Some (Ok ["/tmp/slide-4.jpg"; "/tmp/slide-7.jpg"; "/tmp/slide-2.jpg"],
                         snd (default (Err (errorString ""), Demo.w0)
                                (fetchImagesConcurrently Demo.env urls 2
                                   [2; 0; 2; 0; 1; 2; 2; 1; 0; 1; 0; 1; 1]%nat Demo.w0))))
    by (vm_compute; reflexivity).
  split; [exact Hrun|].
  exact (fetch_results_positional Demo.env urls 2 _ Demo.w0 _ _ Hrun).
Defined.

(** ** C10: a non-empty URL list never yields an empty result *)

(** C10.  For a non-empty URL list, a successful [fetchImagesConcurrently]
    returns exactly [len(urls)] paths, none of them the empty string; so the
    ["No images to convert to PDF"] branch of [ConvertURLsToPDF] is not
    taken: after such a fetch the function behaves as its code from line 316
    on (temporary PDF, conversion, upload) under the deferred removal of the
    images. *)
Theorem nonempty_urls_nonempty_paths env urls maxConcurrency sched w paths w1 pdfFilename :
  urls <> [] ->
  fetchImagesConcurrently env urls maxConcurrency sched w = Some (Ok paths, w1) ->
  length paths = length urls /\
  Forall (fun path => path <> "") paths /\
  Nat.eqb (length paths) 0 = false /\
  forall v, exportPDF env paths pdfFilename v
            = defer (remove_all paths) (buildAndPublishPDF env paths pdfFilename) v.
Proof.
  intros Hne H. apply fetch_ok_summary in H.
  destruct H as (Hlen & _ & _ & Hmem & _).
  assert (Hpos : Nat.eqb (length paths) 0 = false).
  { apply Nat.eqb_neq. rewrite Hlen. destruct urls; [done | simpl; lia]. }
  split; [done|]. split.
  { apply Forall_forall. intros k Hk. by destruct (Hmem k Hk). }
  split; [done|].
  intros v. unfold exportPDF. by rewrite Hpos.
Qed.

Lemma nonempty_urls_nonempty_paths_witness :
  let urls := ["s1-2048.jpg"; "s2-2048.jpg"] in
  let paths := ["/tmp/slide-2.jpg"; "/tmp/slide-3.jpg"] in
  length paths = length urls /\
  Forall (fun path => path <> "") paths /\
  Nat.eqb (length paths) 0 = false /\
  forall v, exportPDF Demo.env paths "deck.pdf" v
            = defer (remove_all paths) (buildAndPublishPDF Demo.env paths "deck.pdf") v.
Proof.
  intros urls paths.
  refine (nonempty_urls_nonempty_paths Demo.env urls 25000 [0; 1; 0; 1; 0; 1; 0; 1]%nat Demo.w0 paths
            (snd (default (Err (errorString ""), Demo.w0)
                    (fetchImagesConcurrently Demo.env urls 25000 [0; 1; 0; 1; 0; 1; 0; 1]%nat Demo.w0)))
            "deck.pdf" _ _).
  - discriminate.
  - vm_compute. reflexivity.
Defined.

(** ** C8: nothing of a conversion stays on the disk *)

Lemma remove_all_lookup paths w k :
  files (snd (remove_all paths w)) !! k
  = if decide (k ∈ paths) then None else files w !! k.
Proof.
  revert w. induction paths as [|path paths IH]; intros w.
  - destruct (decide (k ∈ [])) as [H|H]; [by apply elem_of_nil in H | done].
  - change (remove_all (path :: paths) w)
      with (bind (ignore (os_Remove path)) (fun _ => remove_all paths) w).
    unfold bind, ignore. rewrite IH, os_Remove_lookup.
    destruct (decide (k = path)) as [->|Hk].
    + destruct (decide (path ∈ paths)) as [H1|H1];
        destruct (decide (path ∈ path :: paths)) as [H2|H2]; try done;
        exfalso; apply H2; by left.
    + destruct (decide (k ∈ paths)) as [H1|H1];
        destruct (decide (k ∈ path :: paths)) as [H2|H2]; try done; exfalso.
      * apply H2. by right.
      * apply elem_of_cons in H2 as [|]; done.
Qed.

(** A temporary file that is created, written and removed leaves the files
    as they were. *)
Lemma temp_scope {A} (body : string -> M A) prefix suffix env w :
  (forall tmp, touches_only tmp (body tmp)) ->
  files (snd ((let* tmp := os_CreateTemp env "" prefix suffix in
               defer (os_Remove tmp) (body tmp)) w)) = files w.
Proof.
  intros Hbody. unfold bind.
  destruct (os_CreateTemp env "" prefix suffix w) as [[tmp|e] w2] eqn:Hct;
    apply os_CreateTemp_spec in Hct; destruct Hct as (_ & _ & Hct); [|done].
  destruct Hct as (Hnone & Hf & _).
  unfold defer. specialize (Hbody tmp w2).
  destruct (body tmp w2) as [r w3]. simpl in *.
  apply map_eq. intros k. unfold os_Remove.
  destruct (decide (k = tmp)) as [->|Hk].
  - destruct (files w3 !! tmp) eqn:H3; simpl; [by rewrite lookup_delete_eq | congruence].
  - assert (files w3 !! k = files w !! k) as Hk3.
    { rewrite Hbody, Hf by done. by apply lookup_insert_ne. }
    destruct (files w3 !! tmp); simpl; [by rewrite lookup_delete_ne | done].
Qed.

Section Exporters.

Context (env : Env).

Lemma keeps_pdf_Image pdf name x y wd ht : keeps_files (pdf_Image env pdf name x y wd ht).
Proof.
  intros w. unfold pdf_Image. destruct (fpdf_err pdf); [done|].
  destruct (files w !! name); [|done]. by destruct (fpdf_RegisterImage env name _).
Qed.

Lemma keeps_pdf_add_image pdf imgPath : keeps_files (pdf_add_image env pdf imgPath).
Proof.
  unfold pdf_add_image, image_DecodeConfig_file.
  apply keeps_bind; [apply keeps_os_Open|]. intros file.
  apply keeps_bind.
  { apply keeps_bind; [apply keeps_file_Read|]. by intros data w. }
  intros [iw ih]. destruct (pdf_GetPageSize env pdf). destruct (fit_to_page _ _ _ _).
  apply keeps_pdf_Image.
Qed.

Lemma keeps_pdf_add_images paths : forall pdf, keeps_files (pdf_add_images env pdf paths).
Proof.
  induction paths as [|path paths IH]; intros pdf; simpl; [apply keeps_ret|].
  apply keeps_bind; [apply keeps_pdf_add_image | done].
Qed.

Lemma touches_convertImagePathsToPDF paths pdfPath :
  touches_only pdfPath (convertImagePathsToPDF env paths pdfPath).
Proof.
  unfold convertImagePathsToPDF. apply touches_bind.
  - apply keeps_touches, keeps_pdf_add_images.
  - intros pdf. unfold pdf_OutputFileAndClose. destruct (fpdf_err pdf).
    + apply keeps_touches, keeps_throw.
    + apply touches_file_Write.
Qed.

Lemma keeps_buildAndPublishPDF paths pdfFilename w :
  files (snd (buildAndPublishPDF env paths pdfFilename w)) = files w.
Proof.
  unfold buildAndPublishPDF. apply temp_scope. intros tmp.
  apply touches_bind.
  - apply touches_wrap_err, touches_convertImagePathsToPDF.
  - intros _. apply keeps_touches, keeps_publish.
Qed.

Lemma touches_close_and_fail {A} tmpZip entries detail (m : M A) :
  touches_only tmpZip m -> touches_only tmpZip (close_and_fail env tmpZip entries detail m).
Proof.
  intros Hm w k Hk. unfold close_and_fail. specialize (Hm w k Hk).
  destruct (m w) as [[a|e] w1]; simpl in *; [done|].
  unfold zipWriter_Close. by rewrite touches_file_Write.
Qed.

Lemma touches_zip_add_entries tmpZip paths : forall i entries,
  touches_only tmpZip (zip_add_entries env tmpZip i entries paths).
Proof.
  induction paths as [|path paths IH]; intros i entries; simpl.
  - apply keeps_touches, keeps_ret.
  - apply touches_bind.
    { apply touches_close_and_fail, keeps_touches, keeps_os_Open. }
    intros file. apply touches_bind.
    { apply touches_close_and_fail, keeps_touches. unfold zipWriter_Create.
      apply keeps_bind; [apply keeps_syscall|]. intros _.
      destruct (zip_Create_error env _); [apply keeps_throw | apply keeps_ret]. }
    intros _. apply touches_bind; [|done].
    apply touches_close_and_fail, keeps_touches. unfold io_Copy.
    apply keeps_bind; [apply keeps_file_Read|]. intros data.
    apply keeps_bind; [apply keeps_syscall|]. intros _. apply keeps_ret.
Qed.

Lemma touches_writeZip paths tmpZip : touches_only tmpZip (writeZip env paths tmpZip).
Proof. unfold writeZip. eauto 10 using touches_zip_add_entries with frame. Qed.

Lemma keeps_zip_and_publish paths zipFilename w :
  files (snd ((let* tmpZip := os_CreateTemp env "" "slides-" ".zip" in
               defer (os_Remove tmpZip)
                 (writeZip env paths tmpZip ;;
                  publish env tmpZip zipFilename
                    (fun err => CustomAPIError 500 ("FTP upload failed: " +:+ Error err)))) w))
  = files w.
Proof.
  apply temp_scope. intros tmp. eauto using touches_writeZip with frame.
Qed.

Lemma keeps_ppt_add_slides paths : forall p, keeps_files (ppt_add_slides env p paths).
Proof.
  induction paths as [|path paths IH]; intros p; simpl; [apply keeps_ret|].
  apply keeps_bind; [eauto with frame|]. intros data.
  destruct (ppt_AddImageSlide env data); [apply keeps_throw | apply IH].
Qed.

Lemma keeps_pptx_and_publish paths pptxFilename :
  keeps_files
    (let* p := ppt_add_slides env [] paths in
     let* tmpPPTX := os_CreateTemp env "" "slides-" ".pptx" in
     defer (os_Remove tmpPPTX)
       (wrap_err (fun err => errorString ("failed to save PPTX: " +:+ Error err))
          (file_Write env tmpPPTX (ppt_Output env p)) ;;
        publish env tmpPPTX pptxFilename
          (fun err => errorString ("FTP upload failed: " +:+ Error err)))).
Proof.
  apply keeps_bind; [apply keeps_ppt_add_slides|]. intros p w.
  apply temp_scope. intros tmp. eauto with frame.
Qed.

(** After a successful fetch, the deferred removals give the disk back as it
    was before the fetch. *)
Lemma export_restores_files {A} (body : M A) urls maxConcurrency sched w paths w1 :
  fetchImagesConcurrently env urls maxConcurrency sched w = Some (Ok paths, w1) ->
  (forall v, files (snd (body v)) = files v) ->
  files (snd (defer (remove_all paths) body w1)) = files w /\
  Forall (fun path => files (snd (defer (remove_all paths) body w1)) !! path = None) paths.
Proof.
  intros Hfetch Hbody. apply fetch_ok_summary in Hfetch.
  destruct Hfetch as (_ & _ & _ & Hmem & Hrest & _).
  assert (Hfinal : files (snd (defer (remove_all paths) body w1)) = files w).
  { unfold defer. specialize (Hbody w1). destruct (body w1) as [r w2]. simpl in *.
    apply map_eq. intros k. rewrite remove_all_lookup, Hbody.
    case_decide as Hk.
    - by destruct (Hmem k Hk) as (_ & -> & _).
    - by apply Hrest. }
  split; [done|]. rewrite Hfinal. apply Forall_forall. intros k Hk.
  by destruct (Hmem k Hk) as (_ & ? & _).
Qed.

End Exporters.

(** C8.  Once the fetch stage of a conversion has succeeded (the pipeline
    reaches the export stage), [ConvertURLsToPDF] and [ConvertURLsToZip]
    return with the local disk exactly as it was before the call: every
    fetched image file is gone, and so is the temporary PDF or ZIP file --
    whether the export and the upload succeeded or failed, and whatever
    system call or server answer made them fail. *)
Theorem conversion_leaves_no_files env urls filename sched w :
  (forall paths w1,
     fetchImagesConcurrently env urls 25000 sched w = Some (Ok paths, w1) ->
     exists r w', ConvertURLsToPDF env urls filename sched w = Some (r, w') /\
                  files w' = files w /\
                  Forall (fun path => files w' !! path = None) paths) /\
  (forall paths w1,
     fetchImagesConcurrently env urls 10 sched w = Some (Ok paths, w1) ->
     exists r w', ConvertURLsToZip env urls filename sched w = Some (r, w') /\
                  files w' = files w /\
                  Forall (fun path => files w' !! path = None) paths).
Proof.
  split; intros paths w1 Hfetch.
  - unfold ConvertURLsToPDF, bindB, lift. rewrite Hfetch.
    destruct (exportPDF env paths filename w1) as [r w'] eqn:Hexp.
    exists r, w'. split; [done|].
    change w' with (snd (r, w')). rewrite <- Hexp. unfold exportPDF.
    eapply export_restores_files; [exact Hfetch|].
    intros v. destruct (Nat.eqb (length paths) 0); [done|].
    apply keeps_buildAndPublishPDF.
  - unfold ConvertURLsToZip, bindB, lift. rewrite Hfetch.
    destruct (exportZip env paths filename w1) as [r w'] eqn:Hexp.
    exists r, w'. split; [done|].
    change w' with (snd (r, w')). rewrite <- Hexp. unfold exportZip.
    eapply export_restores_files; [exact Hfetch|].
    intros v. apply keeps_zip_and_publish.
Qed.

(** X5.  The slide-deck converter cleans up in the same way. *)
Lemma pptx_conversion_leaves_no_files env urls filename sched w paths w1 :
  fetchImagesConcurrently env urls 10 sched w = Some (Ok paths, w1) ->
  exists r w', ConvertURLsToPPTX env urls filename sched w = Some (r, w') /\
               files w' = files w /\
               Forall (fun path => files w' !! path = None) paths.
Proof.
  intros Hfetch. unfold ConvertURLsToPPTX, bindB, lift. rewrite Hfetch.
  destruct (exportPPTX env paths filename w1) as [r w'] eqn:Hexp.
  exists r, w'. split; [done|].
  change w' with (snd (r, w')). rewrite <- Hexp. unfold exportPPTX.
  eapply export_restores_files; [exact Hfetch|].
  apply keeps_pptx_and_publish.
Qed.

Lemma pptx_conversion_leaves_no_files_witness :
  exists r w',
    ConvertURLsToPPTX Demo.env ["s1-2048.jpg"; "s2-2048.jpg"] "deck.pptx" [0; 1; 1; 0; 0; 1; 1; 0]%nat
      Demo.w0 = Some (r, w') /\
    files w' = files Demo.w0 /\
    Forall (fun path => files w' !! path = None) ["/tmp/slide-2.jpg"; "/tmp/slide-3.jpg"].
Proof.
  refine (pptx_conversion_leaves_no_files Demo.env ["s1-2048.jpg"; "s2-2048.jpg"] "deck.pptx"
            [0; 1; 1; 0; 0; 1; 1; 0]%nat Demo.w0 ["/tmp/slide-2.jpg"; "/tmp/slide-3.jpg"]
            (snd (default (Err (errorString ""), Demo.w0)
                    (fetchImagesConcurrently Demo.env ["s1-2048.jpg"; "s2-2048.jpg"] 10
                       [0; 1; 1; 0; 0; 1; 1; 0]%nat Demo.w0))) _).
  vm_compute. reflexivity.
Defined.

(** ** C6: the archive holds the fetched files, byte for byte *)

Section Archive.

Context (env : Env).

Lemma close_and_fail_inv {A} tmpZip entries detail (m : M A) w r w' :
  close_and_fail env tmpZip entries detail m w = (r, w') ->
  match r with
  | Ok a => m w = (Ok a, w')
  | Err e => exists d, e = CustomAPIError 500 d
  end.
Proof.
  unfold close_and_fail. destruct (m w) as [[a|e] w1]; intros [= <- <-]; eauto.
Qed.

Lemma zip_add_entries_spec tmpZip paths : forall i entries w r w',
  zip_add_entries env tmpZip i entries paths w = (r, w') ->
  match r with
  | Ok es =>
      files w' = files w /\
      exists contents,
        Forall2 (fun path c => files w !! path = Some c) paths contents /\
        es = entries ++ imap (fun j c => (entry_name (i + j), c)) contents
  | Err e => exists d, e = CustomAPIError 500 d
  end.
Proof.
  induction paths as [|path paths IH]; intros i entries w r w'.
  - intros [= <- <-]. split; [done|]. exists []. split; [constructor|].
    by rewrite app_nil_r.
  - simpl. intros H.
    apply bind_inv in H. destruct H as [(file & w1 & Hopen & H)|(e & Hopen & ->)].
    2:{ by apply close_and_fail_inv in Hopen. }
    apply close_and_fail_inv in Hopen.
    apply os_Open_ok in Hopen. destruct Hopen as (-> & Hw1 & _ & _).
    apply bind_inv in H. destruct H as [([] & w2 & Hcreate & H)|(e & Hcreate & ->)].
    2:{ by apply close_and_fail_inv in Hcreate. }
    apply close_and_fail_inv in Hcreate.
    assert (Hw2 : files w2 = files w1).
    { assert (Hk : keeps_files (zipWriter_Create env
                      ("image_" +:+ pretty (Z.of_nat i + 1) +:+ ".jpg"))).
      { unfold zipWriter_Create. apply keeps_bind; [apply keeps_syscall|]. intros _.
        destruct (zip_Create_error env _); [apply keeps_throw | apply keeps_ret]. }
      specialize (Hk w1). by rewrite Hcreate in Hk. }
    apply bind_inv in H. destruct H as [(data & w3 & Hcopy & H)|(e & Hcopy & ->)].
    2:{ by apply close_and_fail_inv in Hcopy. }
    apply close_and_fail_inv in Hcopy.
    assert (Hdata : files w3 = files w2 /\ files w2 !! path = Some data).
    { unfold io_Copy in Hcopy. apply bind_inv in Hcopy.
      destruct Hcopy as [(d & v & Hread & Hcopy)|(? & _ & ?)]; [|done].
      apply file_Read_ok in Hread. destruct Hread as (Hv & _ & Hd).
      unfold bind, syscall, ret in Hcopy.
      destruct (syscall_fault env (clock v)); [done|].
      injection Hcopy as -> <-. done. }
    destruct Hdata as [Hw3 Hdata].
    apply IH in H. destruct r as [es|e]; [|done].
    destruct H as (Hw' & contents & Hall & ->).
    split; [congruence|].
    exists (data :: contents). split.
    + constructor; [congruence|].
      eapply Forall2_impl; [exact Hall|]. intros p c. simpl. congruence.
    + rewrite <- app_assoc. f_equal. simpl. f_equal.
      * unfold entry_name. by rewrite Nat.add_0_r.
      * apply imap_ext. intros j c _. simpl. f_equal. f_equal. lia.
Qed.

End Archive.

Lemma imap_entries_fst (contents : list bytes) : forall k,
  map fst (imap (fun j c => (entry_name (k + j), c)) contents)
  = map entry_name (seq k (length contents)).
Proof.
  induction contents as [|c cs IH]; intros k; [done|]. simpl. f_equal.
  - by rewrite Nat.add_0_r.
  - rewrite <- (IH (S k)). f_equal. apply imap_ext. intros j c' _. simpl.
    f_equal. f_equal. lia.
Qed.

Lemma imap_entries_snd (contents : list bytes) : forall k,
  map snd (imap (fun j c => (entry_name (k + j), c)) contents) = contents.
Proof.
  induction contents as [|c cs IH]; intros k; [done|]. simpl. f_equal.
  rewrite <- (IH (S k)) at 2. f_equal. apply imap_ext. intros j c' _. simpl.
  f_equal. f_equal. lia.
Qed.


(** ** C7: one page per image, the image fitted to the page *)

Section PDF.

Context (env : Env).

Lemma place_on_last_new_page pl pages :
  place_on_last pl (pages ++ [[]]) = pages ++ [[pl]].
Proof. unfold place_on_last. by rewrite rev_unit, rev_involutive. Qed.

(** One turn of the loop that leaves the document without error. *)
Lemma pdf_add_image_spec pdf imgPath w pdf' w' :
  pdf_add_image env pdf imgPath w = (Ok pdf', w') ->
  fpdf_err pdf' = None ->
  fpdf_err pdf = None /\
  files w' = files w /\
  trace w' = trace w ++ [ImageDecodeConfig imgPath] /\
  pdf_GetPageSize env pdf' = pdf_GetPageSize env pdf /\
  exists data dims,
    files w !! imgPath = Some data /\
    image_DecodeConfig env data = Ok dims /\
    fpdf_pages pdf' = fpdf_pages pdf ++ [fitted_page (pdf_GetPageSize env pdf) imgPath dims].
Proof.
  unfold pdf_add_image. intros H Herr'.
  apply bind_inv in H. destruct H as [(file & w1 & Hopen & H)|(? & _ & ?)]; [|done].
  apply os_Open_ok in Hopen. destruct Hopen as (-> & Hf1 & Ht1 & _).
  apply bind_inv in H. destruct H as [(dims & w2 & Hcfg & H)|(? & _ & ?)]; [|done].
  unfold image_DecodeConfig_file in Hcfg.
  apply bind_inv in Hcfg. destruct Hcfg as [(data & v & Hread & Hcfg)|(? & _ & ?)]; [|done].
  apply file_Read_ok in Hread. destruct Hread as (Hfv & Htv & Hdata).
  destruct (image_DecodeConfig env data) as [dims'|] eqn:Hdims; [|done].
  injection Hcfg as -> <-.
  destruct (pdf_GetPageSize env pdf) as [pageWidth pageHeight] eqn:Hsize.
  unfold fit_to_page in H.
  unfold pdf_Image, pdf_AddPage in H.
  destruct (fpdf_err pdf) as [e|] eqn:Herr.
  { simpl in H. rewrite Herr in H. injection H as <- <-. congruence. }
  simpl in H.
  change (files (log (ImageDecodeConfig imgPath) v)) with (files v) in H.
  rewrite Hfv, Hdata in H.
  destruct (fpdf_RegisterImage env imgPath data); [injection H as <- <-; done|].
  injection H as <- <-. simpl.
  repeat split; try done.
  - congruence.
  - by rewrite Htv, Ht1.
  - exists data, dims. rewrite <- Hf1. repeat split; try done.
    by rewrite place_on_last_new_page.
Qed.

Lemma pdf_add_images_spec imagePaths : forall pdf w pdf' w',
  pdf_add_images env pdf imagePaths w = (Ok pdf', w') ->
  fpdf_err pdf' = None ->
  fpdf_err pdf = None /\
  files w' = files w /\
  trace w' = trace w ++ map ImageDecodeConfig imagePaths /\
  exists dims,
    Forall2 (fun path d => exists data, files w !! path = Some data /\
                                        image_DecodeConfig env data = Ok d)
            imagePaths dims /\
    fpdf_pages pdf' = fpdf_pages pdf
                      ++ zip_with (fitted_page (pdf_GetPageSize env pdf)) imagePaths dims.
Proof.
  induction imagePaths as [|imgPath rest IH]; intros pdf w pdf' w' H Herr'.
  - injection H as <- <-. repeat split; try done.
    + by rewrite app_nil_r.
    + exists []. split; [constructor|]. by rewrite app_nil_r.
  - simpl in H.
    apply bind_inv in H. destruct H as [(pdf1 & w1 & Hone & H)|(? & _ & ?)]; [|done].
    apply IH in H; [|done]. destruct H as (Herr1 & Hf & Ht & dims & Hall & Hpages).
    apply pdf_add_image_spec in Hone; [|done].
    destruct Hone as (Herr & Hf1 & Ht1 & Hsize & data & d & Hdata & Hd & Hpages1).
    repeat split; try done.
    + congruence.
    + rewrite Ht, Ht1, <- app_assoc. done.
    + exists (d :: dims). split.
      * constructor; [eauto|].
        eapply Forall2_impl; [exact Hall|]. intros p c (dat & ? & ?). exists dat.
        split; [congruence | done].
      * rewrite Hpages, Hpages1, Hsize, <- app_assoc. done.
Qed.

End PDF.

(** C7.  When [convertImagePathsToPDF] succeeds on the image files
    [imagePaths], the PDF it writes was set up as portrait A4 in millimetres
    and has exactly one page per image, in input order; the page of an image
    holds that image alone, at the top-left corner [(0, 0)], at size
    [(imgWidth * r, imgHeight * r)] where
    [r = min(pageWidth / imgWidth, pageHeight / imgHeight)] in [float64]
    arithmetic, [imgWidth] and [imgHeight] being what [image.DecodeConfig]
    reads from the file; and the only image decoding the function does is
    one [image.DecodeConfig] per file (never [image.Decode]). *)
Theorem pdf_one_fitted_page_per_image env imagePaths pdfPath w w' :
  imagePaths <> [] ->
  convertImagePathsToPDF env imagePaths pdfPath w = (Ok tt, w') ->
  exists dims,
    Forall2 (fun path d => exists data, files w !! path = Some data /\
                                        image_DecodeConfig env data = Ok d)
            imagePaths dims /\
    files w' !! pdfPath
      = Some (fpdf_Output env
                (zip_with (fitted_page (fpdf_PageSize env "P" "mm" "A4")) imagePaths dims)) /\
    length (zip_with (fitted_page (fpdf_PageSize env "P" "mm" "A4")) imagePaths dims)
      = length imagePaths /\
    trace w' = trace w ++ map ImageDecodeConfig imagePaths.
Proof.
  intros _ H. unfold convertImagePathsToPDF in H.
  apply bind_inv in H. destruct H as [(pdf & w1 & Hadd & H)|(? & _ & ?)]; [|done].
  unfold pdf_OutputFileAndClose in H.
  destruct (fpdf_err pdf) as [e|] eqn:Herr; [done|].
  apply pdf_add_images_spec in Hadd; [|done].
  destruct Hadd as (_ & Hf & Ht & dims & Hall & Hpages).
  apply file_Write_ok in H. destruct H as (Hf' & Ht').
  exists dims. split; [done|]. split; [|split].
  - rewrite Hf', lookup_insert_eq, Hpages. done.
  - rewrite length_zip_with. apply Forall2_length in Hall. lia.
  - by rewrite Ht', Ht.
Qed.

(** ** The orchestrator, taken apart *)

Lemma defer_inv {A C} (cleanup : M C) (body : M A) w r w' :
  defer cleanup body w = (r, w') ->
  exists w1, body w = (r, w1) /\ w' = snd (cleanup w1).
Proof. unfold defer. destruct (body w) as [r1 w1]. intros [= <- <-]. eauto. Qed.

Lemma remote_os_Remove name w : remote (snd (os_Remove name w)) = remote w.
Proof. unfold os_Remove. by destruct (files w !! name). Qed.

Lemma remote_remove_all paths : forall w, remote (snd (remove_all paths w)) = remote w.
Proof.
  induction paths as [|path paths IH]; intros w; [done|].
  change (remove_all (path :: paths) w)
    with (bind (ignore (os_Remove path)) (fun _ => remove_all paths) w).
  unfold bind, ignore. by rewrite IH, remote_os_Remove.
Qed.

Lemma second_to_last (parts : list string) :
  (2 <= length parts)%nat ->
  exists before last, parts = before ++ [docShort_of parts; last].
Proof.
  intros Hlen. unfold docShort_of.
  destruct (rev parts) as [|last [|short before]] eqn:Hrev.
  - apply (f_equal (@length _)) in Hrev. rewrite length_rev in Hrev. simpl in Hrev. lia.
  - apply (f_equal (@length _)) in Hrev. rewrite length_rev in Hrev. simpl in Hrev. lia.
  - exists (rev before), last.
    assert (Hparts : parts = rev before ++ [short; last]).
    { rewrite <- (rev_involutive parts), Hrev. simpl. by rewrite <- !app_assoc. }
    rewrite Hparts at 1. do 2 f_equal.
    rewrite Hparts, length_app, Nat.add_sub. simpl length.
    rewrite app_nth2 by lia. by rewrite Nat.sub_diag.
Qed.

Section Orchestrator.

Context (env : Env).

Lemma publish_ok tmp filename wrap w path sz w' :
  publish env tmp filename wrap w = (Ok (path, sz), w') ->
  path = ftpPath_of env filename /\ is_Some (remote w' !! path).
Proof.
  unfold publish. intros H.
  apply bind_inv in H. destruct H as [([] & w1 & Hup & H)|(? & _ & ?)]; [|done].
  apply wrap_err_inv in Hup. destruct Hup as [(? & Hup & _)|(? & _ & ?)]; [|done].
  apply bind_inv in H. destruct H as [(n & w2 & Hstat & H)|(? & _ & ?)]; [|done].
  injection H as <- <- <-. split; [done|].
  assert (Hw2 : remote w2 = remote w1).
  { assert (Hr : remote (snd (os_Stat_Size env tmp w1)) = remote w1).
    { unfold os_Stat_Size, bind, syscall.
      destruct (syscall_fault env (clock w1)); [done|].
      by destruct (files (tick w1) !! tmp). }
    by rewrite Hstat in Hr. }
  rewrite Hw2. destruct x. apply uploadToFTP_ok in Hup. by destruct Hup.
Qed.

(** A converter that succeeds has stored the artifact under the path it
    returns, which is [SS_DL/<date>/<filename>]. *)
Lemma exportPDF_ok paths filename w path sz w' :
  exportPDF env paths filename w = (Ok (path, sz), w') ->
  path = ftpPath_of env filename /\ is_Some (remote w' !! path).
Proof.
  unfold exportPDF. intros H. apply defer_inv in H. destruct H as (w1 & H & ->).
  rewrite remote_remove_all.
  destruct (Nat.eqb (length paths) 0); [done|]. unfold buildAndPublishPDF in H.
  apply bind_inv in H. destruct H as [(tmp & w2 & _ & H)|(? & _ & ?)]; [|done].
  apply defer_inv in H. destruct H as (w3 & H & ->). rewrite remote_os_Remove.
  apply bind_inv in H. destruct H as [([] & w4 & _ & H)|(? & _ & ?)]; [|done].
  by apply publish_ok in H.
Qed.

Lemma exportPPTX_ok paths filename w path sz w' :
  exportPPTX env paths filename w = (Ok (path, sz), w') ->
  path = ftpPath_of env filename /\ is_Some (remote w' !! path).
Proof.
  unfold exportPPTX. intros H. apply defer_inv in H. destruct H as (w1 & H & ->).
  rewrite remote_remove_all.
  apply bind_inv in H. destruct H as [(p & w2 & _ & H)|(? & _ & ?)]; [|done].
  apply bind_inv in H. destruct H as [(tmp & w3 & _ & H)|(? & _ & ?)]; [|done].
  apply defer_inv in H. destruct H as (w4 & H & ->). rewrite remote_os_Remove.
  apply bind_inv in H. destruct H as [([] & w5 & _ & H)|(? & _ & ?)]; [|done].
  by apply publish_ok in H.
Qed.

Lemma exportZip_ok paths filename w path sz w' :
  exportZip env paths filename w = (Ok (path, sz), w') ->
  path = ftpPath_of env filename /\ is_Some (remote w' !! path).
Proof.
  unfold exportZip. intros H. apply defer_inv in H. destruct H as (w1 & H & ->).
  rewrite remote_remove_all.
  apply bind_inv in H. destruct H as [(tmp & w2 & _ & H)|(? & _ & ?)]; [|done].
  apply defer_inv in H. destruct H as (w3 & H & ->). rewrite remote_os_Remove.
  apply bind_inv in H. destruct H as [(es & w4 & _ & H)|(? & _ & ?)]; [|done].
  by apply publish_ok in H.
Qed.

Lemma bindB_ok {A C} (m : B A) (k : A -> B C) w c w' :
  bindB m k w = Some (Ok c, w') ->
  exists a w1, m w = Some (Ok a, w1) /\ k a w1 = Some (Ok c, w').
Proof.
  unfold bindB. destruct (m w) as [[[a|e] w1]|]; [|done..]. eauto.
Qed.

Lemma bindB_lift_ok {A C} (m : B A) (k : A -> M C) w c w' :
  bindB m (fun a => lift (k a)) w = Some (Ok c, w') ->
  exists a w1, m w = Some (Ok a, w1) /\ k a w1 = (Ok c, w').
Proof.
  unfold bindB, lift. destruct (m w) as [[[a|e] w1]|]; [|done..].
  intros [= H]. eauto.
Qed.

Lemma convert_ok conversionType urls docShort sched w path sz msg w' :
  convert env conversionType urls docShort sched w = Some (Ok (path, sz, msg), w') ->
  exists ext, path = ftpPath_of env (docShort +:+ ext) /\ is_Some (remote w' !! path).
Proof.
  unfold convert.
  destruct (String.eqb conversionType PDF);
    [|destruct (String.eqb conversionType PPTX);
      [|destruct (String.eqb conversionType ImagesZip); [|done]]];
    intros H; apply bindB_lift_ok in H; destruct H as ([p s] & w1 & H & [= <- <- <- <-]);
    apply bindB_lift_ok in H; destruct H as (paths & w2 & _ & H).
  - exists ".pdf". by apply exportPDF_ok in H.
  - exists ".pptx". by apply exportPPTX_ok in H.
  - exists ".zip". by apply exportZip_ok in H.
Qed.

(** What a successful run of the pipeline went through. *)
Lemma GetSlidesDownloadLink_ok urlStr conversionType qualityType sched w resp w' :
  GetSlidesDownloadLink env urlStr conversionType qualityType sched w = Some (Ok resp, w') ->
  exists u slidesData w1 urls path,
    url_Parse env urlStr = Some u /\
    Host u = "www.slideshare.net" /\
    (2 <= length (pathParts u))%nat /\
    FetchSlideImages env urlStr w = (Ok slidesData, w1) /\
    select_resolution (slides slidesData) qualityType = Ok (urls, thumbnail (data resp)) /\
    (exists ext, path = ftpPath_of env (docShort_of (pathParts u) +:+ ext)) /\
    is_Some (remote w' !! path) /\
    slides_download_link (data resp) = os_Getenv env "BASE_URL" +:+ "/" +:+ path /\
    file_name (data resp) = filepath_Base path.
Proof.
  unfold GetSlidesDownloadLink, ValidateURL.
  destruct (url_Parse env urlStr) as [u|] eqn:Hparse; [|done].
  destruct (String.eqb_spec (Host u) "www.slideshare.net") as [Hhost|]; [|done]. simpl.
  destruct (Nat.ltb_spec (length (pathParts u)) 2) as [|Hlen]; [done|].
  intros H. unfold bindB at 1, lift at 1 in H.
  destruct (FetchSlideImages env urlStr w) as [[slidesData|e] w1] eqn:Hfetch; [|done].
  destruct (select_resolution (slides slidesData) qualityType) as [[urls thumb]|e] eqn:Hsel;
    [|done].
  apply bindB_ok in H. destruct H as ([[path sz] msg] & w2 & Hconv & [= <- <-]).
  apply convert_ok in Hconv. destruct Hconv as (ext & Hpath & Hremote).
  exists u, slidesData, w1, urls, path. simpl. repeat split; eauto.
Qed.

End Orchestrator.

(** ** C3: resolution selection *)

(** C3.  HD asks for width 2048 and SD for width 638.  The selected URLs are
    the URLs at exactly that width of the slides that have it, in manifest
    order, the other slides being skipped.  If none has it, the selection
    fails with a 404 error whose detail names the width (["No 2048px
    resolution slides found"], ["No 638px ..."]); otherwise it returns the
    sequence, and the thumbnail is its first URL. *)
Theorem resolution_selection (slides : list (gmap Z string)) (qualityType : QualityType) :
  quality_of HD = 2048 /\ quality_of SD = 638 /\
  "No " +:+ pretty (quality_of HD) +:+ "px resolution slides found"
    = "No 2048px resolution slides found" /\
  "No " +:+ pretty (quality_of SD) +:+ "px resolution slides found"
    = "No 638px resolution slides found" /\
  let target := quality_of qualityType in
  highResImages slides target
    = map (fun slide : gmap Z string => default "" (slide !! target))
          (filter (fun slide : gmap Z string => is_Some (slide !! target)) slides) /\
  match select_resolution slides qualityType with
  | Err e =>
      highResImages slides target = [] /\
      e = CustomAPIError 404 ("No " +:+ pretty target +:+ "px resolution slides found")
  | Ok (urls, thumb) =>
      urls = highResImages slides target /\ head urls = Some thumb
  end.
Proof.
  split; [done|]. split; [done|]. split; [by vm_compute|]. split; [by vm_compute|].
  intros target. split.
  - unfold highResImages. induction slides as [|slide rest IH]; [done|].
    rewrite filter_cons. simpl. destruct (slide !! target) as [url|] eqn:Hs.
    + rewrite decide_True by eauto. simpl. rewrite Hs. simpl. f_equal. exact IH.
    + rewrite decide_False by (by intros [? ?]). exact IH.
  - unfold select_resolution. fold target.
    by destruct (highResImages slides target).
Qed.

(** X3.  In the pipeline: an empty selection ends the request with that
    error, before any image is fetched. *)
Lemma GetSlidesDownloadLink_no_slides env urlStr conversionType qualityType sched w u
    slidesData w1 e :
  url_Parse env urlStr = Some u ->
  Host u = "www.slideshare.net" ->
  (2 <= length (pathParts u))%nat ->
  FetchSlideImages env urlStr w = (Ok slidesData, w1) ->
  select_resolution (slides slidesData) qualityType = Err e ->
  GetSlidesDownloadLink env urlStr conversionType qualityType sched w = Some (Err e, w1).
Proof.
  intros Hparse Hhost Hlen Hfetch Hsel.
  unfold GetSlidesDownloadLink, ValidateURL. rewrite Hparse, Hhost. simpl.
  destruct (Nat.ltb_spec (length (pathParts u)) 2) as [|_]; [lia|].
  unfold bindB at 1, lift at 1. by rewrite Hfetch, Hsel.
Qed.

(** Scenario B of the specification: no slide at width 638, quality SD. *)
Lemma GetSlidesDownloadLink_no_slides_witness :
  exists w1,
    GetSlidesDownloadLink Demo.env Demo.hd_only_url PDF SD [] Demo.w0
    = Some (Err (CustomAPIError 404 "No 638px resolution slides found"), w1).
Proof.
  assert (Hfetch : exists slidesData w1,
            FetchSlideImages Demo.env Demo.hd_only_url Demo.w0 = (Ok slidesData, w1) /\
            select_resolution (slides slidesData) SD
            = Err (CustomAPIError 404 "No 638px resolution slides found")).
  { eexists _, _. split; vm_compute; reflexivity. }
  destruct Hfetch as (slidesData & w1 & Hfetch & Hsel). exists w1.
  refine (GetSlidesDownloadLink_no_slides Demo.env Demo.hd_only_url PDF SD [] Demo.w0
            {| Host := "www.slideshare.net"; Path := "/slideshow/hd-only/9" |}
            slidesData w1 _ _ _ _ Hfetch Hsel).
  - vm_compute. reflexivity.
  - reflexivity.
  - vm_compute. lia.
Defined.

(** X4.  The quality is compared with the constant ["SD"] as it is: every
    other string ([sd] in lower case, [hd], the empty string, ...) selects
    width 2048, and the selection is the one made for [HD]. *)
Theorem quality_is_case_sensitive (qualityType : QualityType) (slides : list (gmap Z string)) :
  qualityType <> SD ->
  quality_of qualityType = 2048 /\
  select_resolution slides qualityType = select_resolution slides HD.
Proof.
  intros Hne.
  assert (H : quality_of qualityType = 2048).
  { unfold quality_of. by destruct (String.eqb_spec qualityType SD). }
  split; [exact H|]. unfold select_resolution. by rewrite H.
Qed.

(** The query value [sd]: the slide offered at 638 pixels only is passed
    over. *)
Lemma quality_is_case_sensitive_witness :
  let slides : list (gmap Z string) :=
    [ {[ 638 := "a-638.jpg" ]}; {[ 638 := "b-638.jpg"; 2048 := "b-2048.jpg" ]} ] in
  quality_of "sd" = 2048 /\
  select_resolution slides "sd" = select_resolution slides HD /\
  select_resolution slides HD = Ok (["b-2048.jpg"], "b-2048.jpg").
Proof.
  intros slides.
  destruct (quality_is_case_sensitive "sd" slides ltac:(discriminate)) as [H1 H2].
  split; [exact H1|]. split; [exact H2|]. vm_compute. reflexivity.
Defined.

(** ** C9: the URL is checked before anything is fetched *)

(** C9.  If the host of the parsed URL is not exactly [www.slideshare.net],
    or its path (trimmed of slashes and split at slashes) has fewer than two
    segments, [GetSlidesDownloadLink] returns a 400 error and the world is
    untouched: no request was made.  If it succeeds, the artifact was stored
    under [SS_DL/<date>/<short><ext>] where [<short>] is the second-to-last
    segment of that path, and the download link is that remote path under
    the base URL. *)
Theorem url_checked_before_fetch env urlStr conversionType qualityType sched w u :
  url_Parse env urlStr = Some u ->
  (Host u <> "www.slideshare.net" \/ (length (pathParts u) < 2)%nat ->
   exists detail,
     GetSlidesDownloadLink env urlStr conversionType qualityType sched w
     = Some (Err (CustomAPIError 400 detail), w)) /\
  (forall resp w',
     GetSlidesDownloadLink env urlStr conversionType qualityType sched w
     = Some (Ok resp, w') ->
     exists before docShort last ext remotePath,
       pathParts u = before ++ [docShort; last] /\
       remotePath = "SS_DL/" +:+ time_Now_Format env "02012006" +:+ "/" +:+ docShort +:+ ext /\
       is_Some (remote w' !! remotePath) /\
       slides_download_link (data resp) = os_Getenv env "BASE_URL" +:+ "/" +:+ remotePath).
Proof.
  intros Hparse. split.
  - intros Hbad. unfold GetSlidesDownloadLink, ValidateURL. rewrite Hparse.
    destruct (String.eqb_spec (Host u) "www.slideshare.net") as [Hhost|Hhost]; simpl.
    + destruct Hbad as [|Hlen]; [done|].
      destruct (Nat.ltb_spec (length (pathParts u)) 2) as [_|]; [|lia].
      eexists. reflexivity.
    + eexists. reflexivity.
  - intros resp w' H. apply GetSlidesDownloadLink_ok in H.
    destruct H as (u' & sd & w1 & urls & path & Hparse' & _ & Hlen & _ & _
                   & (ext & Hpath) & Hremote & Hlink & _).
    assert (u' = u) as -> by congruence.
    destruct (second_to_last (pathParts u) Hlen) as (before & last & Hparts).
    exists before, (docShort_of (pathParts u)), last, ext, path.
    split; [done|]. split; [|done].
    rewrite Hpath. unfold ftpPath_of. by rewrite append_assoc.
Qed.

(** ** C4: a failed page fetch *)

Lemma bindB_lift_err {A C} (m : M A) (k : A -> B C) w e w' :
  m w = (Err e, w') -> bindB (lift m) k w = Some (Err e, w').
Proof. unfold bindB, lift. by intros ->. Qed.

Lemma FetchSlideImages_failure env urlStr w :
  match http_Do env (clock w) urlStr None with
  | TransportError _ =>
      exists w', FetchSlideImages env urlStr w
                 = (Err (CustomAPIError 500 "Failed to fetch the presentation page"), w')
  | Response status _ =>
      status <> 200 ->
      exists w', FetchSlideImages env urlStr w
                 = (Err (CustomAPIError status "Failed to fetch the presentation page"), w')
  end.
Proof.
  unfold FetchSlideImages, bind, wrap_err, client_Do.
  destruct (http_Do env (clock w) urlStr None) as [msg|status body].
  - eexists. reflexivity.
  - intros Hstatus. destruct (Z.eqb_spec status 200) as [|_]; [done|]. simpl.
    eexists. reflexivity.
Qed.

(** C4, as the code has it.  For a URL that passes validation: when the page
    request fails in transport, the pipeline returns a 500 error; when the
    page answers with a status other than 200, the pipeline returns an error
    that carries that very status (a 404 page gives a 404 error), which is
    the status the request ends with. *)
Theorem page_fetch_failure env urlStr conversionType qualityType sched w u :
  url_Parse env urlStr = Some u ->
  Host u = "www.slideshare.net" ->
  (2 <= length (pathParts u))%nat ->
  match http_Do env (clock w) urlStr None with
  | TransportError _ =>
      exists w',
        GetSlidesDownloadLink env urlStr conversionType qualityType sched w
        = Some (Err (CustomAPIError 500 "Failed to fetch the presentation page"), w')
  | Response status _ =>
      status <> 200 ->
      exists w',
        GetSlidesDownloadLink env urlStr conversionType qualityType sched w
        = Some (Err (CustomAPIError status "Failed to fetch the presentation page"), w') /\
        customErrorHandler (CustomAPIError status "Failed to fetch the presentation page")
        = (status, "Failed to fetch the presentation page")
  end.
Proof.
  intros Hparse Hhost Hlen.
  unfold GetSlidesDownloadLink, ValidateURL. rewrite Hparse, Hhost. simpl.
  destruct (Nat.ltb_spec (length (pathParts u)) 2) as [|_]; [lia|].
  pose proof (FetchSlideImages_failure env urlStr w) as Hfail.
  destruct (http_Do env (clock w) urlStr None) as [msg|status body].
  - destruct Hfail as [w' Hw']. exists w'. by apply bindB_lift_err.
  - intros Hstatus. destruct (Hfail Hstatus) as [w' Hw']. exists w'.
    split; [by apply bindB_lift_err | done].
Qed.

Lemma page_fetch_failure_witness :
  exists w',
    GetSlidesDownloadLink Demo.env "https://www.slideshare.net/slideshow/removed/7"
      PDF HD [] Demo.w0
    = Some (Err (CustomAPIError 404 "Failed to fetch the presentation page"), w') /\
    customErrorHandler (CustomAPIError 404 "Failed to fetch the presentation page")
    = (404, "Failed to fetch the presentation page").
Proof.
  refine (page_fetch_failure Demo.env "https://www.slideshare.net/slideshow/removed/7"
            PDF HD [] Demo.w0 {| Host := "www.slideshare.net"; Path := "/slideshow/removed/7" |}
            _ _ _ _).
  - vm_compute. reflexivity.
  - reflexivity.
  - vm_compute. lia.
  - discriminate.
Defined.

(** The claim as the specification states it fails on a page that answers
    404: the request ends with status 404, not 500. *)
Lemma page_fetch_failure_counterexample :
  exists body e w',
    http_Do Demo.env 0 "https://www.slideshare.net/slideshow/removed/7" None
      = Response 404 body /\
    GetSlidesDownloadLink Demo.env "https://www.slideshare.net/slideshow/removed/7"
      PDF HD [] Demo.w0 = Some (Err e, w') /\
    fst (customErrorHandler e) = 404 /\
    fst (customErrorHandler e) <> 500.
Proof.
  eexists _, _, _. split; [vm_compute; reflexivity|].
  split; [vm_compute; reflexivity|]. split; [reflexivity | discriminate].
Qed.

(** ** C5: one fetch task *)

(** C5, as the code has it.  A fetch task calls the client once, with the
    20 second timeout, and never a second time.  What that one call puts on
    the wire are GETs for the task's URL: five at most, because the client,
    built without options, sends an idempotent request again when its
    connection fails, and one at least when an answer has come.  The task
    fails exactly when the call fails in transport (a timeout included), the
    status is not 200, the body does not decode as an image, the temporary
    file cannot be created, or the JPEG cannot be encoded and written.  When
    it succeeds it returns the (non-empty) name of a file that did not exist
    before and now holds the decoded image re-encoded as JPEG at quality
    90. *)
Theorem fetch_task env url w :
  let sends := client_sends env (clock w) url (Some 20) in
  (trace (snd (fetchImage env url w))
     = trace w ++ replicate sends (HttpGet url (Some 20)) \/
   trace (snd (fetchImage env url w))
     = trace w ++ replicate sends (HttpGet url (Some 20)) ++ [ImageDecode]) /\
  (sends <= 5)%nat /\
  (forall status body,
     http_Do env (clock w) url (Some 20) = Response status body -> (1 <= sends)%nat) /\
  (is_ok (fst (fetchImage env url w)) = false <-> fetch_fails env url w) /\
  (forall name, fst (fetchImage env url w) = Ok name ->
     fetched env url name w (snd (fetchImage env url w))).
Proof.
  intros sends. split; [rewrite fetchImage_trace; apply fetch_decode_trace|].
  split; [apply client_sends_le|]. split.
  { intros status body Hhttp. by eapply client_sends_ge. }
  split.
  - unfold fetchImage, fetch_fails, fetch_decode, encode_into, bind, wrap_err, client_Do,
      throw, ret, pure.
    destruct (http_Do env (clock w) url (Some 20)) as [msg|status body]; [done|].
    destruct (Z.eqb_spec status 200) as [->|Hne]; simpl; [|by split; [left|]].
    destruct (image_Decode env body) as [img|e0]; [|by split; [right|]].
    destruct (os_CreateTemp env "" "slide-" ".jpg" _) as [[tmp|e1] w2];
      [|by split; [right|]].
    destruct (jpeg_Encode env (imaging_Clone env img) 90) as [data|e2]; simpl;
      [|by split; [right; left|]].
    unfold file_Write.
    destruct (syscall_fault env (clock w2)) as [msg|]; simpl.
    + split; [by right; right|done].
    + split; [done|]. intros [|[|]]; done.
  - intros name Hname. destruct (fetchImage env url w) as [r w'] eqn:Hf.
    simpl in Hname. subst r. apply fetchImage_ok in Hf. by destruct Hf.
Qed.

(** The specification's sentence is not the code's.  An image served with
    status 201 (a 2xx status, a body that decodes) is refused; an image too
    wide for JPEG fails after a 200 answer that decodes; and one task whose
    server closes every connection puts five GETs on the wire, not one. *)
Lemma fetch_task_counterexample :
  ~ (is_ok (fst (fetchImage Demo.env "created.png" Demo.w0)) = false
     <-> fails_as_specified Demo.env "created.png" Demo.w0) /\
  ~ (is_ok (fst (fetchImage Demo.env "wide.png" Demo.w0)) = false
     <-> fails_as_specified Demo.env "wide.png" Demo.w0) /\
  trace (snd (fetchImage Demo.env "flaky.jpg" Demo.w0))
  = replicate 5 (HttpGet "flaky.jpg" (Some 20)).
Proof.
  split; [|split]; [intros [H _]..|].
  - assert (Hfail : is_ok (fst (fetchImage Demo.env "created.png" Demo.w0)) = false)
      by (vm_compute; reflexivity).
    apply H in Hfail. unfold fails_as_specified in Hfail.
    assert (Hresp : http_Do Demo.env (clock Demo.w0) "created.png" (Some 20)
                    = Response 201 (Demo.source_image 4 3 [x06])) by (vm_compute; reflexivity).
    rewrite Hresp in Hfail. destruct Hfail as [Hs|Hd]; [apply Hs; lia|].
    vm_compute in Hd. discriminate.
  - assert (Hfail : is_ok (fst (fetchImage Demo.env "wide.png" Demo.w0)) = false)
      by (vm_compute; reflexivity).
    apply H in Hfail. unfold fails_as_specified in Hfail.
    assert (Hresp : http_Do Demo.env (clock Demo.w0) "wide.png" (Some 20)
                    = Response 200 (Demo.source_image 65536 1 [])) by (vm_compute; reflexivity).
    rewrite Hresp in Hfail. destruct Hfail as [Hs|Hd]; [apply Hs; lia|].
    vm_compute in Hd. discriminate.
  - vm_compute. reflexivity.
Qed.

(** ** C1: what a failed fetch stage leaves behind *)

(** C1 does not hold of the code.  Two URLs, the second an image too wide
    for JPEG: the call fails with the 500 error and removes the file of the
    first task, but the file the second task created before its encoder
    failed is still there when the call returns. *)
Theorem failed_fetch_leaves_a_file :
  exists w',
    fetchImagesConcurrently Demo.env ["s1-2048.jpg"; "wide.png"] 25000 [0; 1; 0; 1; 0; 1; 0; 1]%nat Demo.w0
    = Some (Err (CustomAPIError 500
                   "Failed to fetch images: jpeg: image is too large to encode"), w') /\
    files Demo.w0 = ∅ /\
    files w' !! "/tmp/slide-2.jpg" = None /\
    files w' !! "/tmp/slide-3.jpg" = Some [].
Proof.
  eexists. split; [vm_compute; reflexivity|].
  split; [reflexivity|]. split; vm_compute; reflexivity.
Qed.

(** * Further properties of the program *)

Create HintDb quiet.

(** Membership in a list that is written out. *)
Ltac in_list := repeat first [by left | right].

(** ** The semaphore of [fetchImagesConcurrently] *)

Section Semaphore.

Context (env : Env) (urls : list string) (maxConcurrency : Z).

Lemma units_held_insert ts : forall i t t',
  ts !! i = Some t ->
  units_held (<[i := t']> ts)
  = units_held ts - (if in_flight t then 1 else 0) + (if in_flight t' then 1 else 0).
Proof.
  unfold units_held. induction ts as [|a ts IH]; intros [|i] t t' H; simpl in *; try done.
  - injection H as ->. destruct (in_flight t), (in_flight t'); simpl; lia.
  - specialize (IH i t t' H). destruct (in_flight a); simpl; lia.
Qed.

Lemma units_held_idle ts :
  (forall i t, ts !! i = Some t -> in_flight t = false) -> units_held ts = 0.
Proof.
  unfold units_held. induction ts as [|a ts IH]; intros H; [done|]. simpl.
  rewrite (H 0%nat a eq_refl). apply IH. intros i t Ht. apply (H (S i) t Ht).
Qed.

Lemma pool_step_sem i p w :
  sem_inv maxConcurrency p ->
  sem_inv maxConcurrency (fst (pool_step env urls maxConcurrency i (p, w))).
Proof.
  intros [Hheld Hmax]. unfold sem_inv, pool_step.
  destruct (tasks p !! i) as [st|] eqn:Ht; [|done].
  destruct (urls !! i) as [url|]; [|by destruct st].
  destruct st as [| |img|img tmp|]; simpl.
  - destruct (Z.leb_spec 1 (maxConcurrency - sem_cur p)); [|done]. simpl.
    rewrite (units_held_insert _ _ _ _ Ht). simpl. lia.
  - destruct (fetch_decode env url w) as [[img|err] w1]; simpl;
      rewrite (units_held_insert _ _ _ _ Ht); simpl; lia.
  - destruct (os_CreateTemp env "" "slide-" ".jpg" w) as [[tmp|err] w1]; simpl;
      rewrite (units_held_insert _ _ _ _ Ht); simpl; lia.
  - destruct (encode_into env tmp img w) as [[name|err] w1]; simpl;
      rewrite (units_held_insert _ _ _ _ Ht); simpl; lia.
  - done.
Qed.

Lemma run_schedule_sem sched : forall s,
  sem_inv maxConcurrency (fst s) ->
  sem_inv maxConcurrency (fst (run_schedule env urls maxConcurrency sched s)).
Proof.
  induction sched as [|i sched IH]; intros [p w] H; [done|].
  rewrite run_schedule_cons. apply IH. by apply pool_step_sem.
Qed.

Lemma sem_inv_init n : sem_inv maxConcurrency (init_pool n).
Proof.
  split; simpl; [|lia]. symmetry. apply units_held_idle.
  intros i t [-> _]%lookup_replicate. done.
Qed.

End Semaphore.

(** X6.  At every point of every schedule the semaphore counts the goroutines
    that are inside [fetchImage] (past [sem.Acquire], before the deferred
    [sem.Release]), and there are never more of them than [maxConcurrency]. *)
Theorem semaphore_bounds_fetches env urls maxConcurrency sched w :
  let p := fst (run_schedule env urls maxConcurrency sched (init_pool (length urls), w)) in
  Z.of_nat (length (List.filter in_flight (tasks p))) = sem_cur p /\
  sem_cur p <= Z.max 0 maxConcurrency.
Proof.
  intros p.
  destruct (run_schedule_sem env urls maxConcurrency sched (init_pool (length urls), w)
              (sem_inv_init maxConcurrency (length urls))) as [H1 H2].
  split; [symmetry; exact H1 | exact H2].
Qed.

Section Progress.

Context (env : Env) (urls : list string) (maxConcurrency : Z).

(** Without a free unit a waiting goroutine stays where it is. *)
Lemma pool_step_blocked i p w :
  tasks p !! i = Some Waiting -> ~ (1 <= maxConcurrency - sem_cur p) ->
  pool_step env urls maxConcurrency i (p, w) = (p, w).
Proof.
  intros Ht Hfull. unfold pool_step. rewrite Ht. destruct (urls !! i); [|done].
  destruct (Z.leb_spec 1 (maxConcurrency - sem_cur p)); [lia | done].
Qed.

(** The turn of goroutine [k] in [one_by_one]: it runs to its end, unless it
    is waiting and the semaphore is full. *)
Lemma turn k p w st url :
  tasks p !! k = Some st -> urls !! k = Some url ->
  let s' := run_schedule env urls maxConcurrency (replicate 4 k) (p, w) in
  (tasks (fst s') = <[k := Finished]> (tasks p) /\
   sem_cur (fst s') = sem_cur p - (if in_flight st then 1 else 0) /\
   (st = Waiting -> 1 <= maxConcurrency - sem_cur p)) \/
  (st = Waiting /\ ~ (1 <= maxConcurrency - sem_cur p) /\ s' = (p, w)).
Proof.
  intros Ht Hu s'.
  assert (st = Waiting \/ st <> Waiting) as [->|Hst] by (destruct st; (by left) || (by right)).
  - destruct (decide (1 <= maxConcurrency - sem_cur p)) as [Hroom|Hfull].
    + left. subst s'. change (replicate 4 k) with ([k] ++ replicate 3 k).
      rewrite run_schedule_app.
      assert (Hstep1 : run_schedule env urls maxConcurrency [k] (p, w) =
        ({| sem_cur := sem_cur p + 1; tasks := <[k := Acquired]> (tasks p);
            results := results p; errors := errors p |}, w)).
      { unfold run_schedule, pool_step. simpl. rewrite Ht, Hu.
        destruct (Z.leb_spec 1 (maxConcurrency - sem_cur p)); [done | lia]. }
      rewrite Hstep1.
      set (p1 := {| sem_cur := sem_cur p + 1; tasks := <[k := Acquired]> (tasks p);
                    results := results p; errors := errors p |}).
      assert (Hk : (k < length (tasks p))%nat) by (by eapply lookup_lt_Some).
      assert (Hrun : tasks p1 !! k = Some Acquired).
      { simpl. rewrite list_lookup_insert_eq; [done | lia]. }
      destruct (run_to_end env urls maxConcurrency k url 3 Acquired p1 w Hu Hrun)
        as [Htasks2 Hsem2]; [done | simpl; lia |].
      rewrite Htasks2, Hsem2. simpl. rewrite list_insert_insert_eq.
      split; [done|]. split; [lia | done].
    + right. split; [done|]. split; [done|]. subst s'.
      change (replicate 4 k) with [k; k; k; k].
      rewrite !run_schedule_cons, !pool_step_blocked by done. done.
  - left. subst s'.
    destruct (run_to_end env urls maxConcurrency k url 4 st p w Hu Ht Hst) as [H1 H2].
    { destruct st; simpl; lia. }
    rewrite H1, H2. split; [done|]. split; [|done]. destruct st; simpl; (done || lia).
Qed.

Lemma one_by_one_succ k m :
  one_by_one k (S m) = replicate 4 k ++ one_by_one (S k) m.
Proof. reflexivity. Qed.

(** After one round of [one_by_one] no goroutine is in flight. *)
Lemma one_by_one_drains m : forall k p w,
  length (tasks p) = length urls ->
  (k + m = length urls)%nat ->
  (forall i t, (i < k)%nat -> tasks p !! i = Some t -> in_flight t = false) ->
  let p' := fst (run_schedule env urls maxConcurrency (one_by_one k m) (p, w)) in
  length (tasks p') = length urls /\
  forall i t, tasks p' !! i = Some t -> in_flight t = false.
Proof.
  induction m as [|m IH]; intros k p w Hlen Hkm Hidle p'.
  - subst p'. simpl. split; [done|]. intros i t Ht. apply (Hidle i t); [|done].
    apply lookup_lt_Some in Ht. lia.
  - subst p'. rewrite one_by_one_succ, run_schedule_app.
    assert (Hk : (k < length urls)%nat) by lia.
    destruct (lookup_lt_is_Some_2 urls k Hk) as [url Hurl].
    destruct (lookup_lt_is_Some_2 (tasks p) k) as [st Hst]; [lia|].
    destruct (turn k p w st url Hst Hurl) as [(Htasks & _ & _)|(-> & _ & Hsame)].
    + destruct (run_schedule env urls maxConcurrency (replicate 4 k) (p, w)) as [p1 w1].
      simpl in Htasks. apply IH.
      * by rewrite Htasks, length_insert.
      * lia.
      * intros i t Hi. rewrite Htasks. destruct (decide (i = k)) as [->|Hne].
        -- rewrite list_lookup_insert_eq by lia. by intros [= <-].
        -- rewrite list_lookup_insert_ne by done. apply Hidle. lia.
    + rewrite Hsame. apply IH; [done | lia |].
      intros i t Hi Ht. destruct (decide (i = k)) as [->|Hne].
      * rewrite Hst in Ht. by injection Ht as <-.
      * apply (Hidle i t); [lia | done].
Qed.

(** With no goroutine in flight and room for one, a round of [one_by_one]
    finishes them all. *)
Lemma one_by_one_finishes m : forall k p w,
  1 <= maxConcurrency ->
  sem_cur p = 0 ->
  length (tasks p) = length urls ->
  (k + m = length urls)%nat ->
  (forall i, (i < k)%nat -> tasks p !! i = Some Finished) ->
  (forall i t, tasks p !! i = Some t -> in_flight t = false) ->
  forall i, (i < length urls)%nat ->
    tasks (fst (run_schedule env urls maxConcurrency (one_by_one k m) (p, w))) !! i
    = Some Finished.
Proof.
  induction m as [|m IH]; intros k p w Hmax Hsem Hlen Hkm Hdone Hidle i Hi.
  - simpl. apply Hdone. lia.
  - rewrite one_by_one_succ, run_schedule_app.
    assert (Hk : (k < length urls)%nat) by lia.
    destruct (lookup_lt_is_Some_2 urls k Hk) as [url Hurl].
    destruct (lookup_lt_is_Some_2 (tasks p) k) as [st Hst]; [lia|].
    destruct (turn k p w st url Hst Hurl) as [(Htasks & Hsem' & _)|(_ & Hfull & _)]; [|lia].
    destruct (run_schedule env urls maxConcurrency (replicate 4 k) (p, w)) as [p1 w1].
    simpl in Htasks, Hsem'. rewrite (Hidle k st Hst) in Hsem'.
    apply IH; try done; try lia.
    + by rewrite Htasks, length_insert.
    + intros j Hj. rewrite Htasks. destruct (decide (j = k)) as [->|Hne].
      * rewrite list_lookup_insert_eq; [done | lia].
      * rewrite list_lookup_insert_ne by done. apply Hdone. lia.
    + intros j t. rewrite Htasks. destruct (decide (j = k)) as [->|Hne].
      * rewrite list_lookup_insert_eq by lia. by intros [= <-].
      * rewrite list_lookup_insert_ne by done. apply Hidle.
Qed.

(** From every state the goroutines can reach, two rounds of [one_by_one]
    finish them all. *)
Lemma two_rounds_finish sched w :
  1 <= maxConcurrency ->
  forallb is_finished
    (tasks (fst (run_schedule env urls maxConcurrency
                   (sched ++ one_by_one 0 (length urls) ++ one_by_one 0 (length urls))
                   (init_pool (length urls), w)))) = true.
Proof.
  intros Hmax. rewrite !run_schedule_app.
  destruct (run_schedule env urls maxConcurrency sched (init_pool (length urls), w))
    as [p1 w1] eqn:Hrun1.
  pose proof (run_schedule_inv env urls maxConcurrency w _ _ _ _ _
                (pool_inv_init env urls w) Hrun1) as Hinv1.
  pose proof (run_schedule_sem env urls maxConcurrency sched (init_pool (length urls), w)
                (sem_inv_init maxConcurrency (length urls))) as Hsem1.
  rewrite Hrun1 in Hsem1. simpl in Hsem1.
  pose proof (one_by_one_drains (length urls) 0 p1 w1 (inv_tasks _ _ _ _ _ Hinv1) eq_refl)
    as Hdrain.
  pose proof (run_schedule_sem env urls maxConcurrency (one_by_one 0 (length urls))
                (p1, w1) Hsem1) as Hsem2.
  destruct (run_schedule env urls maxConcurrency (one_by_one 0 (length urls)) (p1, w1))
    as [p2 w2].
  simpl in Hdrain, Hsem2. destruct Hdrain as [Hlen2 Hidle2]; [intros; lia|].
  destruct Hsem2 as [Hheld2 _]. rewrite (units_held_idle _ Hidle2) in Hheld2.
  pose proof (one_by_one_finishes (length urls) 0 p2 w2 Hmax Hheld2 Hlen2 eq_refl) as Hfin.
  destruct (run_schedule env urls maxConcurrency (one_by_one 0 (length urls)) (p2, w2))
    as [p3 w3] eqn:Hrun3.
  simpl in Hfin. apply forallb_is_finished. intros i Hi. apply Hfin.
  - intros; lia.
  - exact Hidle2.
  - assert (Hlen3 : length (tasks p3) = length urls).
    { destruct (one_by_one_drains (length urls) 0 p2 w2 Hlen2 eq_refl) as [H _];
        [intros; lia|]. by rewrite Hrun3 in H. }
    simpl in Hi. lia.
Qed.

(** Without a unit to give, no goroutine ever starts. *)
Lemma run_schedule_stuck sched w :
  maxConcurrency <= 0 ->
  run_schedule env urls maxConcurrency sched (init_pool (length urls), w)
  = (init_pool (length urls), w).
Proof.
  intros Hmax. induction sched as [|i sched IH]; [done|].
  rewrite run_schedule_cons.
  replace (pool_step env urls maxConcurrency i (init_pool (length urls), w))
    with (init_pool (length urls), w); [done|].
  unfold pool_step.
  destruct (tasks (init_pool (length urls)) !! i) as [st|] eqn:Ht; [|done].
  apply lookup_replicate in Ht as [-> _].
  destruct (urls !! i); [|done]. simpl.
  destruct (Z.leb_spec 1 (maxConcurrency - 0)); [lia | done].
Qed.

End Progress.

(** X7.  No schedule leads [fetchImagesConcurrently] into a deadlock: with
    room for at least one goroutine in the semaphore, whatever the goroutines
    have done so far, letting each of them run in turn, twice over, brings
    them all to their end, and the call returns. *)
Theorem fetch_can_always_return env urls maxConcurrency sched w :
  1 <= maxConcurrency ->
  exists r w',
    fetchImagesConcurrently env urls maxConcurrency
      (sched ++ one_by_one 0 (length urls) ++ one_by_one 0 (length urls)) w
    = Some (r, w').
Proof.
  intros Hmax. unfold fetchImagesConcurrently.
  pose proof (two_rounds_finish env urls maxConcurrency sched w Hmax) as Hfin.
  destruct (run_schedule env urls maxConcurrency _ _) as [p w1].
  simpl in Hfin. rewrite Hfin. destruct (collect_results p w1) as [r w']. eauto.
Qed.

(** X8.  A semaphore of size zero or less lets no goroutine in: for a
    non-empty URL list [wg.Wait()] does not return, under any schedule. *)
Theorem fetch_blocks_without_capacity env urls maxConcurrency sched w :
  maxConcurrency <= 0 -> urls <> [] ->
  fetchImagesConcurrently env urls maxConcurrency sched w = None.
Proof.
  intros Hmax Hurls. unfold fetchImagesConcurrently.
  rewrite run_schedule_stuck by done.
  destruct urls as [|url urls']; done.
Qed.

(** ** The fetch stage: its requests, its result *)

Lemma fetch_nothing env maxConcurrency sched w :
  fetchImagesConcurrently env [] maxConcurrency sched w = Some (Ok [], w).
Proof.
  unfold fetchImagesConcurrently.
  replace (run_schedule env [] maxConcurrency sched (init_pool (length []), w))
    with (init_pool 0, w); [done|].
  induction sched as [|i sched IH]; [done|]. rewrite run_schedule_cons. exact IH.
Qed.

(** X11.  With no URL, [fetchImagesConcurrently] returns the empty list at
    once, whatever the ceiling and the schedule, and leaves the world as it
    is; [ConvertURLsToPDF] then answers with the 500 error "No images to
    convert to PDF": no file has been created and nothing uploaded. *)
Theorem no_urls_no_pdf env maxConcurrency pdfFilename sched w :
  fetchImagesConcurrently env [] maxConcurrency sched w = Some (Ok [], w) /\
  ConvertURLsToPDF env [] pdfFilename sched w
  = Some (Err (CustomAPIError 500 "No images to convert to PDF"), w).
Proof.
  split; [apply fetch_nothing|].
  unfold ConvertURLsToPDF, bindB. rewrite fetch_nothing. done.
Qed.

Lemma http_gets_app tr1 tr2 : http_gets (tr1 ++ tr2) = http_gets tr1 ++ http_gets tr2.
Proof. apply omap_app. Qed.

Lemma http_gets_replicate n url t :
  http_gets (replicate n (HttpGet url t)) = replicate n (url, t).
Proof. induction n as [|n IH]; [done|]. simpl. by rewrite <- IH. Qed.

Lemma sent_insert_same ts : forall urls calls i t t',
  ts !! i = Some t -> requested t = requested t' ->
  sent (<[i := t']> ts) urls calls = sent ts urls calls.
Proof.
  induction ts as [|a ts IH]; intros [|u urls] [|n calls] [|i] t t' Ht Hreq;
    simpl in *; try done.
  - injection Ht as ->. by rewrite Hreq.
  - by rewrite (IH urls calls i t t' Ht Hreq).
Qed.

Lemma sent_insert_new ts : forall urls calls i t t' url n,
  ts !! i = Some t -> urls !! i = Some url -> (i < length calls)%nat ->
  requested t = false -> requested t' = true ->
  sent (<[i := t']> ts) urls (<[i := n]> calls)
  ≡ₚ replicate n (url, Some 20) ++ sent ts urls calls.
Proof.
  induction ts as [|a ts IH]; intros [|u urls] [|m calls] [|i] t t' url n Ht Hu Hi Hf Ht';
    simpl in *; try done; try lia.
  - injection Ht as ->. injection Hu as ->. by rewrite Hf, Ht'.
  - pose proof (IH urls calls i t t' url n Ht Hu ltac:(lia) Hf Ht') as Hrest.
    rewrite Hrest. rewrite !app_assoc. apply Permutation_app_tail, Permutation_app_comm.
Qed.

Lemma sent_all ts : forall urls calls,
  length ts = length urls ->
  (forall i, (i < length urls)%nat -> ts !! i = Some Finished) ->
  sent ts urls calls = requests_of urls calls.
Proof.
  unfold requests_of.
  induction ts as [|a ts IH]; intros [|u urls] [|n calls] Hlen Hfin; simpl in *; try done.
  pose proof (Hfin 0%nat ltac:(lia)) as H0. simpl in H0. injection H0 as ->. simpl.
  f_equal. apply IH; [lia|]. intros i Hi. apply (Hfin (S i)). lia.
Qed.

Lemma sent_nothing n : forall urls calls, sent (replicate n Waiting) urls calls = [].
Proof.
  induction n as [|n IH]; intros [|u urls] [|m calls]; simpl; done.
Qed.

Section Requests.

Context (env : Env) (urls : list string) (maxConcurrency : Z) (w0 : World).

Lemma fetch_decode_gets url w :
  exists evs,
    trace (snd (fetch_decode env url w)) = trace w ++ evs /\
    http_gets evs = replicate (client_sends env (clock w) url (Some 20)) (url, Some 20).
Proof.
  destruct (fetch_decode_trace env url w) as [H|H]; rewrite H; eexists; (split; [done|]).
  - apply http_gets_replicate.
  - rewrite http_gets_app, http_gets_replicate. simpl. apply app_nil_r.
Qed.

Lemma encode_into_trace tmp img w :
  trace (snd (encode_into env tmp img w)) = trace w.
Proof.
  unfold encode_into, bind, pure, file_Write, ret.
  destruct (jpeg_Encode env (imaging_Clone env img) 90); [|done].
  by destruct (syscall_fault env (clock w)).
Qed.

Lemma remove_results_trace rs : forall w, trace (snd (remove_results rs w)) = trace w.
Proof.
  induction rs as [|file rs IH]; intros w; [done|].
  change (remove_results (file :: rs) w)
    with (bind (if String.eqb file "" then ret tt else ignore (os_Remove file))
               (fun _ => remove_results rs) w).
  unfold bind. destruct (String.eqb file ""); simpl; rewrite IH; [done|].
  unfold os_Remove. by destruct (files w !! file).
Qed.

(** A step of a goroutine that has made its call to the client, or has not
    come to it. *)
Lemma gets_inv_same i p w p' w' t t' :
  gets_inv urls w0 p w ->
  tasks p !! i = Some t -> requested t = requested t' ->
  tasks p' = <[i := t']> (tasks p) ->
  (forall j, errors p' !! j = Some None -> errors p !! j = Some None) ->
  trace w' = trace w ->
  gets_inv urls w0 p' w'.
Proof.
  intros (evs & calls & Htr & Hlen & Hle & Hge & Hperm) Ht Hreq Htasks Herrs Htr'.
  exists evs, calls. rewrite Htasks, Htr'. repeat split; try done.
  - intros j tj Hj Hrj Hej. destruct (decide (j = i)) as [->|Hne].
    + apply (Hge i t); [done| |by apply Herrs].
      rewrite list_lookup_insert_eq in Hj by (by eapply lookup_lt_Some).
      injection Hj as <-. congruence.
    + rewrite list_lookup_insert_ne in Hj by done. apply (Hge j tj); auto.
  - by rewrite (sent_insert_same _ _ _ _ t t').
Qed.

Lemma pool_step_gets i p w :
  gets_inv urls w0 p w ->
  gets_inv urls w0 (fst (pool_step env urls maxConcurrency i (p, w)))
                   (snd (pool_step env urls maxConcurrency i (p, w))).
Proof.
  intros Hinv. unfold pool_step.
  destruct (tasks p !! i) as [st|] eqn:Ht; [|done].
  destruct (urls !! i) as [url|] eqn:Hu; [|by destruct st].
  assert (Hset : forall err j, errors (finish_err p i err) !! j = Some None ->
            errors p !! j = Some None).
  { intros err j. simpl. destruct (decide (j = i)) as [->|Hne].
    - intros Hj. apply list_lookup_insert_Some in Hj as [(_ & [=] & _)|[? _]]; done.
    - by rewrite list_lookup_insert_ne. }
  destruct st as [| |img|img tmp|]; simpl.
  - destruct (Z.leb 1 (maxConcurrency - sem_cur p)); simpl; [|done].
    by eapply (gets_inv_same i p w _ _ Waiting Acquired).
  - destruct Hinv as (evs & calls & Htr & Hlen & Hle & Hge & Hperm).
    destruct (fetch_decode_gets url w) as (new & Hnew & Hgets).
    pose proof (fetch_decode_spec env url w) as Hspec.
    set (n := client_sends env (clock w) url (Some 20)) in *.
    assert (Hi : (i < length calls)%nat).
    { rewrite Hlen. by eapply lookup_lt_Some. }
    assert (Hsent : forall t', requested t' = true ->
              http_gets (evs ++ new) ≡ₚ sent (<[i := t']> (tasks p)) urls (<[i := n]> calls)).
    { intros t' Ht'. rewrite http_gets_app, Hgets, Hperm.
      rewrite (sent_insert_new _ _ _ _ Acquired t' url n Ht Hu Hi) by done.
      apply Permutation_app_comm. }
    assert (Hle' : Forall (fun n => (n <= 5)%nat) (<[i := n]> calls)).
    { apply Forall_insert; [done|]. apply client_sends_le. }
    assert (Hother : forall j tj t' (errs : list (option error)),
              j <> i -> <[i := t']> (tasks p) !! j = Some tj -> requested tj = true ->
              errs !! j = Some None -> (errs !! j = Some None -> errors p !! j = Some None) ->
              exists m, <[i := n]> calls !! j = Some m /\ (1 <= m)%nat).
    { intros j tj t' errs Hne Hj Hrj Hej Herrs.
      rewrite list_lookup_insert_ne in Hj by done. rewrite list_lookup_insert_ne by done.
      apply (Hge j tj); auto. }
    destruct (fetch_decode env url w) as [[img|err] w1]; simpl in *.
    + destruct (Hspec _ _ eq_refl) as (_ & _ & body & Hhttp & _).
      exists (evs ++ new), (<[i := n]> calls).
      rewrite length_insert, Hnew, Htr, app_assoc. repeat split; try done; [|by apply Hsent].
      intros j tj Hj Hrj Hej. destruct (decide (j = i)) as [->|Hne].
      * exists n. rewrite list_lookup_insert_eq by done. split; [done|].
        by eapply client_sends_ge.
      * by apply (Hother j tj (Decoded img) (errors p)).
    + exists (evs ++ new), (<[i := n]> calls).
      rewrite length_insert, Hnew, Htr, app_assoc. repeat split; try done; [|by apply Hsent].
      intros j tj Hj Hrj Hej. destruct (decide (j = i)) as [->|Hne].
      * apply list_lookup_insert_Some in Hej as [(_ & [=] & _)|[? _]]; done.
      * apply (Hother j tj Finished (<[i := Some err]> (errors p))); try done.
        by rewrite list_lookup_insert_ne.
  - pose proof (os_CreateTemp_spec env "" "slide-" ".jpg" w) as Hspec.
    destruct (os_CreateTemp env "" "slide-" ".jpg" w) as [[tmp|err] w1]; simpl;
      destruct (Hspec _ _ eq_refl) as (_ & Htr1 & _).
    + by eapply (gets_inv_same i p w _ _ (Decoded img) (Created img tmp)).
    + eapply (gets_inv_same i p w _ _ (Decoded img) Finished); try done. apply Hset.
  - pose proof (encode_into_trace tmp img w) as Htr1.
    destruct (encode_into env tmp img w) as [[name|err] w1]; simpl in *.
    + by eapply (gets_inv_same i p w _ _ (Created img tmp) Finished).
    + eapply (gets_inv_same i p w _ _ (Created img tmp) Finished); try done. apply Hset.
  - done.
Qed.

Lemma run_schedule_gets sched : forall p w,
  gets_inv urls w0 p w ->
  gets_inv urls w0 (fst (run_schedule env urls maxConcurrency sched (p, w)))
                   (snd (run_schedule env urls maxConcurrency sched (p, w))).
Proof.
  induction sched as [|i sched IH]; intros p w H; [done|].
  rewrite run_schedule_cons.
  pose proof (pool_step_gets i p w H) as H1.
  destruct (pool_step env urls maxConcurrency i (p, w)) as [p1 w1]. by apply IH.
Qed.

End Requests.


(** The first error of the [errors] slice is in its lowest failed slot. *)
Lemma first_error_spec (errs : list (option error)) err :
  first_error errs = Some err ->
  exists i, errs !! i = Some (Some err) /\
            forall j, (j < i)%nat -> errs !! j = Some None.
Proof.
  unfold first_error. induction errs as [|[e|] errs IH]; simpl; [done| |].
  - intros [= ->]. exists 0%nat. split; [done|]. intros j Hj. lia.
  - intros H. destruct (IH H) as (i & Hi & Hbefore). exists (S i). split; [done|].
    intros [|j] Hj; [done|]. apply Hbefore. lia.
Qed.

(** X10.  The loop after [wg.Wait()] decides by slot, not by time: the call
    succeeds exactly when no slot of [errors] is set, and then returns the
    [results] slice as it is; otherwise the error it reports is the one in
    the lowest slot that is set, that is, of the failed URL that stands
    first in the list, whichever task failed first. *)
Theorem fetch_reports_lowest_failed_slot env urls maxConcurrency sched w r w' :
  fetchImagesConcurrently env urls maxConcurrency sched w = Some (r, w') ->
  let p := fst (run_schedule env urls maxConcurrency sched (init_pool (length urls), w)) in
  match r with
  | Ok paths =>
      paths = results p /\ forall i, (i < length urls)%nat -> errors p !! i = Some None
  | Err e =>
      exists i err,
        errors p !! i = Some (Some err) /\
        (forall j, (j < i)%nat -> errors p !! j = Some None) /\
        e = CustomAPIError 500 ("Failed to fetch images: " +:+ Error err)
  end.
Proof.
  unfold fetchImagesConcurrently.
  pose proof (fun p w1 => run_schedule_inv env urls maxConcurrency w sched
                (init_pool (length urls)) w p w1 (pool_inv_init env urls w)) as Hpool.
  destruct (run_schedule env urls maxConcurrency sched (init_pool (length urls), w))
    as [p w1].
  specialize (Hpool p w1 eq_refl). simpl.
  destruct (forallb is_finished (tasks p)); [|done].
  unfold collect_results. destruct (first_error (errors p)) as [err|] eqn:Hfirst.
  - unfold bind, throw. pose proof (remove_results_ok (results p) w1) as Hok.
    destruct (remove_results (results p) w1) as [[|] w2]; [|done].
    intros [= <- _]. apply first_error_spec in Hfirst.
    destruct Hfirst as (i & Hi & Hbefore). eauto.
  - intros [= <- _]. split; [done|]. intros i Hi.
    destruct (lookup_lt_is_Some_2 (errors p) i) as [[e|] He]; [| |done].
    + by rewrite (inv_errors _ _ _ _ _ Hpool).
    + by destruct (proj1 (first_error_None _) Hfirst i e).
Qed.

(** ** The files of the fetch stage *)

Section TempNames.

Context (env : Env) (urls : list string) (maxConcurrency : Z) (w0 : World).

Lemma os_CreateTemp_name w name w' :
  os_CreateTemp env "" "slide-" ".jpg" w = (Ok name, w') -> temp_jpeg env name.
Proof.
  unfold os_CreateTemp. intros H. apply createTemp_try_spec in H.
  destruct H as (_ & _ & _ & _ & n & ->). by exists n.
Qed.

Lemma pool_step_names i p w :
  pool_inv env urls w0 p w ->
  new_files_are_temp env w0 w ->
  new_files_are_temp env w0 (snd (pool_step env urls maxConcurrency i (p, w))).
Proof.
  intros Hinv Hnew. unfold pool_step.
  destruct (tasks p !! i) as [st|] eqn:Ht; [|done].
  destruct (urls !! i) as [url|]; [|by destruct st].
  destruct st as [| |img|img tmp|]; simpl.
  - by destruct (Z.leb 1 (maxConcurrency - sem_cur p)).
  - pose proof (fetch_decode_spec env url w) as Hspec.
    destruct (fetch_decode env url w) as [[img|err] w1]; simpl;
      destruct (Hspec _ _ eq_refl) as (Hfiles & _); intros k; rewrite Hfiles; apply Hnew.
  - pose proof (os_CreateTemp_spec env "" "slide-" ".jpg" w) as Hspec.
    destruct (os_CreateTemp env "" "slide-" ".jpg" w) as [[tmp|err] w1] eqn:Hct; simpl;
      destruct (Hspec _ _ eq_refl) as (_ & _ & Hfiles).
    + destruct Hfiles as (_ & Hfiles & _). intros k Hk. rewrite Hfiles.
      destruct (decide (k = tmp)) as [->|Hne].
      * intros _. by eapply os_CreateTemp_name.
      * rewrite lookup_insert_ne by done. by apply Hnew.
    + intros k. rewrite Hfiles. apply Hnew.
  - pose proof (encode_into_spec env tmp img w) as Hspec.
    destruct (encode_into env tmp img w) as [[name|err] w1]; simpl;
      destruct (Hspec _ _ eq_refl) as (_ & Hfiles).
    + destruct Hfiles as (_ & data & _ & Hfiles). intros k Hk. rewrite Hfiles.
      destruct (decide (k = tmp)) as [->|Hne].
      * intros _. apply Hnew; [done|].
        destruct (inv_held _ _ _ _ _ Hinv i _ tmp Ht eq_refl) as (_ & _ & Hheld).
        by rewrite Hheld.
      * rewrite lookup_insert_ne by done. by apply Hnew.
    + intros k Hk Hsome.
      destruct (inv_held _ _ _ _ _ Hinv i _ tmp Ht eq_refl) as (_ & _ & Hheld).
      destruct Hfiles as [[_ Hf]|(data & n & _ & Hf)]; rewrite Hf in Hsome;
        [by apply Hnew|].
      destruct (decide (k = tmp)) as [->|Hne].
      * apply Hnew; [done | by rewrite Hheld].
      * rewrite lookup_insert_ne in Hsome by done. by apply Hnew.
  - done.
Qed.

Lemma run_schedule_names sched : forall p w,
  pool_inv env urls w0 p w ->
  new_files_are_temp env w0 w ->
  new_files_are_temp env w0 (snd (run_schedule env urls maxConcurrency sched (p, w))).
Proof.
  induction sched as [|i sched IH]; intros p w Hinv Hnew; [done|].
  rewrite run_schedule_cons.
  pose proof (pool_step_names i p w Hinv Hnew) as Hnew1.
  destruct (pool_step env urls maxConcurrency i (p, w)) as [p1 w1] eqn:Hstep.
  apply IH; [|done]. by eapply pool_step_inv.
Qed.

End TempNames.

(** X27.  The fetch stage writes nowhere but to its own temporary files: at
    every point of every schedule, and when [fetchImagesConcurrently] has
    returned, a file that was there before the call still has its bytes, and
    a file that was not is named [<TempDir>/slide-<number>.jpg]. *)
Theorem fetch_writes_only_temp_jpegs env urls maxConcurrency sched w :
  (let w1 := snd (run_schedule env urls maxConcurrency sched (init_pool (length urls), w)) in
   (forall k v, files w !! k = Some v -> files w1 !! k = Some v) /\
   (forall k, files w !! k = None -> is_Some (files w1 !! k) -> temp_jpeg env k)) /\
  (forall r w', fetchImagesConcurrently env urls maxConcurrency sched w = Some (r, w') ->
     (forall k v, files w !! k = Some v -> files w' !! k = Some v) /\
     (forall k, files w !! k = None -> is_Some (files w' !! k) -> temp_jpeg env k)).
Proof.
  assert (Hnames : new_files_are_temp env w
            (snd (run_schedule env urls maxConcurrency sched (init_pool (length urls), w)))).
  { apply run_schedule_names; [apply pool_inv_init|]. intros k Hk [v Hv]. congruence. }
  pose proof (fun p w1 => run_schedule_inv env urls maxConcurrency w sched
                (init_pool (length urls)) w p w1 (pool_inv_init env urls w)) as Hpool.
  split.
  - destruct (run_schedule env urls maxConcurrency sched (init_pool (length urls), w))
      as [p w1]. simpl in *. split; [|exact Hnames].
    apply (inv_old _ _ _ _ _ (Hpool p w1 eq_refl)).
  - intros r w'. unfold fetchImagesConcurrently.
    destruct (run_schedule env urls maxConcurrency sched (init_pool (length urls), w))
      as [p w1]. simpl in Hnames. specialize (Hpool p w1 eq_refl).
    destruct (forallb is_finished (tasks p)); [|done]. intros [= Hc].
    unfold collect_results in Hc.
    destruct (first_error (errors p)).
    + unfold bind, throw in Hc.
      pose proof (remove_results_lookup (results p) w1) as Hrm.
      destruct (remove_results (results p) w1) as [[|] w2]; injection Hc as _ <-;
        simpl in Hrm.
      all: split; [intros k v Hk | intros k Hk Hk']; rewrite Hrm in *.
      all: case_decide as Hin; [|by (apply (inv_old _ _ _ _ _ Hpool) || apply Hnames)].
      all: try by destruct Hk'.
      all: destruct Hin as [(i & Hi)%list_elem_of_lookup Hne].
      all: destruct (inv_slot _ _ _ _ _ Hpool i k Hi Hne) as (_ & url & _ & _ & H0 & _).
      all: congruence.
    + injection Hc as _ <-. split; [apply (inv_old _ _ _ _ _ Hpool) | exact Hnames].
Qed.

(** ** What a computation leaves alone *)

#[export] Instance files_timeless : Timeless files.
Proof. by intros w. Qed.
#[export] Instance remote_timeless : Timeless remote.
Proof. by intros w. Qed.
#[export] Instance trace_timeless : Timeless trace.
Proof. by intros w. Qed.
#[export] Instance visible_timeless : Timeless visible.
Proof. by intros w. Qed.
#[export] Instance remote_diskless : Diskless remote.
Proof. by intros f w. Qed.
#[export] Instance trace_diskless : Diskless trace.
Proof. by intros f w. Qed.
#[export] Instance remote_unlogged : Unlogged remote.
Proof. by intros e w. Qed.
#[export] Instance files_unlogged : Unlogged files.
Proof. by intros e w. Qed.
#[export] Instance remote_dirs_timeless : Timeless remote_dirs.
Proof. by intros w. Qed.
#[export] Instance remote_dirs_diskless : Diskless remote_dirs.
Proof. by intros f w. Qed.
#[export] Instance remote_dirs_unlogged : Unlogged remote_dirs.
Proof. by intros e w. Qed.
#[export] Instance files_dirless : Dirless files.
Proof. by intros d w. Qed.
#[export] Instance remote_dirless : Dirless remote.
Proof. by intros d w. Qed.
#[export] Instance trace_dirless : Dirless trace.
Proof. by intros d w. Qed.
#[export] Instance visible_dirless : Dirless visible.
Proof. by intros d w. Qed.

#[export] Hint Resolve files_timeless remote_timeless trace_timeless visible_timeless
  remote_diskless trace_diskless remote_unlogged files_unlogged
  remote_dirs_timeless remote_dirs_diskless remote_dirs_unlogged
  files_dirless remote_dirless trace_dirless visible_dirless : quiet.

Section Unchanged.

Context {X : Type} (proj : World -> X).

Lemma unchanged_ret {A} (a : A) : unchanged proj (ret a).
Proof. by intros w. Qed.

Lemma unchanged_throw {A} e : unchanged proj (@throw A e).
Proof. by intros w. Qed.

Lemma unchanged_pure {A} (r : Result A) : unchanged proj (pure r).
Proof. by intros w. Qed.

Lemma unchanged_bind {A C} (m : M A) (k : A -> M C) :
  unchanged proj m -> (forall a, unchanged proj (k a)) -> unchanged proj (bind m k).
Proof.
  intros Hm Hk w. unfold bind. specialize (Hm w).
  destruct (m w) as [[a|e] w1]; simpl in *; [|done].
  by rewrite Hk.
Qed.

Lemma unchanged_wrap_err {A} f (m : M A) : unchanged proj m -> unchanged proj (wrap_err f m).
Proof.
  intros Hm w. unfold wrap_err. specialize (Hm w).
  by destruct (m w) as [[a|e] w1].
Qed.

Lemma unchanged_ignore {A} (m : M A) : unchanged proj m -> unchanged proj (ignore m).
Proof. intros Hm w. apply Hm. Qed.

Lemma unchanged_defer {A C} (cleanup : M C) (body : M A) :
  unchanged proj cleanup -> unchanged proj body -> unchanged proj (defer cleanup body).
Proof.
  intros Hc Hb w. unfold defer. specialize (Hb w).
  destruct (body w) as [r w1]. simpl in *. by rewrite Hc.
Qed.

Lemma unchanged_for_each {A} (f : A -> M unit) xs :
  (forall x, unchanged proj (f x)) -> unchanged proj (for_each f xs).
Proof.
  intros Hf. induction xs as [|x xs IH]; simpl; [apply unchanged_ret|].
  by apply unchanged_bind.
Qed.

(** A step of a sequence that leaves [proj] alone can be skipped over. *)
Lemma bind_unchanged_inv {A C} (m : M A) (k : A -> M C) w r w' :
  unchanged proj m ->
  bind m k w = (r, w') ->
  (exists a w1, m w = (Ok a, w1) /\ proj w1 = proj w /\ k a w1 = (r, w')) \/
  (exists e, r = Err e /\ proj w' = proj w).
Proof.
  intros Hm H. specialize (Hm w). apply bind_inv in H.
  destruct H as [(a & w1 & Hmw & Hk)|(e & Hmw & ->)]; rewrite Hmw in Hm; simpl in Hm; eauto 6.
Qed.

Context (env : Env).

Lemma unchanged_syscall `{!Timeless proj} : unchanged proj (syscall env).
Proof. intros w. unfold syscall. destruct (syscall_fault env (clock w)); apply timeless. Qed.

Lemma unchanged_os_Open `{!Timeless proj} name : unchanged proj (os_Open env name).
Proof.
  apply unchanged_bind; [apply unchanged_syscall|]. intros _ w.
  by destruct (files w !! name).
Qed.

Lemma unchanged_file_Read `{!Timeless proj} name : unchanged proj (file_Read env name).
Proof.
  apply unchanged_bind; [apply unchanged_syscall|]. intros _ w.
  by destruct (files w !! name).
Qed.

Lemma unchanged_os_Stat_Size `{!Timeless proj} name : unchanged proj (os_Stat_Size env name).
Proof.
  apply unchanged_bind; [apply unchanged_syscall|]. intros _ w.
  by destruct (files w !! name).
Qed.

Lemma unchanged_file_Write `{!Timeless proj, !Diskless proj} name data :
  unchanged proj (file_Write env name data).
Proof.
  intros w. unfold file_Write.
  destruct (syscall_fault env (clock w)); simpl; rewrite diskless; apply timeless.
Qed.

Lemma unchanged_os_Remove `{!Timeless proj, !Diskless proj} name :
  unchanged proj (os_Remove name).
Proof.
  intros w. unfold os_Remove.
  destruct (files w !! name); simpl; rewrite ?diskless; apply timeless.
Qed.

Lemma unchanged_createTemp_try `{!Timeless proj, !Diskless proj} tries prefix suffix :
  unchanged proj (createTemp_try env tries prefix suffix).
Proof.
  induction tries as [|tries IH]; intros w; simpl; [done|].
  destruct (files w !! _).
  - rewrite IH. apply timeless.
  - destruct (syscall_fault env (clock w)); simpl; rewrite ?diskless; apply timeless.
Qed.

Lemma unchanged_os_CreateTemp `{!Timeless proj, !Diskless proj} dir prefix suffix :
  unchanged proj (os_CreateTemp env dir prefix suffix).
Proof. apply unchanged_createTemp_try. Qed.

Lemma unchanged_ftp `{!Timeless proj} c : unchanged proj (ftp env c).
Proof. intros w. unfold ftp. destruct (ftp_reply env (clock w) c); apply timeless. Qed.

Lemma unchanged_ftp_MakeDir `{!Timeless proj, !Dirless proj} cwd dir :
  unchanged proj (ftp_MakeDir env cwd dir).
Proof. apply unchanged_bind; [apply unchanged_ftp|]. intros _ w. apply dirless. Qed.

Lemma unchanged_ftp_enter_dirs_from `{!Timeless proj, !Dirless proj} dirs : forall cwd,
  unchanged proj (ftp_enter_dirs_from env cwd dirs).
Proof.
  induction dirs as [|dir rest IH]; intros cwd; simpl; [apply unchanged_ret|].
  destruct (String.eqb dir ""); [done|].
  apply unchanged_bind; [|done].
  intros w. pose proof (unchanged_ftp (FtpChangeDir dir) w) as H1.
  destruct (ftp env (FtpChangeDir dir) w) as [[|] w1]; [done|]. simpl in *.
  rewrite <- H1. apply unchanged_bind; [apply unchanged_ftp_MakeDir|].
  intros _. apply unchanged_ftp.
Qed.

Lemma unchanged_ftp_enter_dirs `{!Timeless proj, !Dirless proj} dirs :
  unchanged proj (ftp_enter_dirs env dirs).
Proof. apply unchanged_ftp_enter_dirs_from. Qed.

Lemma unchanged_remove_all `{!Timeless proj, !Diskless proj} paths :
  unchanged proj (remove_all paths).
Proof.
  apply unchanged_for_each. intros path. apply unchanged_ignore, unchanged_os_Remove.
Qed.

Lemma unchanged_remove_results `{!Timeless proj, !Diskless proj} rs :
  unchanged proj (remove_results rs).
Proof.
  apply unchanged_for_each. intros file.
  destruct (String.eqb file ""); [apply unchanged_ret | apply unchanged_ignore, unchanged_os_Remove].
Qed.

Lemma unchanged_client_Do `{!Timeless proj, !Unlogged proj} url t :
  unchanged proj (client_Do env url t).
Proof.
  intros w. unfold client_Do.
  destruct (http_Do env (clock w) url t); simpl; by rewrite timeless, unlogged.
Qed.

End Unchanged.

#[export] Hint Resolve unchanged_ret unchanged_throw unchanged_pure unchanged_bind
  unchanged_wrap_err unchanged_ignore unchanged_defer unchanged_for_each
  unchanged_syscall unchanged_os_Open unchanged_file_Read unchanged_os_Stat_Size
  unchanged_file_Write unchanged_os_Remove unchanged_os_CreateTemp unchanged_ftp
  unchanged_ftp_MakeDir unchanged_ftp_enter_dirs unchanged_remove_all
  unchanged_remove_results unchanged_client_Do : quiet.

(** ** The publisher *)

(** *** Paths: [strings.Split], [strings.Join], [filepath.Base] *)

Lemma list_ascii_of_string_app (s t : string) :
  list_ascii_of_string (s +:+ t) = list_ascii_of_string s ++ list_ascii_of_string t.
Proof. induction s as [|c s IH]; simpl; [done | by rewrite IH]. Qed.

Lemma takeWhile_app {A} (f : A -> bool) l x r :
  forallb f l = true -> f x = false -> takeWhile f (l ++ x :: r) = l.
Proof.
  induction l as [|a l IH]; simpl; intros Hl Hx; [by rewrite Hx|].
  apply andb_true_iff in Hl as [Ha Hl]. rewrite Ha. f_equal. by apply IH.
Qed.

Lemma forallb_rev {A} (f : A -> bool) l : forallb f (rev l) = forallb f l.
Proof.
  induction l as [|a l IH]; [done|]. simpl.
  rewrite forallb_app, IH. simpl. rewrite andb_true_r. apply andb_comm.
Qed.

Lemma no_slash_app s t : no_slash s -> no_slash t -> no_slash (s +:+ t).
Proof.
  unfold no_slash. intros Hs Ht. by rewrite list_ascii_of_string_app, forallb_app, Hs, Ht.
Qed.

Lemma base_of_rev (sep : ascii -> bool) l x r :
  l <> [] -> forallb (fun c => negb (sep c)) l = true -> sep x = true ->
  takeWhile (fun c => negb (sep c)) (trimLeft sep (l ++ x :: r)) = l.
Proof.
  intros Hl Hall Hx. destruct l as [|c l]; [done|]. simpl in *.
  apply andb_true_iff in Hall as [Hc Hall]. destruct (sep c) eqn:Hsc; [done|]. simpl.
  rewrite Hsc. simpl. f_equal. apply takeWhile_app; [done | by rewrite Hx].
Qed.

(** [filepath.Base] of [dir/name] is [name]. *)
Lemma filepath_Base_join dir name :
  name <> "" -> no_slash name -> filepath_Base (dir +:+ "/" +:+ name) = name.
Proof.
  intros Hne Hns. unfold filepath_Base.
  destruct (String.eqb_spec (dir +:+ "/" +:+ name) "") as [Hempty|_].
  { exfalso. revert Hempty. apply append_nonempty_r. by destruct name. }
  rewrite list_ascii_of_string_app.
  change (list_ascii_of_string ("/" +:+ name)) with ("/"%char :: list_ascii_of_string name).
  rewrite rev_app_distr. cbn [rev]. rewrite <- app_assoc. cbn [app].
  assert (Hnil : rev (list_ascii_of_string name) <> []).
  { intros Hl. apply Hne. apply (f_equal (@rev _)) in Hl. rewrite rev_involutive in Hl.
    by rewrite <- (string_of_list_ascii_of_string name), Hl. }
  rewrite (base_of_rev (Ascii.eqb "/"%char)); [|done|by rewrite forallb_rev|done].
  destruct (rev (list_ascii_of_string name)) as [|c l] eqn:Hl; [done|].
  rewrite <- Hl, rev_involutive. apply string_of_list_ascii_of_string.
Qed.

Lemma no_slash_cons c p :
  Ascii.eqb c "/"%char = false -> no_slash p -> no_slash (String c p).
Proof.
  unfold no_slash. intros Hc Hp. cbn [list_ascii_of_string forallb].
  by rewrite Ascii.eqb_sym, Hc, Hp.
Qed.

Lemma strings_Split_no_sep s : Forall no_slash (strings_Split s "/"%char).
Proof.
  induction s as [|c s IH]; cbn [strings_Split].
  - by constructor.
  - destruct (Ascii.eqb c "/"%char) eqn:Hc.
    + by constructor.
    + destruct (strings_Split s "/"%char) as [|p ps].
      * constructor; [by apply no_slash_cons | constructor].
      * inversion IH; subst. constructor; [by apply no_slash_cons | done].
Qed.

Lemma docShort_no_slash u : (2 <= length (pathParts u))%nat -> no_slash (docShort_of (pathParts u)).
Proof.
  intros Hlen. destruct (second_to_last _ Hlen) as (before & last & Hparts).
  pose proof (strings_Split_no_sep (strings_Trim (Path u) "/")) as Hall.
  fold (pathParts u) in Hall. rewrite Hparts in Hall.
  apply Forall_app in Hall as [_ Hall]. by inversion Hall.
Qed.

Section SplitJoin.

Lemma strings_Split_nonempty s sep : strings_Split s sep <> [].
Proof.
  induction s as [|c s IH]; cbn [strings_Split]; [done|].
  destruct (Ascii.eqb c sep); [done|]. by destruct (strings_Split s sep).
Qed.

Lemma strings_Split_whole a : no_slash a -> strings_Split a "/"%char = [a].
Proof.
  unfold no_slash. induction a as [|c a IH]; cbn [strings_Split list_ascii_of_string forallb];
    [done|].
  intros [Hc Ha]%andb_true_iff. rewrite Ascii.eqb_sym. apply negb_true_iff in Hc.
  rewrite Hc, (IH Ha). done.
Qed.

Lemma strings_Split_app a rest :
  no_slash a -> strings_Split (a +:+ "/" +:+ rest) "/"%char = a :: strings_Split rest "/"%char.
Proof.
  unfold no_slash. induction a as [|c a IH]; [done|].
  cbn [list_ascii_of_string forallb]. intros [Hc Ha]%andb_true_iff.
  change (String c a +:+ "/" +:+ rest) with (String c (a +:+ "/" +:+ rest)).
  cbn [strings_Split]. rewrite Ascii.eqb_sym. apply negb_true_iff in Hc.
  rewrite Hc, (IH Ha). done.
Qed.

(** Splitting what was joined gives the pieces back. *)
Lemma strings_Split_Join l :
  l <> [] -> Forall no_slash l -> strings_Split (strings_Join l "/") "/"%char = l.
Proof.
  unfold strings_Join. induction l as [|a [|b l] IH]; intros Hne Hall; [done| |].
  - apply strings_Split_whole. by inversion Hall.
  - inversion Hall as [|? ? Ha Hrest]; subst.
    change (String.concat "/" (a :: b :: l)) with (a +:+ "/" +:+ String.concat "/" (b :: l)).
    rewrite strings_Split_app by done. f_equal. by apply IH.
Qed.

(** Joining what was split gives the string back. *)
Lemma strings_Join_Split s : strings_Join (strings_Split s "/"%char) "/" = s.
Proof.
  unfold strings_Join. induction s as [|c s IH]; [done|]. cbn [strings_Split].
  pose proof (strings_Split_nonempty s "/"%char) as Hne.
  destruct (Ascii.eqb_spec c "/"%char) as [->|Hc].
  - destruct (strings_Split s "/"%char) as [|p ps]; [done|].
    change (String.concat "/" ("" :: p :: ps)) with ("/" +:+ String.concat "/" (p :: ps)).
    by rewrite IH.
  - destruct (strings_Split s "/"%char) as [|p ps]; [done|].
    rewrite <- IH. by destruct ps.
Qed.

Lemma Forall_removelast {A} (P : A -> Prop) l : Forall P l -> Forall P (removelast l).
Proof.
  induction 1 as [|x l Hx Hl IH]; [done|]. simpl. destruct l; [done|]. by constructor.
Qed.

End SplitJoin.

Section Publisher.

Context (env : Env).

(** Up to [STOR] the files, local and remote, and the log stay as they
    are; a [STOR] that fails leaves the remote file as it was or with the
    beginning of the local one. *)
Lemma uploadToFTP_spec filePath remotePath w r w' :
  uploadToFTP env filePath remotePath w = (r, w') ->
  files w' = files w /\
  match r with
  | Ok _ => exists data,
      files w !! filePath = Some data /\
      remote w' = <[remotePath := data]> (remote w) /\
      trace w' = trace w ++ [FtpStor remotePath]
  | Err _ =>
      trace w' = trace w /\
      (remote w' = remote w \/
       exists data n,
         files w !! filePath = Some data /\
         remote w' = <[remotePath := take n data]> (remote w))
  end.
Proof.
  intros H. split.
  { pose proof (keeps_uploadToFTP env filePath remotePath w) as Hk. by rewrite H in Hk. }
  unfold uploadToFTP in H.
  assert (Hvis : forall v v', visible v = visible v' ->
            files v = files v' /\ remote v = remote v' /\ trace v = trace v').
  { intros v v' Hv. by injection Hv. }
  assert (Hfail : forall v, visible v = visible w ->
            trace v = trace w /\
            (remote v = remote w \/
             exists data n,
               files w !! filePath = Some data /\
               remote v = <[remotePath := take n data]> (remote w))).
  { intros v Hv. destruct (Hvis _ _ Hv) as (_ & ? & ?). auto. }
  apply (bind_unchanged_inv visible) in H; [|eauto with quiet].
  destruct H as [(ftpPort & w1 & _ & H1 & H)|(e & -> & He)]; [|by apply Hfail].
  apply (bind_unchanged_inv visible) in H; [|eauto with quiet].
  destruct H as [([] & w2 & _ & H2 & H)|(e & -> & He)]; [|apply Hfail; congruence].
  apply (bind_unchanged_inv visible) in H; [|eauto with quiet].
  destruct H as [([] & w3 & _ & H3 & H)|(e & -> & He)]; [|apply Hfail; congruence].
  apply (bind_unchanged_inv visible) in H; [|eauto with quiet].
  destruct H as [([] & w4 & _ & H4 & H)|(e & -> & He)]; [|apply Hfail; congruence].
  apply (bind_unchanged_inv visible) in H; [|eauto with quiet].
  destruct H as [([] & w5 & _ & H5 & H)|(e & -> & He)]; [|apply Hfail; congruence].
  apply (bind_unchanged_inv visible) in H; [|eauto with quiet].
  destruct H as [(file & w6 & Hopen & H6 & H)|(e & -> & He)]; [|apply Hfail; congruence].
  apply os_Open_ok in Hopen as (-> & _).
  apply (bind_unchanged_inv visible) in H; [|eauto with quiet].
  destruct H as [(data & w7 & Hread & H7 & H)|(e & -> & He)]; [|apply Hfail; congruence].
  apply file_Read_ok in Hread as (_ & _ & Hdata).
  assert (Hw7 : visible w7 = visible w) by congruence.
  assert (Hw6 : visible w6 = visible w) by congruence.
  destruct (Hvis _ _ Hw7) as (_ & Hr7 & Ht7).
  destruct (Hvis _ _ Hw6) as (Hf6 & _ & _). rewrite Hf6 in Hdata.
  unfold ftp_Stor in H.
  destruct (ftp_reply env (clock w7) _).
  - destruct (ftp_kept env (clock w7)) as [n|]; injection H as <- <-; simpl.
    + split; [done|]. right. exists data, n. by rewrite Hr7.
    + split; [done|]. by left.
  - injection H as <- <-. simpl. exists data. by rewrite Hr7, Ht7.
Qed.

Lemma makes_dirs_unchanged {A} ds (m : M A) : unchanged remote_dirs m -> makes_dirs_in ds m.
Proof. intros H w. rewrite H. split; [done | apply union_subseteq_l]. Qed.

Lemma makes_dirs_bind {A C} ds (m : M A) (k : A -> M C) :
  makes_dirs_in ds m -> (forall a, makes_dirs_in ds (k a)) -> makes_dirs_in ds (bind m k).
Proof.
  intros Hm Hk w. unfold bind. destruct (Hm w) as [H1 H2].
  destruct (m w) as [[a|e] w1]; simpl in *; [|done].
  destruct (Hk a w1) as [H3 H4].
  split; intros x; specialize (H1 x); specialize (H2 x); specialize (H3 x);
    specialize (H4 x); rewrite elem_of_union in *; tauto.
Qed.

Lemma makes_dirs_weaken {A} ds ds' (m : M A) :
  ds ⊆ ds' -> makes_dirs_in ds m -> makes_dirs_in ds' m.
Proof.
  intros Hsub Hm w. destruct (Hm w) as [H1 H2]. split; [done|].
  intros x Hx. specialize (H2 x Hx). specialize (Hsub x).
  rewrite elem_of_union, elem_of_list_to_set in *. tauto.
Qed.

(** The walk down makes the directories it comes through, at most. *)
Lemma makes_dirs_ftp_enter_dirs_from dirs : forall cwd,
  makes_dirs_in (dirs_below cwd dirs) (ftp_enter_dirs_from env cwd dirs).
Proof.
  induction dirs as [|dir rest IH]; intros cwd; simpl.
  { apply makes_dirs_unchanged, unchanged_ret. }
  destruct (String.eqb dir ""); [done|].
  apply makes_dirs_bind.
  - intros w. pose proof (unchanged_ftp remote_dirs env (FtpChangeDir dir) w) as H1.
    destruct (ftp env (FtpChangeDir dir) w) as [[|] w1]; simpl in *.
    { rewrite H1. split; [done | apply union_subseteq_l]. }
    unfold ftp_MakeDir, bind.
    pose proof (unchanged_ftp remote_dirs env (FtpMakeDir dir) w1) as H2.
    destruct (ftp env (FtpMakeDir dir) w1) as [[|] w2]; simpl in *.
    + pose proof (unchanged_ftp remote_dirs env (FtpChangeDir dir)
                    (add_remote_dir (remote_join cwd dir) w2)) as H3.
      rewrite H3. simpl. rewrite H2, H1.
      split; intros x; [rewrite elem_of_union; tauto|].
      rewrite !elem_of_union. tauto.
    + rewrite H2, H1. split; [done | apply union_subseteq_l].
  - intros _. eapply makes_dirs_weaken; [|apply IH]. intros x Hx. by right.
Qed.

Lemma dirs_below_Split_Join dirs :
  Forall no_slash dirs ->
  dirs_below "" (strings_Split (strings_Join dirs "/") "/"%char) = dirs_below "" dirs.
Proof.
  intros Hall. destruct dirs as [|d ds]; [done|]. by rewrite strings_Split_Join.
Qed.

Lemma unchanged_dirs_ftp_Stor remotePath remoteFile data :
  unchanged remote_dirs (ftp_Stor env remotePath remoteFile data).
Proof.
  intros w. unfold ftp_Stor.
  destruct (ftp_reply env (clock w) _); [|done]. by destruct (ftp_kept env (clock w)).
Qed.

(** The directories an upload makes are on the way to [remotePath]. *)
Lemma makes_dirs_uploadToFTP filePath remotePath :
  makes_dirs_in (dirs_to remotePath) (uploadToFTP env filePath remotePath).
Proof.
  unfold uploadToFTP.
  repeat (apply makes_dirs_bind; [by apply makes_dirs_unchanged; eauto with quiet|]; intros ?).
  apply makes_dirs_bind.
  { unfold dirs_to, ftp_enter_dirs.
    rewrite <- dirs_below_Split_Join by apply Forall_removelast, strings_Split_no_sep.
    apply makes_dirs_ftp_enter_dirs_from. }
  intros _.
  repeat (apply makes_dirs_bind; [by apply makes_dirs_unchanged; eauto with quiet|]; intros ?).
  apply makes_dirs_unchanged, unchanged_dirs_ftp_Stor.
Qed.

End Publisher.


(** X16.  How [uploadToFTP] takes [remotePath] apart (lines 258-267): the
    directories it walks, got by splitting the joined directory part again,
    are the segments of [remotePath] before the last one (an empty directory
    part gives one empty segment, which the loop skips); the file name it
    stores under is the last segment and has no slash; and directory part
    and file name joined by a slash are [remotePath] again. *)
Theorem upload_splits_the_remote_path env remotePath :
  let dirs := strings_Split remotePath "/"%char in
  let remoteDir := strings_Join (removelast dirs) "/" in
  let remoteFile := List.last dirs "" in
  (forall w, ftp_enter_dirs env (strings_Split remoteDir "/"%char) w
             = ftp_enter_dirs env (removelast dirs) w) /\
  no_slash remoteFile /\
  strings_Join (removelast dirs ++ [remoteFile]) "/" = remotePath.
Proof.
  intros dirs remoteDir remoteFile.
  pose proof (strings_Split_no_sep remotePath) as Hall. fold dirs in Hall.
  pose proof (strings_Split_nonempty remotePath "/"%char) as Hne. fold dirs in Hne.
  assert (Hdirs : removelast dirs ++ [remoteFile] = dirs).
  { symmetry. by apply app_removelast_last. }
  split; [|split].
  - intros w. subst remoteDir.
    destruct (removelast dirs) as [|d ds] eqn:Hinit; [done|].
    rewrite strings_Split_Join; [done..|]. rewrite <- Hinit. by apply Forall_removelast.
  - rewrite <- Hdirs in Hall. apply Forall_app in Hall as [_ Hall]. by inversion Hall.
  - rewrite Hdirs. apply strings_Join_Split.
Qed.

(** ** What the converters store *)

Section UnchangedExporters.

Context {X : Type} (proj : World -> X) (env : Env).

Lemma unchanged_image_DecodeConfig_file `{!Timeless proj, !Unlogged proj} file :
  unchanged proj (image_DecodeConfig_file env file).
Proof.
  apply unchanged_bind; [apply unchanged_file_Read; done|]. intros data w. apply unlogged.
Qed.

Lemma unchanged_pdf_Image pdf name x y wd ht : unchanged proj (pdf_Image env pdf name x y wd ht).
Proof.
  intros w. unfold pdf_Image. destruct (fpdf_err pdf); [done|].
  destruct (files w !! name); [|done]. by destruct (fpdf_RegisterImage env name _).
Qed.

Lemma unchanged_pdf_add_image `{!Timeless proj, !Unlogged proj} pdf imgPath :
  unchanged proj (pdf_add_image env pdf imgPath).
Proof.
  unfold pdf_add_image. apply unchanged_bind; [by apply unchanged_os_Open|]. intros file.
  apply unchanged_bind; [by apply unchanged_image_DecodeConfig_file|]. intros img.
  destruct (pdf_GetPageSize env pdf), (fit_to_page _ _ _ _). apply unchanged_pdf_Image.
Qed.

Lemma unchanged_pdf_add_images `{!Timeless proj, !Unlogged proj} paths : forall pdf,
  unchanged proj (pdf_add_images env pdf paths).
Proof.
  induction paths as [|path paths IH]; intros pdf; simpl; [apply unchanged_ret|].
  apply unchanged_bind; [by apply unchanged_pdf_add_image | done].
Qed.

Lemma unchanged_pdf_OutputFileAndClose `{!Timeless proj, !Diskless proj} pdf file :
  unchanged proj (pdf_OutputFileAndClose env pdf file).
Proof.
  unfold pdf_OutputFileAndClose. destruct (fpdf_err pdf);
    [apply unchanged_throw | by apply unchanged_file_Write].
Qed.

Lemma unchanged_convertImagePathsToPDF `{!Timeless proj, !Diskless proj, !Unlogged proj}
    paths pdfPath :
  unchanged proj (convertImagePathsToPDF env paths pdfPath).
Proof.
  unfold convertImagePathsToPDF. apply unchanged_bind; [by apply unchanged_pdf_add_images|].
  intros pdf. by apply unchanged_pdf_OutputFileAndClose.
Qed.

Lemma unchanged_zipWriter_Create `{!Timeless proj} name :
  unchanged proj (zipWriter_Create env name).
Proof.
  unfold zipWriter_Create. apply unchanged_bind; [by apply unchanged_syscall|]. intros _.
  destruct (zip_Create_error env name); [apply unchanged_throw | apply unchanged_ret].
Qed.

Lemma unchanged_io_Copy `{!Timeless proj} file : unchanged proj (io_Copy env file).
Proof. unfold io_Copy. eauto 10 with quiet. Qed.

Lemma unchanged_close_and_fail `{!Timeless proj, !Diskless proj} {A} tmpZip entries detail
    (m : M A) :
  unchanged proj m -> unchanged proj (close_and_fail env tmpZip entries detail m).
Proof.
  intros Hm w. unfold close_and_fail. specialize (Hm w).
  destruct (m w) as [[a|e] w1]; simpl in *; [done|].
  unfold zipWriter_Close. by rewrite unchanged_file_Write.
Qed.

Lemma unchanged_zip_add_entries `{!Timeless proj, !Diskless proj} tmpZip paths :
  forall i entries, unchanged proj (zip_add_entries env tmpZip i entries paths).
Proof.
  induction paths as [|path paths IH]; intros i entries; simpl; [apply unchanged_ret|].
  apply unchanged_bind.
  { apply unchanged_close_and_fail; try done. by apply unchanged_os_Open. }
  intros file. apply unchanged_bind.
  { apply unchanged_close_and_fail; try done. by apply unchanged_zipWriter_Create. }
  intros _. apply unchanged_bind; [|done].
  apply unchanged_close_and_fail; try done. by apply unchanged_io_Copy.
Qed.

Lemma unchanged_writeZip `{!Timeless proj, !Diskless proj} paths tmpZip :
  unchanged proj (writeZip env paths tmpZip).
Proof.
  unfold writeZip. apply unchanged_bind; [by apply unchanged_zip_add_entries|]. intros entries.
  apply unchanged_bind; [|intros _; apply unchanged_ret].
  apply unchanged_wrap_err. unfold zipWriter_Close. by apply unchanged_file_Write.
Qed.

Lemma unchanged_ppt_add_slides `{!Timeless proj} paths : forall p,
  unchanged proj (ppt_add_slides env p paths).
Proof.
  induction paths as [|path paths IH]; intros p; simpl; [apply unchanged_ret|].
  apply unchanged_bind; [by apply unchanged_wrap_err, unchanged_file_Read|]. intros data.
  destruct (ppt_AddImageSlide env data); [apply unchanged_throw | done].
Qed.

End UnchangedExporters.

#[export] Hint Resolve unchanged_image_DecodeConfig_file unchanged_pdf_Image
  unchanged_pdf_add_image unchanged_pdf_add_images unchanged_pdf_OutputFileAndClose
  unchanged_convertImagePathsToPDF unchanged_zipWriter_Create unchanged_io_Copy
  unchanged_close_and_fail unchanged_zip_add_entries unchanged_writeZip
  unchanged_ppt_add_slides : quiet.

Section Published.

Context (env : Env).

(** The tail of every converter: on success the file is on the server under
    [SS_DL/<date>/<filename>] and the size is that of the bytes sent. *)
Lemma publish_spec tmp filename wrap w path sz w' :
  publish env tmp filename wrap w = (Ok (path, sz), w') ->
  path = ftpPath_of env filename /\
  files w' = files w /\
  exists data,
    files w !! tmp = Some data /\
    remote w' = <[path := data]> (remote w) /\
    trace w' = trace w ++ [FtpStor path] /\
    sz = Z.of_nat (length data).
Proof.
  unfold publish. intros H.
  apply bind_inv in H. destruct H as [([] & w1 & Hup & H)|(? & _ & ?)]; [|done].
  apply wrap_err_inv in Hup. destruct Hup as [(? & Hup & _)|(? & _ & ?)]; [|done].
  apply uploadToFTP_spec in Hup. destruct Hup as (Hfiles & data & Hdata & Hremote & Htrace).
  apply bind_inv in H. destruct H as [(size & w2 & Hstat & H)|(? & _ & ?)]; [|done].
  injection H as <- <- <-.
  pose proof (unchanged_os_Stat_Size visible env tmp w1) as Hvis.
  rewrite Hstat in Hvis. injection Hvis as Hf Hr Ht. simpl in *.
  unfold os_Stat_Size, bind, syscall in Hstat.
  destruct (syscall_fault env (clock w1)); [done|].
  change (files (tick w1)) with (files w1) in Hstat. rewrite Hfiles, Hdata in Hstat.
  injection Hstat as <- _.
  split; [done|]. split; [congruence|]. exists data.
  split; [done|]. split; [congruence|]. split; [congruence | done].
Qed.

Lemma remote_only_unchanged {A} path (m : M A) : unchanged remote m -> remote_only path m.
Proof. intros H w k _. by rewrite H. Qed.

Lemma remote_only_bind {A C} path (m : M A) (k : A -> M C) :
  remote_only path m -> (forall a, remote_only path (k a)) -> remote_only path (bind m k).
Proof.
  intros Hm Hk w j Hj. unfold bind. specialize (Hm w j Hj).
  destruct (m w) as [[a|e] w1]; simpl in *; [|done].
  by rewrite Hk.
Qed.

Lemma remote_only_wrap_err {A} path f (m : M A) :
  remote_only path m -> remote_only path (wrap_err f m).
Proof.
  intros Hm w j Hj. unfold wrap_err. specialize (Hm w j Hj).
  by destruct (m w) as [[a|e] w1].
Qed.

Lemma remote_only_defer {A C} path (cleanup : M C) (body : M A) :
  unchanged remote cleanup -> remote_only path body -> remote_only path (defer cleanup body).
Proof.
  intros Hc Hb w j Hj. unfold defer. specialize (Hb w j Hj).
  destruct (body w) as [r w1]. simpl in *. by rewrite Hc.
Qed.

Lemma remote_only_stored path data : remote_only path (stored path data).
Proof. intros w k Hk. simpl. by rewrite lookup_insert_ne. Qed.

Lemma remote_only_uploadToFTP filePath remotePath :
  remote_only remotePath (uploadToFTP env filePath remotePath).
Proof.
  intros w k Hk. destruct (uploadToFTP env filePath remotePath w) as [r w'] eqn:H.
  apply uploadToFTP_spec in H as (_ & H). simpl. destruct r as [[]|e].
  - destruct H as (data & _ & -> & _). by rewrite lookup_insert_ne.
  - destruct H as (_ & [->|(data & n & _ & ->)]); [done|]. by rewrite lookup_insert_ne.
Qed.

Lemma remote_only_publish tmp filename wrap :
  remote_only (ftpPath_of env filename) (publish env tmp filename wrap).
Proof.
  unfold publish. apply remote_only_bind.
  - apply remote_only_wrap_err, remote_only_uploadToFTP.
  - intros _. apply remote_only_unchanged. eauto with quiet.
Qed.

End Published.

Section Exported.

Context (env : Env).

(** The shape the three converters share: build the artifact in the
    temporary file, publish it, remove the temporary file. *)
Lemma built_and_published {A} (build : M A) tmp filename wrap w path sz w' :
  unchanged remote build ->
  defer (os_Remove tmp) (build ;; publish env tmp filename wrap) w = (Ok (path, sz), w') ->
  exists a w1 data,
    build w = (Ok a, w1) /\
    files w1 !! tmp = Some data /\
    path = ftpPath_of env filename /\
    remote w' = <[path := data]> (remote w) /\
    sz = Z.of_nat (length data).
Proof.
  intros Hbuild H. apply defer_inv in H. destruct H as (w2 & H & ->).
  rewrite remote_os_Remove.
  apply bind_inv in H. destruct H as [(a & w1 & Hb & H)|(? & _ & ?)]; [|done].
  apply publish_spec in H. destruct H as (-> & _ & data & Hdata & Hremote & _ & ->).
  exists a, w1, data. specialize (Hbuild w). rewrite Hb in Hbuild. simpl in Hbuild.
  repeat split; [done..|]. by rewrite Hremote, Hbuild.
Qed.

Lemma ppt_add_slides_spec paths : forall p w p' w',
  ppt_add_slides env p paths w = (Ok p', w') ->
  files w' = files w /\
  exists contents,
    Forall2 (fun path c => files w !! path = Some c) paths contents /\
    p' = p ++ contents.
Proof.
  induction paths as [|path paths IH]; intros p w p' w' H; simpl in H.
  - injection H as <- <-. split; [done|]. exists []. by rewrite app_nil_r.
  - apply bind_inv in H. destruct H as [(data & w1 & Hread & H)|(? & _ & ?)]; [|done].
    apply wrap_err_inv in Hread. destruct Hread as [(? & Hread & [= <-])|(? & _ & ?)]; [|done].
    apply file_Read_ok in Hread. destruct Hread as (Hfiles & _ & Hdata).
    destruct (ppt_AddImageSlide env data); [done|].
    apply IH in H. destruct H as (Hfiles' & contents & Hall & ->).
    split; [congruence|]. exists (data :: contents). split.
    + constructor; [done|]. by rewrite <- Hfiles.
    + by rewrite <- app_assoc.
Qed.

Lemma exportPPTX_spec paths filename w path sz w' :
  exportPPTX env paths filename w = (Ok (path, sz), w') ->
  path = ftpPath_of env filename /\
  exists contents,
    Forall2 (fun path c => files w !! path = Some c) paths contents /\
    remote w' = <[path := ppt_Output env contents]> (remote w) /\
    sz = Z.of_nat (length (ppt_Output env contents)).
Proof.
  unfold exportPPTX. intros H. apply defer_inv in H. destruct H as (wz & H & ->).
  rewrite remote_remove_all.
  apply bind_inv in H. destruct H as [(p & wa & Hslides & H)|(? & _ & ?)]; [|done].
  pose proof (unchanged_ppt_add_slides remote env paths [] w) as Hra.
  rewrite Hslides in Hra. simpl in Hra.
  apply ppt_add_slides_spec in Hslides. destruct Hslides as (_ & contents & Hall & ->).
  apply bind_inv in H. destruct H as [(tmp & wb & Htmp & H)|(? & _ & ?)]; [|done].
  apply os_CreateTemp_spec in Htmp. destruct Htmp as (Hrb & _).
  apply built_and_published in H; [|eauto with quiet].
  destruct H as (a & wc & data & Hwrite & Hdata & -> & Hremote & ->).
  apply wrap_err_inv in Hwrite. destruct Hwrite as [([] & Hwrite & _)|(? & _ & ?)]; [|done].
  apply file_Write_ok in Hwrite. destruct Hwrite as [Hfiles _].
  rewrite Hfiles, lookup_insert_eq in Hdata. injection Hdata as <-.
  split; [done|]. exists contents. simpl. split; [done|]. split; [congruence | done].
Qed.

(** A converter that succeeds has stored one file, under the path it
    returns, and returns that file's size. *)
Lemma exportPPTX_stores paths filename w path sz w' :
  exportPPTX env paths filename w = (Ok (path, sz), w') ->
  path = ftpPath_of env filename /\
  exists data, remote w' = <[path := data]> (remote w) /\ sz = Z.of_nat (length data).
Proof.
  intros H. apply exportPPTX_spec in H. destruct H as (-> & contents & _ & ? & ?). eauto.
Qed.

Lemma exportPDF_stores paths filename w path sz w' :
  exportPDF env paths filename w = (Ok (path, sz), w') ->
  path = ftpPath_of env filename /\
  exists data, remote w' = <[path := data]> (remote w) /\ sz = Z.of_nat (length data).
Proof.
  unfold exportPDF. intros H. apply defer_inv in H. destruct H as (wz & H & ->).
  rewrite remote_remove_all.
  destruct (Nat.eqb (length paths) 0); [done|]. unfold buildAndPublishPDF in H.
  apply bind_inv in H. destruct H as [(tmp & wb & Htmp & H)|(? & _ & ?)]; [|done].
  apply os_CreateTemp_spec in Htmp. destruct Htmp as (Hrb & _).
  apply built_and_published in H; [|eauto with quiet].
  destruct H as (a & wc & data & _ & _ & -> & Hremote & ->).
  split; [done|]. exists data. split; [congruence | done].
Qed.

Lemma exportZip_stores paths filename w path sz w' :
  exportZip env paths filename w = (Ok (path, sz), w') ->
  path = ftpPath_of env filename /\
  exists data, remote w' = <[path := data]> (remote w) /\ sz = Z.of_nat (length data).
Proof.
  unfold exportZip. intros H. apply defer_inv in H. destruct H as (wz & H & ->).
  rewrite remote_remove_all.
  apply bind_inv in H. destruct H as [(tmp & wb & Htmp & H)|(? & _ & ?)]; [|done].
  apply os_CreateTemp_spec in Htmp. destruct Htmp as (Hrb & _).
  apply built_and_published in H; [|eauto with quiet].
  destruct H as (a & wc & data & _ & _ & -> & Hremote & ->).
  split; [done|]. exists data. split; [congruence | done].
Qed.

(** The converters write to the server at one path only. *)
Lemma remote_only_exportPDF paths filename :
  remote_only (ftpPath_of env filename) (exportPDF env paths filename).
Proof.
  unfold exportPDF. apply remote_only_defer; [eauto with quiet|].
  destruct (Nat.eqb (length paths) 0); [apply remote_only_unchanged; eauto with quiet|].
  unfold buildAndPublishPDF. apply remote_only_bind.
  { apply remote_only_unchanged. eauto with quiet. }
  intros tmp. apply remote_only_defer; [eauto with quiet|].
  apply remote_only_bind; [apply remote_only_unchanged; eauto with quiet|].
  intros _. apply remote_only_publish.
Qed.

Lemma remote_only_exportPPTX paths filename :
  remote_only (ftpPath_of env filename) (exportPPTX env paths filename).
Proof.
  unfold exportPPTX. apply remote_only_defer; [eauto with quiet|].
  apply remote_only_bind; [apply remote_only_unchanged; eauto with quiet|]. intros p.
  apply remote_only_bind; [apply remote_only_unchanged; eauto with quiet|]. intros tmp.
  apply remote_only_defer; [eauto with quiet|].
  apply remote_only_bind; [apply remote_only_unchanged; eauto with quiet|].
  intros _. apply remote_only_publish.
Qed.

Lemma remote_only_exportZip paths filename :
  remote_only (ftpPath_of env filename) (exportZip env paths filename).
Proof.
  unfold exportZip. apply remote_only_defer; [eauto with quiet|].
  apply remote_only_bind; [apply remote_only_unchanged; eauto with quiet|]. intros tmp.
  apply remote_only_defer; [eauto with quiet|].
  apply remote_only_bind; [apply remote_only_unchanged; eauto with quiet|].
  intros _. apply remote_only_publish.
Qed.

(** The fetch stage does not touch the server. *)
Lemma fetch_keeps_remote urls maxConcurrency sched w r w' :
  fetchImagesConcurrently env urls maxConcurrency sched w = Some (r, w') ->
  remote w' = remote w.
Proof.
  intros H. apply fetchImagesConcurrently_inv in H.
  destruct H as (p & w1 & Hinv & _ & Hc).
  rewrite <- (inv_remote _ _ _ _ _ Hinv).
  unfold collect_results in Hc. destruct (first_error (errors p)).
  - unfold bind, throw in Hc.
    pose proof (unchanged_remove_results remote (results p) w1) as Hrm.
    by destruct (remove_results (results p) w1) as [[|] w2]; injection Hc as _ <-.
  - by injection Hc as _ <-.
Qed.

Lemma after_fetch_remote_only {A} (export : list string -> M A) path urls maxConcurrency
    sched w r w' :
  (forall paths, remote_only path (export paths)) ->
  bindB (fetchImagesConcurrently env urls maxConcurrency sched)
        (fun imagePaths => lift (export imagePaths)) w = Some (r, w') ->
  forall k, k <> path -> remote w' !! k = remote w !! k.
Proof.
  intros Hexp H k Hk. unfold bindB, lift in H.
  destruct (fetchImagesConcurrently env urls maxConcurrency sched w)
    as [[[paths|e] w1]|] eqn:Hfetch; [| |done]; apply fetch_keeps_remote in Hfetch.
  - injection H as H. rewrite <- Hfetch. specialize (Hexp paths w1 k Hk).
    by rewrite H in Hexp.
  - injection H as _ <-. by rewrite Hfetch.
Qed.

End Exported.

(** X18.  When the slide-deck exporter (lines 363-405 of
    [ConvertURLsToPPTX]) succeeds, the server holds under
    [SS_DL/<date>/<pptxFilename>] the deck made of the image files' contents,
    one slide per file in the order of the paths, and the size returned is
    the length of those bytes. *)
Theorem pptx_deck_holds_the_files env imagePaths pptxFilename w path sz w' :
  exportPPTX env imagePaths pptxFilename w = (Ok (path, sz), w') ->
  path = "SS_DL/" +:+ time_Now_Format env "02012006" +:+ "/" +:+ pptxFilename /\
  exists contents,
    Forall2 (fun imgPath c => files w !! imgPath = Some c) imagePaths contents /\
    remote w' = <[path := ppt_Output env contents]> (remote w) /\
    sz = Z.of_nat (length (ppt_Output env contents)).
Proof.
  intros H. apply exportPPTX_spec in H. destruct H as (-> & H). split; [|done].
  unfold ftpPath_of. apply append_assoc.
Qed.


(** ** How a request fails *)

Lemma plain_internal e : plain e -> internal e.
Proof. by intros [msg ->]. Qed.

Lemma plain_errorString msg : plain (errorString msg).
Proof. by exists msg. Qed.

Lemma internal_500 detail : internal (CustomAPIError 500 detail).
Proof. done. Qed.

Section Failures.

Context (P : error -> Prop).

Lemma fails_in_ret {A} (a : A) : fails_in P (ret a).
Proof. by intros w e w'. Qed.

Lemma fails_in_throw {A} e : P e -> fails_in P (@throw A e).
Proof. by intros He w e' w' [= <- _]. Qed.

Lemma fails_in_bind {A C} (m : M A) (k : A -> M C) :
  fails_in P m -> (forall a, fails_in P (k a)) -> fails_in P (bind m k).
Proof.
  intros Hm Hk w e w' H. apply bind_inv in H.
  destruct H as [(a & w1 & _ & H)|(e' & H & [= ->])]; [by eapply Hk | by eapply Hm].
Qed.

Lemma fails_in_wrap_err {A} f (m : M A) : (forall e, P (f e)) -> fails_in P (wrap_err f m).
Proof.
  intros Hf w e w' H. apply wrap_err_inv in H.
  destruct H as [(a & _ & ?)|(e' & _ & [= ->])]; [done | apply Hf].
Qed.

Lemma fails_in_defer {A C} (cleanup : M C) (body : M A) :
  fails_in P body -> fails_in P (defer cleanup body).
Proof. intros Hb w e w' H. apply defer_inv in H. destruct H as (w1 & H & _). by eapply Hb. Qed.

Lemma fails_in_weaken {A} (Q : error -> Prop) (m : M A) :
  (forall e, Q e -> P e) -> fails_in Q m -> fails_in P m.
Proof. intros HQ Hm w e w' H. by eapply HQ, Hm. Qed.

End Failures.

Section PlainFailures.

Context (env : Env).

Lemma plain_syscall : fails_in plain (syscall env).
Proof.
  intros w e w'. unfold syscall. destruct (syscall_fault env (clock w)); [|done].
  intros [= <- _]. apply plain_errorString.
Qed.

Lemma plain_os_Open name : fails_in plain (os_Open env name).
Proof.
  apply fails_in_bind; [apply plain_syscall|]. intros _ w e w'.
  destruct (files w !! name); [done|]. intros [= <- _]. apply plain_errorString.
Qed.

Lemma plain_file_Read name : fails_in plain (file_Read env name).
Proof.
  apply fails_in_bind; [apply plain_syscall|]. intros _ w e w'.
  destruct (files w !! name); [done|]. intros [= <- _]. apply plain_errorString.
Qed.

Lemma plain_file_Write name data : fails_in plain (file_Write env name data).
Proof.
  intros w e w'. unfold file_Write.
  destruct (syscall_fault env (clock w)); [|done]. intros [= <- _]. apply plain_errorString.
Qed.

Lemma plain_os_Stat_Size name : fails_in plain (os_Stat_Size env name).
Proof.
  apply fails_in_bind; [apply plain_syscall|]. intros _ w e w'.
  destruct (files w !! name); [done|]. intros [= <- _]. apply plain_errorString.
Qed.

Lemma plain_createTemp_try tries prefix suffix :
  fails_in plain (createTemp_try env tries prefix suffix).
Proof.
  induction tries as [|tries IH]; intros w e w'; simpl.
  - intros [= <- _]. apply plain_errorString.
  - destruct (files w !! _); [apply IH|].
    destruct (syscall_fault env (clock w)); [|done]. intros [= <- _]. apply plain_errorString.
Qed.

Lemma plain_os_CreateTemp dir prefix suffix :
  fails_in plain (os_CreateTemp env dir prefix suffix).
Proof. apply plain_createTemp_try. Qed.

Lemma fails_in_publish (P : error -> Prop) tmp filename wrap :
  (forall e, P (wrap e)) -> (forall e, plain e -> P e) ->
  fails_in P (publish env tmp filename wrap).
Proof.
  intros Hwrap Hplain. unfold publish.
  apply fails_in_bind; [by apply fails_in_wrap_err|]. intros _.
  apply fails_in_bind; [|intros sz; apply fails_in_ret].
  eapply fails_in_weaken; [exact Hplain | apply plain_os_Stat_Size].
Qed.

Lemma plain_ppt_add_slides paths : forall p, fails_in plain (ppt_add_slides env p paths).
Proof.
  induction paths as [|path paths IH]; intros p; simpl; [apply fails_in_ret|].
  apply fails_in_bind; [apply fails_in_wrap_err; intros e; apply plain_errorString|].
  intros data. destruct (ppt_AddImageSlide env data); [|done].
  apply fails_in_throw, plain_errorString.
Qed.

Lemma plain_exportPPTX paths filename : fails_in plain (exportPPTX env paths filename).
Proof.
  unfold exportPPTX. apply fails_in_defer.
  apply fails_in_bind; [apply plain_ppt_add_slides|]. intros p.
  apply fails_in_bind; [apply plain_os_CreateTemp|]. intros tmp.
  apply fails_in_defer. apply fails_in_bind.
  - apply fails_in_wrap_err. intros e. apply plain_errorString.
  - intros _. apply fails_in_publish; [intros e; apply plain_errorString | done].
Qed.

Lemma internal_exportPDF paths filename : fails_in internal (exportPDF env paths filename).
Proof.
  unfold exportPDF. apply fails_in_defer.
  destruct (Nat.eqb (length paths) 0); [by apply fails_in_throw|].
  unfold buildAndPublishPDF. apply fails_in_bind.
  { eapply fails_in_weaken; [apply plain_internal | apply plain_os_CreateTemp]. }
  intros tmp. apply fails_in_defer. apply fails_in_bind.
  - by apply fails_in_wrap_err.
  - intros _. apply fails_in_publish; [done | apply plain_internal].
Qed.

Lemma internal_writeZip paths tmpZip : fails_in internal (writeZip env paths tmpZip).
Proof.
  unfold writeZip. apply fails_in_bind.
  - intros w e w' H. apply zip_add_entries_spec in H. by destruct H as [d ->].
  - intros entries. apply fails_in_bind; [by apply fails_in_wrap_err|].
    intros _. apply fails_in_ret.
Qed.

Lemma internal_exportZip paths filename : fails_in internal (exportZip env paths filename).
Proof.
  unfold exportZip. apply fails_in_defer. apply fails_in_bind.
  { eapply fails_in_weaken; [apply plain_internal | apply plain_os_CreateTemp]. }
  intros tmp. apply fails_in_defer. apply fails_in_bind; [apply internal_writeZip|].
  intros _. apply fails_in_publish; [done | apply plain_internal].
Qed.

(** A failed fetch stage returns the 500 error built from a task's error. *)
Lemma fetch_err_detail urls maxConcurrency sched w e w1 :
  fetchImagesConcurrently env urls maxConcurrency sched w = Some (Err e, w1) ->
  exists err, e = CustomAPIError 500 ("Failed to fetch images: " +:+ Error err).
Proof.
  intros H. apply fetchImagesConcurrently_inv in H.
  destruct H as (p & w' & _ & _ & Hc).
  unfold collect_results in Hc.
  destruct (first_error (errors p)) as [err|]; [|done].
  unfold bind, throw in Hc. pose proof (remove_results_ok (results p) w') as Hok.
  destruct (remove_results (results p) w') as [[|] ?]; [|done].
  injection Hc as <- <-; eauto.
Qed.

Lemma after_fetch_fails_in {A} (P : error -> Prop) (export : list string -> M A) urls
    maxConcurrency sched w e w' :
  (forall detail, P (CustomAPIError 500 detail)) ->
  (forall paths, fails_in P (export paths)) ->
  bindB (fetchImagesConcurrently env urls maxConcurrency sched)
        (fun imagePaths => lift (export imagePaths)) w = Some (Err e, w') ->
  P e.
Proof.
  intros H500 Hexp H. unfold bindB, lift in H.
  destruct (fetchImagesConcurrently env urls maxConcurrency sched w)
    as [[[paths|e'] w1]|] eqn:Hfetch; [| |done].
  - injection H as H. by eapply Hexp.
  - injection H as <- _. apply fetch_err_detail in Hfetch. destruct Hfetch as [err ->].
    apply H500.
Qed.

Lemma convert_err conversionType urls docShort sched w e w' :
  convert env conversionType urls docShort sched w = Some (Err e, w') ->
  internal e \/
  (conversionType <> PDF /\ conversionType <> PPTX /\ conversionType <> ImagesZip /\
   e = CustomAPIError 400 "Unsupported conversion type" /\ w' = w).
Proof.
  unfold convert.
  destruct (String.eqb_spec conversionType PDF) as [|HnPDF];
    [|destruct (String.eqb_spec conversionType PPTX) as [|HnPPTX];
      [|destruct (String.eqb_spec conversionType ImagesZip) as [|HnZip]]].
  4: { intros [= <- <-]. by right. }
  all: intros H; left; unfold bindB at 1 in H.
  - destruct (ConvertURLsToPDF env urls _ sched w) as [[[r|e'] w1]|] eqn:Hc; [done| |done].
    injection H as <- _. eapply after_fetch_fails_in; [| |exact Hc]; [done|].
    intros paths. apply internal_exportPDF.
  - destruct (ConvertURLsToPPTX env urls _ sched w) as [[[r|e'] w1]|] eqn:Hc; [done| |done].
    injection H as <- _. eapply after_fetch_fails_in; [| |exact Hc]; [done|].
    intros paths. eapply fails_in_weaken; [apply plain_internal | apply plain_exportPPTX].
  - destruct (ConvertURLsToZip env urls _ sched w) as [[[r|e'] w1]|] eqn:Hc; [done| |done].
    injection H as <- _. eapply after_fetch_fails_in; [| |exact Hc]; [done|].
    intros paths. apply internal_exportZip.
Qed.

Lemma FetchSlideImages_err urlStr w e w' :
  FetchSlideImages env urlStr w = (Err e, w') ->
  e = CustomAPIError 500 "Failed to fetch the presentation page" \/
  e = CustomAPIError 500 "Failed to parse HTML" \/
  e = CustomAPIError 404 "No slide images found" \/
  exists status body,
    http_Do env (clock w) urlStr None = Response status body /\ status <> 200 /\
    e = CustomAPIError status "Failed to fetch the presentation page".
Proof.
  unfold FetchSlideImages, bind, wrap_err, client_Do, throw, ret.
  destruct (http_Do env (clock w) urlStr None) as [msg|status body] eqn:Hhttp.
  - intros [= <- _]. by left.
  - destruct (Z.eqb_spec status 200) as [->|Hne]; simpl.
    + destruct (goquery_NewDocument env body) as [doc|e0].
      * destruct (Nat.eqb (length (allSlideImages env doc)) 0); [|done].
        intros [= <- _]. by right; right; left.
      * intros [= <- _]. by right; left.
    + intros [= <- _]. right. right. right. eauto.
Qed.

Lemma GetSlidesDownloadLink_err urlStr conversionType qualityType sched w e w' :
  GetSlidesDownloadLink env urlStr conversionType qualityType sched w = Some (Err e, w') ->
  let code := fst (customErrorHandler e) in
  code = 400 \/ code = 404 \/ code = 500 \/
  exists body, http_Do env (clock w) urlStr None = Response code body /\ code <> 200.
Proof.
  unfold GetSlidesDownloadLink, ValidateURL.
  destruct (url_Parse env urlStr) as [u|] eqn:Hparse; [|intros [= <- _]; by left].
  destruct (String.eqb (Host u) "www.slideshare.net"); simpl; [|intros [= <- _]; by left].
  destruct (Nat.ltb (length (pathParts u)) 2); [intros [= <- _]; by left|].
  unfold bindB at 1, lift at 1.
  destruct (FetchSlideImages env urlStr w) as [[slidesData|e'] w1] eqn:Hfetch.
  - destruct (select_resolution (slides slidesData) qualityType) as [[urls thumb]|e'] eqn:Hsel.
    + unfold bindB at 1.
      destruct (convert env conversionType urls _ sched w1) as [[[[[path sz] msg]|e'] w2]|]
        eqn:Hconv; [done| |done].
      intros [= <- _]. apply convert_err in Hconv.
      destruct Hconv as [He|(_ & _ & _ & -> & _)]; [by right; right; left | by left].
    + intros [= <- _]. unfold select_resolution in Hsel.
      destruct (highResImages _ _); [|done]. injection Hsel as <-. by right; left.
  - intros [= <- _]. apply FetchSlideImages_err in Hfetch.
    destruct Hfetch as [->|[->|[->|(status & body & Hhttp & Hne & ->)]]]; simpl; eauto 8.
Qed.

End PlainFailures.

Section AlwaysFails.

Lemma always_fails_throw {A} e : always_fails (@throw A e).
Proof. by intros w. Qed.

Lemma always_fails_bind_l {A C} (m : M A) (k : A -> M C) :
  always_fails m -> always_fails (bind m k).
Proof. intros Hm w. unfold bind. specialize (Hm w). by destruct (m w) as [[a|e] w1]. Qed.

Lemma always_fails_bind_r {A C} (m : M A) (k : A -> M C) :
  (forall a, always_fails (k a)) -> always_fails (bind m k).
Proof. intros Hk w. unfold bind. destruct (m w) as [[a|e] w1]; [apply Hk | done]. Qed.

Lemma always_fails_wrap_err {A} f (m : M A) : always_fails m -> always_fails (wrap_err f m).
Proof. intros Hm w. unfold wrap_err. specialize (Hm w). by destruct (m w) as [[a|e] w1]. Qed.

Lemma always_fails_defer {A C} (cleanup : M C) (body : M A) :
  always_fails body -> always_fails (defer cleanup body).
Proof. intros Hb w. unfold defer. specialize (Hb w). by destruct (body w) as [r w1]. Qed.

Context (env : Env) (e : error).
Hypothesis bad_port : strconv_Atoi env (ftpPortStr env) = Err e.

Lemma uploadToFTP_bad_port filePath remotePath w :
  uploadToFTP env filePath remotePath w = (Err e, w).
Proof. unfold uploadToFTP, bind, pure. fold (ftpPortStr env). by rewrite bad_port. Qed.

Lemma publish_bad_port tmp filename wrap : always_fails (publish env tmp filename wrap).
Proof.
  unfold publish. apply always_fails_bind_l, always_fails_wrap_err.
  intros w. by rewrite uploadToFTP_bad_port.
Qed.

Lemma exportPDF_bad_port paths filename : always_fails (exportPDF env paths filename).
Proof.
  unfold exportPDF. apply always_fails_defer.
  destruct (Nat.eqb (length paths) 0); [apply always_fails_throw|].
  unfold buildAndPublishPDF. apply always_fails_bind_r. intros tmp.
  apply always_fails_defer, always_fails_bind_r. intros _. apply publish_bad_port.
Qed.

Lemma exportPPTX_bad_port paths filename : always_fails (exportPPTX env paths filename).
Proof.
  unfold exportPPTX. apply always_fails_defer, always_fails_bind_r. intros p.
  apply always_fails_bind_r. intros tmp.
  apply always_fails_defer, always_fails_bind_r. intros _. apply publish_bad_port.
Qed.

Lemma exportZip_bad_port paths filename : always_fails (exportZip env paths filename).
Proof.
  unfold exportZip. apply always_fails_defer, always_fails_bind_r. intros tmp.
  apply always_fails_defer, always_fails_bind_r. intros _. apply publish_bad_port.
Qed.

Lemma after_fetch_always_fails {A} (export : list string -> M A) urls maxConcurrency
    sched w a w' :
  (forall paths, always_fails (export paths)) ->
  bindB (fetchImagesConcurrently env urls maxConcurrency sched)
        (fun imagePaths => lift (export imagePaths)) w <> Some (Ok a, w').
Proof.
  intros Hexp H. apply bindB_lift_ok in H. destruct H as (paths & w1 & _ & H).
  specialize (Hexp paths w1). by rewrite H in Hexp.
Qed.

Lemma convert_bad_port conversionType urls docShort sched w r w' :
  convert env conversionType urls docShort sched w <> Some (Ok r, w').
Proof.
  unfold convert.
  destruct (String.eqb conversionType PDF);
    [|destruct (String.eqb conversionType PPTX);
      [|destruct (String.eqb conversionType ImagesZip); [|done]]];
    intros H; apply bindB_lift_ok in H; destruct H as (ps & w1 & H & _); revert H;
    apply after_fetch_always_fails; intros paths.
  - apply exportPDF_bad_port.
  - apply exportPPTX_bad_port.
  - apply exportZip_bad_port.
Qed.

End AlwaysFails.

(** X17.  With an [FTP_PORT] that [strconv.Atoi] refuses (an unset one is
    read as 21), [uploadToFTP] returns that error before it connects,
    leaving the world as it is, and so no request ever succeeds: each one
    fails at the latest when it comes to upload. *)
Theorem malformed_port_fails_every_request env e :
  strconv_Atoi env (if String.eqb (os_Getenv env "FTP_PORT") "" then "21"
                    else os_Getenv env "FTP_PORT") = Err e ->
  (forall filePath remotePath w, uploadToFTP env filePath remotePath w = (Err e, w)) /\
  (forall urlStr conversionType qualityType sched w resp w',
     GetSlidesDownloadLink env urlStr conversionType qualityType sched w
     <> Some (Ok resp, w')).
Proof.
  intros Hport. split.
  - intros filePath remotePath w. by apply uploadToFTP_bad_port.
  - intros urlStr conversionType qualityType sched w resp w' H.
    unfold GetSlidesDownloadLink in H.
    destruct (ValidateURL env urlStr); [done|].
    destruct (url_Parse env urlStr) as [u|]; [|done].
    destruct (Nat.ltb (length (pathParts u)) 2); [done|].
    apply bindB_ok in H. destruct H as (slidesData & w1 & _ & H).
    destruct (select_resolution (slides slidesData) qualityType) as [[urls thumb]|]; [|done].
    apply bindB_ok in H. destruct H as (r & w2 & H & _).
    by eapply convert_bad_port.
Qed.

(** X24.  The status a failed request ends with ([convertHandler] through
    [customErrorHandler]) is 400, 404 or 500, or else the status, other than
    200, with which the server answered the request for the page. *)
Theorem request_status_codes env params sched w e w' :
  convertHandler env params sched w = Some (Err e, w') ->
  let code := fst (customErrorHandler e) in
  code = 400 \/ code = 404 \/ code = 500 \/
  exists p body,
    params = Some p /\
    http_Do env (clock w) (param_URL p) None = Response code body /\ code <> 200.
Proof.
  unfold convertHandler. destruct params as [p|]; [|intros [= <- _]; by left].
  destruct (String.eqb (strings_TrimSpace env (param_URL p)) ""); [intros [= <- _]; by left|].
  intros H. apply GetSlidesDownloadLink_err in H.
  destruct H as [H|[H|[H|(body & H1 & H2)]]]; eauto 10.
Qed.

(** X19.  Every error of [ConvertURLsToPPTX] other than a failed fetch stage
    is a plain error ([fmt.Errorf] or a library's), never a
    [CustomAPIError]: the client is told 500 "Internal Server Error" and
    nothing of the cause. *)
Theorem pptx_failures_carry_no_detail env urls pptxFilename sched w e w' :
  ConvertURLsToPPTX env urls pptxFilename sched w = Some (Err e, w') ->
  (exists err, e = CustomAPIError 500 ("Failed to fetch images: " +:+ Error err)) \/
  ((exists msg, e = errorString msg) /\
   customErrorHandler e = (500, "Internal Server Error")).
Proof.
  intros H. unfold ConvertURLsToPPTX, bindB, lift in H.
  destruct (fetchImagesConcurrently env urls 10 sched w) as [[[paths|e'] w1]|] eqn:Hfetch;
    [| |done].
  - injection H as H. right. apply plain_exportPPTX in H. destruct H as [msg ->]. eauto.
  - injection H as <- _. left. by eapply fetch_err_detail.
Qed.

(** X21.  The conversion type is looked at last and compared byte for byte:
    for a valid URL whose page was fetched and offers the requested width, a
    type other than [PDF], [PPTX] and [IMAGES_ZIP] (the lower-case [pdf]
    too) ends the request with 400 "Unsupported conversion type", in the
    world the page fetch left: no image has been fetched. *)
Theorem unsupported_conversion_type env urlStr conversionType qualityType sched w u
    slidesData w1 urls thumb :
  url_Parse env urlStr = Some u ->
  Host u = "www.slideshare.net" ->
  (2 <= length (pathParts u))%nat ->
  FetchSlideImages env urlStr w = (Ok slidesData, w1) ->
  select_resolution (slides slidesData) qualityType = Ok (urls, thumb) ->
  conversionType <> PDF -> conversionType <> PPTX -> conversionType <> ImagesZip ->
  GetSlidesDownloadLink env urlStr conversionType qualityType sched w
  = Some (Err (CustomAPIError 400 "Unsupported conversion type"), w1).
Proof.
  intros Hparse Hhost Hlen Hfetch Hsel HnPDF HnPPTX HnZip.
  unfold GetSlidesDownloadLink, ValidateURL. rewrite Hparse, Hhost. simpl.
  destruct (Nat.ltb_spec (length (pathParts u)) 2) as [|_]; [lia|].
  unfold bindB at 1, lift at 1. rewrite Hfetch, Hsel.
  unfold bindB, convert.
  destruct (String.eqb_spec conversionType PDF); [done|].
  destruct (String.eqb_spec conversionType PPTX); [done|].
  destruct (String.eqb_spec conversionType ImagesZip); [done|]. done.
Qed.

(** X22.  The details a 400 answer of [GetSlidesDownloadLink] can carry: the
    three of the URL checks, the one of the conversion type, and the one of
    a page that was itself answered with 400.  "Invalid URL format" is not
    among them: the second [url.Parse] (line 489) cannot fail after
    [ValidateURL] has parsed the same string. *)
Theorem bad_request_details env urlStr conversionType qualityType sched w detail w' :
  GetSlidesDownloadLink env urlStr conversionType qualityType sched w
  = Some (Err (CustomAPIError 400 detail), w') ->
  detail ∈ ["Invalid URL"; "Invalid SlideShare URL"; "Invalid SlideShare URL format";
            "Unsupported conversion type"; "Failed to fetch the presentation page"] /\
  detail <> "Invalid URL format".
Proof.
  intros H.
  assert (Hin : detail ∈ ["Invalid URL"; "Invalid SlideShare URL";
                          "Invalid SlideShare URL format"; "Unsupported conversion type";
                          "Failed to fetch the presentation page"]).
  { revert H. unfold GetSlidesDownloadLink, ValidateURL.
    destruct (url_Parse env urlStr) as [u|] eqn:Hparse; [|intros [= <- _]; in_list].
    destruct (String.eqb (Host u) "www.slideshare.net"); simpl;
      [|intros [= <- _]; in_list].
    destruct (Nat.ltb (length (pathParts u)) 2); [intros [= <- _]; in_list|].
    unfold bindB at 1, lift at 1.
    destruct (FetchSlideImages env urlStr w) as [[slidesData|e'] w1] eqn:Hfetch.
    - destruct (select_resolution (slides slidesData) qualityType)
        as [[urls thumb]|e'] eqn:Hsel.
      + unfold bindB at 1.
        destruct (convert env conversionType urls _ sched w1)
          as [[[[[path sz] msg]|e'] w2]|] eqn:Hconv; [done| |done].
        intros [= -> _]. apply convert_err in Hconv.
        destruct Hconv as [He|(_ & _ & _ & [= <-] & _)]; [done | in_list].
      + intros [= -> _]. unfold select_resolution in Hsel.
        by destruct (highResImages _ _).
    - intros [= -> _]. apply FetchSlideImages_err in Hfetch.
      destruct Hfetch as [[=]|[[=]|[[=]|(status & body & _ & _ & [= _ <-])]]]. in_list. }
  split; [done|]. intros ->.
  repeat (apply elem_of_cons in Hin as [[=]|Hin]). by apply elem_of_nil in Hin.
Qed.

(** ** The answer to a successful request *)

Section Response.

Context (env : Env).

Lemma convert_spec conversionType urls docShort sched w path sz msg w' :
  convert env conversionType urls docShort sched w = Some (Ok (path, sz, msg), w') ->
  exists ext stored_bytes,
    (conversionType, ext, msg) ∈
      [(PDF, ".pdf", "PDF generated successfully.");
       (PPTX, ".pptx", "PPTX generated successfully.");
       (ImagesZip, ".zip", "IMAGES ZIP generated successfully.")] /\
    path = ftpPath_of env (docShort +:+ ext) /\
    remote w' !! path = Some stored_bytes /\
    sz = Z.of_nat (length stored_bytes).
Proof.
  unfold convert.
  destruct (String.eqb_spec conversionType PDF) as [->|];
    [|destruct (String.eqb_spec conversionType PPTX) as [->|];
      [|destruct (String.eqb_spec conversionType ImagesZip) as [->|]; [|done]]];
    intros H; apply bindB_lift_ok in H; destruct H as ([p s] & w1 & H & [= <- <- <- <-]);
    apply bindB_lift_ok in H; destruct H as (paths & w2 & _ & H).
  - apply exportPDF_stores in H. destruct H as (-> & bs & -> & ->).
    exists ".pdf", bs. rewrite lookup_insert_eq. repeat split; try done. in_list.
  - apply exportPPTX_stores in H. destruct H as (-> & bs & -> & ->).
    exists ".pptx", bs. rewrite lookup_insert_eq. repeat split; try done. in_list.
  - apply exportZip_stores in H. destruct H as (-> & bs & -> & ->).
    exists ".zip", bs. rewrite lookup_insert_eq. repeat split; try done. in_list.
Qed.

End Response.

(** X23.  The answer to a successful request describes what was uploaded:
    the message and the extension go with the conversion type; [file_name]
    is the document's short name with that extension; the server holds a
    file under [SS_DL/<date>/<file_name>] and [size] is its length in
    bytes; [title] is the page's title, and [quality] and
    [conversion_type] are the request's. *)
Theorem response_describes_the_upload env urlStr conversionType qualityType sched w resp w' :
  GetSlidesDownloadLink env urlStr conversionType qualityType sched w = Some (Ok resp, w') ->
  exists u slidesData w1 ext stored_bytes,
    url_Parse env urlStr = Some u /\
    FetchSlideImages env urlStr w = (Ok slidesData, w1) /\
    (conversionType, ext, message resp) ∈
      [(PDF, ".pdf", "PDF generated successfully.");
       (PPTX, ".pptx", "PPTX generated successfully.");
       (ImagesZip, ".zip", "IMAGES ZIP generated successfully.")] /\
    file_name (data resp) = docShort_of (pathParts u) +:+ ext /\
    remote w' !! ("SS_DL/" +:+ time_Now_Format env "02012006" +:+ "/" +:+ file_name (data resp))
      = Some stored_bytes /\
    size (data resp) = Z.of_nat (length stored_bytes) /\
    data_title (data resp) = title slidesData /\
    quality (data resp) = qualityType /\
    conversion_type (data resp) = conversionType.
Proof.
  unfold GetSlidesDownloadLink, ValidateURL.
  destruct (url_Parse env urlStr) as [u|] eqn:Hparse; [|done].
  destruct (String.eqb (Host u) "www.slideshare.net"); [|done]. simpl.
  destruct (Nat.ltb_spec (length (pathParts u)) 2) as [|Hlen]; [done|].
  intros H. unfold bindB at 1, lift at 1 in H.
  destruct (FetchSlideImages env urlStr w) as [[slidesData|e] w1] eqn:Hfetch; [|done].
  destruct (select_resolution (slides slidesData) qualityType) as [[urls thumb]|e] eqn:Hsel;
    [|done].
  apply bindB_ok in H. destruct H as ([[path sz] msg] & w2 & Hconv & [= <- <-]).
  apply convert_spec in Hconv. destruct Hconv as (ext & bs & Hin & -> & Hremote & ->).
  exists u, slidesData, w1, ext, bs. simpl.
  assert (Hext : ext <> "" /\ no_slash ext).
  { repeat (apply elem_of_cons in Hin as [[= _ -> _]|Hin]; [split; [done | reflexivity]|]).
    by apply elem_of_nil in Hin. }
  destruct Hext as [Hext1 Hext2].
  assert (Hbase : filepath_Base (ftpPath_of env (docShort_of (pathParts u) +:+ ext))
                  = docShort_of (pathParts u) +:+ ext).
  { unfold ftpPath_of. apply filepath_Base_join.
    - by apply append_nonempty_r.
    - apply no_slash_app; [by apply docShort_no_slash | done]. }
  rewrite Hbase. repeat split; done.
Qed.

(** ** The page and its [srcset]s *)

Section Srcset.

Context (env : Env).

Lemma add_source_entry m src :
  add_source env m src
  = match source_entry env src with
    | Some (resolution, urlPart) => <[resolution := urlPart]> m
    | None => m
    end.
Proof.
  unfold add_source, source_entry.
  destruct (strings_Fields env (strings_TrimSpace env src)) as [|urlPart [|res [|]]]; try done.
  destruct (strings_HasSuffix res "w"); [|done].
  by destruct (strconv_Atoi env _).
Qed.

Lemma urls_at_cons width src sources :
  urls_at env width (src :: sources)
  = match source_entry env src with
    | Some (resolution, urlPart) =>
        if Z.eqb resolution width then urlPart :: urls_at env width sources
        else urls_at env width sources
    | None => urls_at env width sources
    end.
Proof.
  unfold urls_at. simpl. destruct (source_entry env src) as [[resolution urlPart]|]; [|done].
  by destruct (Z.eqb resolution width).
Qed.

Lemma foldl_add_source width sources : forall m,
  foldl (add_source env) m sources !! width
  = match last (urls_at env width sources) with
    | Some url => Some url
    | None => m !! width
    end.
Proof.
  induction sources as [|src sources IH]; intros m; [done|].
  simpl foldl. rewrite IH, add_source_entry, urls_at_cons.
  destruct (source_entry env src) as [[resolution urlPart]|]; [|done].
  destruct (Z.eqb_spec resolution width) as [->|Hne].
  - rewrite last_cons. destruct (last (urls_at env width sources)); [done|].
    by rewrite lookup_insert_eq.
  - destruct (last (urls_at env width sources)); [done|]. by rewrite lookup_insert_ne.
Qed.

Lemma allSlideImages_nil doc :
  allSlideImages env doc = [] <->
  forall srcset, Some srcset ∈ doc_srcsets doc -> slideResolutions_of env srcset = ∅.
Proof.
  unfold allSlideImages. induction (doc_srcsets doc) as [|[s|] l IH]; simpl.
  - split; [intros _ s Hs; by apply elem_of_nil in Hs | done].
  - rewrite filter_cons. destruct (decide (base.size (slideResolutions_of env s) ≠ 0%nat)) as [Hs|Hs].
    + split; [done|]. intros H. exfalso. apply Hs. rewrite (H s); [done | by left].
    + rewrite IH. split.
      * intros H s' [[= ->]|Hs']%elem_of_cons; [|by apply H].
        apply map_size_empty_inv. lia.
      * intros H s' Hs'. apply H. by right.
  - rewrite IH. split.
    + intros H s' [[=]|Hs']%elem_of_cons. by apply H.
    + intros H s' Hs'. apply H. by right.
Qed.

Lemma allSlideImages_nonempty doc :
  Forall (fun slide : gmap Z string => slide <> ∅) (allSlideImages env doc).
Proof.
  unfold allSlideImages. apply Forall_forall. intros slide Hin.
  apply list_elem_of_filter in Hin as [Hsize _]. intros ->. by apply Hsize.
Qed.

End Srcset.

(** X12.  The width-to-URL map of a [srcset] holds, at every width, the URL
    of the last source that names this width, and nothing at a width no
    source names; a source that has not exactly two fields, or whose second
    field is not a number followed by [w], contributes nothing. *)
Theorem srcset_last_source_wins env srcset width :
  slideResolutions_of env srcset !! width
  = last (urls_at env width (strings_Split srcset ","%char)).
Proof.
  unfold slideResolutions_of. rewrite foldl_add_source.
  by destruct (last (urls_at env width (strings_Split srcset ","%char))).
Qed.

(** One call, nothing else touched; slides only with a width to offer. *)
Lemma FetchSlideImages_spec env urlStr w r w' :
  FetchSlideImages env urlStr w = (r, w') ->
  trace w' = trace w ++ replicate (client_sends env (clock w) urlStr None)
                          (HttpGet urlStr None) /\
  files w' = files w /\
  remote w' = remote w /\
  remote_dirs w' = remote_dirs w /\
  match r with
  | Ok slidesData =>
      slides slidesData <> [] /\
      Forall (fun slide : gmap Z string => slide <> ∅) (slides slidesData)
  | Err _ => True
  end.
Proof.
  unfold FetchSlideImages, bind, wrap_err, client_Do, throw, ret.
  destruct (http_Do env (clock w) urlStr None) as [msg|status body]; [by intros [= <- <-]|].
  destruct (negb (Z.eqb status 200)); [by intros [= <- <-]|].
  destruct (goquery_NewDocument env body) as [doc|e]; [|by intros [= <- <-]].
  destruct (Nat.eqb_spec (length (allSlideImages env doc)) 0) as [|Hlen];
    intros [= <- <-]; [done|]. simpl.
  repeat split; try done.
  - intros Hnil. by rewrite Hnil in Hlen.
  - apply allSlideImages_nonempty.
Qed.

(** X13.  [FetchSlideImages] calls the client once, for the page and without
    a timeout.  The GETs this puts on the wire are all for the page: five at
    most (the client, built without options, sends a GET again when its
    connection fails) and one at least when the server has answered.  It
    touches neither the local files nor the FTP server, whatever it returns.
    When it succeeds there is at least one slide, and every slide offers at
    least one width. *)
Theorem page_fetch_is_one_call env urlStr w :
  let sends := client_sends env (clock w) urlStr None in
  trace (snd (FetchSlideImages env urlStr w))
    = trace w ++ replicate sends (HttpGet urlStr None) /\
  (sends <= 5)%nat /\
  (forall status body,
     http_Do env (clock w) urlStr None = Response status body -> (1 <= sends)%nat) /\
  files (snd (FetchSlideImages env urlStr w)) = files w /\
  remote (snd (FetchSlideImages env urlStr w)) = remote w /\
  remote_dirs (snd (FetchSlideImages env urlStr w)) = remote_dirs w /\
  match fst (FetchSlideImages env urlStr w) with
  | Ok slidesData =>
      slides slidesData <> [] /\
      Forall (fun slide : gmap Z string => slide <> ∅) (slides slidesData)
  | Err _ => True
  end.
Proof.
  intros sends.
  destruct (FetchSlideImages env urlStr w) as [r w'] eqn:H.
  apply FetchSlideImages_spec in H. destruct H as (Htr & Hf & Hr & Hd & H).
  split; [done|]. split; [apply client_sends_le|].
  split; [intros status body Hhttp; by eapply client_sends_ge | done].
Qed.

(** X14.  For a page that was served with status 200 and parsed: the answer
    is the 404 error "No slide images found" exactly when no slide image
    has a [srcset] with a usable source. *)
Theorem page_without_slide_images env urlStr w body doc :
  http_Do env (clock w) urlStr None = Response 200 body ->
  goquery_NewDocument env body = Ok doc ->
  (fst (FetchSlideImages env urlStr w) = Err (CustomAPIError 404 "No slide images found")
   <-> forall srcset, Some srcset ∈ doc_srcsets doc -> slideResolutions_of env srcset = ∅).
Proof.
  intros Hhttp Hdoc. rewrite <- allSlideImages_nil.
  unfold FetchSlideImages, bind, wrap_err, client_Do, throw, ret. rewrite Hhttp. simpl.
  rewrite Hdoc. destruct (allSlideImages env doc) as [|slide rest]; simpl; by split.
Qed.

(** ** The disk after a request *)

Section DiskAfterRequest.

Context (env : Env).

Lemma keeps_FetchSlideImages urlStr : keeps_files (FetchSlideImages env urlStr).
Proof.
  intros w. destruct (FetchSlideImages env urlStr w) as [r w'] eqn:H.
  by apply FetchSlideImages_spec in H as (_ & ? & _).
Qed.

(** A converter leaves the disk as it was, unless its fetch stage failed. *)
Lemma after_fetch_files {A} (body : list string -> M A) urls maxConcurrency sched w r w' :
  (forall paths v, files (snd (body paths v)) = files v) ->
  bindB (fetchImagesConcurrently env urls maxConcurrency sched)
        (fun imagePaths => lift (defer (remove_all imagePaths) (body imagePaths))) w
  = Some (r, w') ->
  files w' = files w \/
  exists err, r = Err (CustomAPIError 500 ("Failed to fetch images: " +:+ Error err)).
Proof.
  intros Hbody H. unfold bindB, lift in H.
  destruct (fetchImagesConcurrently env urls maxConcurrency sched w)
    as [[[paths|e] w1]|] eqn:Hfetch; [| |done].
  - left. injection H as H.
    destruct (export_restores_files env (body paths) _ _ _ _ _ _ Hfetch (Hbody paths))
      as [Hfiles _].
    by rewrite H in Hfiles.
  - right. injection H as <- _. apply fetch_err_detail in Hfetch.
    destruct Hfetch as [err ->]. eauto.
Qed.

Lemma convert_files conversionType urls docShort sched w r w' :
  convert env conversionType urls docShort sched w = Some (r, w') ->
  files w' = files w \/
  exists err, r = Err (CustomAPIError 500 ("Failed to fetch images: " +:+ Error err)).
Proof.
  unfold convert.
  assert (Hmsg : forall (m : B (string * Z)) msg,
            (forall r0 w0, m w = Some (r0, w0) ->
               files w0 = files w \/
               exists err, r0 = Err (CustomAPIError 500
                                       ("Failed to fetch images: " +:+ Error err))) ->
            bindB m (fun r0 => lift (ret (r0, msg))) w = Some (r, w') ->
            files w' = files w \/
            exists err, r = Err (CustomAPIError 500 ("Failed to fetch images: " +:+ Error err))).
  { intros m msg Hm H. unfold bindB, lift, ret in H.
    destruct (m w) as [[[r0|e] w0]|] eqn:Hmw; [| |done]; injection H as <- <-.
    - destruct (Hm _ _ eq_refl) as [?|[err ?]]; [by left | done].
    - destruct (Hm _ _ eq_refl) as [?|[err [= ->]]]; [by left | right; eauto]. }
  destruct (String.eqb conversionType PDF);
    [|destruct (String.eqb conversionType PPTX);
      [|destruct (String.eqb conversionType ImagesZip)]].
  - apply Hmsg. intros r0 w0.
    apply (after_fetch_files (fun paths =>
             if Nat.eqb (length paths) 0
             then throw (CustomAPIError 500 "No images to convert to PDF")
             else buildAndPublishPDF env paths (docShort +:+ ".pdf"))).
    intros paths v. destruct (Nat.eqb (length paths) 0); [done|].
    apply keeps_buildAndPublishPDF.
  - apply Hmsg. intros r0 w0.
    apply (after_fetch_files (fun paths =>
             let* p := ppt_add_slides env [] paths in
             let* tmpPPTX := os_CreateTemp env "" "slides-" ".pptx" in
             defer (os_Remove tmpPPTX)
               (wrap_err (fun err => errorString ("failed to save PPTX: " +:+ Error err))
                  (file_Write env tmpPPTX (ppt_Output env p)) ;;
                publish env tmpPPTX (docShort +:+ ".pptx")
                  (fun err => errorString ("FTP upload failed: " +:+ Error err))))).
    intros paths. apply keeps_pptx_and_publish.
  - apply Hmsg. intros r0 w0.
    apply (after_fetch_files (fun paths =>
             let* tmpZip := os_CreateTemp env "" "slides-" ".zip" in
             defer (os_Remove tmpZip)
               (writeZip env paths tmpZip ;;
                publish env tmpZip (docShort +:+ ".zip")
                  (fun err => CustomAPIError 500 ("FTP upload failed: " +:+ Error err))))).
    intros paths v. apply keeps_zip_and_publish.
  - intros [= <- <-]. by left.
Qed.

Lemma GetSlidesDownloadLink_files urlStr conversionType qualityType sched w r w' :
  GetSlidesDownloadLink env urlStr conversionType qualityType sched w = Some (r, w') ->
  files w' = files w \/
  exists err, r = Err (CustomAPIError 500 ("Failed to fetch images: " +:+ Error err)).
Proof.
  unfold GetSlidesDownloadLink.
  destruct (ValidateURL env urlStr); [intros [= <- <-]; by left|].
  destruct (url_Parse env urlStr) as [u|]; [|intros [= <- <-]; by left].
  destruct (Nat.ltb (length (pathParts u)) 2); [intros [= <- <-]; by left|].
  unfold bindB at 1, lift at 1.
  pose proof (keeps_FetchSlideImages urlStr w) as Hpage.
  destruct (FetchSlideImages env urlStr w) as [[slidesData|e] w1]; simpl in Hpage;
    [|intros [= <- <-]; by left].
  destruct (select_resolution (slides slidesData) qualityType) as [[urls thumb]|e];
    [|intros [= <- <-]; by left].
  unfold bindB.
  destruct (convert env conversionType urls _ sched w1) as [[[[[path sz] msg]|e] w2]|]
    eqn:Hconv; [| |done]; intros [= <- <-]; apply convert_files in Hconv;
    (destruct Hconv as [Hfiles|[err Herr]]; [left; congruence|]);
    [done | right; injection Herr as ->; eauto].
Qed.

End DiskAfterRequest.

(** X25.  Whatever a request returns, the local disk is as it was before,
    unless the request failed in the fetch stage (with the 500 error "Failed
    to fetch images: ..."), which is the one case where a file can
    remain. *)
Theorem request_leaves_disk_clean env params sched w r w' :
  convertHandler env params sched w = Some (r, w') ->
  files w' = files w \/
  exists err, r = Err (CustomAPIError 500 ("Failed to fetch images: " +:+ Error err)).
Proof.
  unfold convertHandler. destruct params as [p|]; [|intros [= <- <-]; by left].
  destruct (String.eqb (strings_TrimSpace env (param_URL p)) ""); [intros [= <- <-]; by left|].
  apply GetSlidesDownloadLink_files.
Qed.

(** ** From the URLs to the uploaded file *)

Section EndToEnd.

Context (env : Env).

(** What the fetch stage hands to the exporter: for each URL, in its slot,
    a file that holds the JPEG of what the URL served. *)
Lemma fetched_files urls maxConcurrency sched w paths w1 :
  fetchImagesConcurrently env urls maxConcurrency sched w = Some (Ok paths, w1) ->
  length paths = length urls /\
  remote w1 = remote w /\
  Forall (fun path => is_Some (files w1 !! path)) paths /\
  forall i url, urls !! i = Some url ->
    exists path data,
      paths !! i = Some path /\ files w1 !! path = Some data /\ jpeg_of env url data.
Proof.
  intros H. apply fetch_ok_summary in H.
  destruct H as (Hlen & Hslot & _ & Hmem & _ & Hremote).
  split; [done|]. split; [done|]. split.
  - apply Forall_forall. intros path Hin. by destruct (Hmem path Hin) as (_ & _ & ?).
  - intros i url Hu. destruct (Hslot i url Hu) as (path & Hpath & Hprod).
    destruct Hprod as (_ & _ & t & body & img & data & Hhttp & Hdec & Henc & Hdata).
    exists path, data. repeat split; [done..|]. by exists t, body, img.
Qed.

(** A temporary file just created is none of the files that were there. *)
Lemma lookup_beside_temp (fs : gmap string bytes) tmp paths :
  fs !! tmp = None ->
  Forall (fun path => is_Some (fs !! path)) paths ->
  Forall (fun path => (<[tmp := []]> fs) !! path = fs !! path) paths.
Proof.
  intros Hfresh Hall. eapply Forall_impl; [exact Hall|]. intros path [c Hc]. simpl.
  apply lookup_insert_ne. intros ->. congruence.
Qed.

Lemma exportZip_spec paths filename w path sz w' :
  Forall (fun imgPath => is_Some (files w !! imgPath)) paths ->
  exportZip env paths filename w = (Ok (path, sz), w') ->
  path = ftpPath_of env filename /\
  exists contents,
    Forall2 (fun imgPath c => files w !! imgPath = Some c) paths contents /\
    remote w' = <[path := zip_Output env (imap (fun j c => (entry_name j, c)) contents)]>
                  (remote w) /\
    sz = Z.of_nat (length (zip_Output env (imap (fun j c => (entry_name j, c)) contents))).
Proof.
  intros Hexist. unfold exportZip. intros H. apply defer_inv in H.
  destruct H as (wz & H & ->). rewrite remote_remove_all.
  apply bind_inv in H. destruct H as [(tmp & wb & Htmp & H)|(? & _ & ?)]; [|done].
  apply os_CreateTemp_spec in Htmp. destruct Htmp as (Hrb & _ & Hfresh & Hfb & _).
  apply built_and_published in H; [|eauto with quiet].
  destruct H as (entries & wc & data & Hzip & Hdata & -> & Hremote & ->).
  unfold writeZip in Hzip.
  apply bind_inv in Hzip. destruct Hzip as [(es & wa & Hadd & Hzip)|(? & _ & ?)]; [|done].
  apply zip_add_entries_spec in Hadd. destruct Hadd as (Hfa & contents & Hall & ->).
  apply bind_inv in Hzip. destruct Hzip as [([] & wd & Hclose & Hzip)|(? & _ & ?)]; [|done].
  injection Hzip as <- <-.
  apply wrap_err_inv in Hclose. destruct Hclose as [([] & Hclose & _)|(? & _ & ?)]; [|done].
  apply file_Write_ok in Hclose. destruct Hclose as [Hfd _].
  rewrite Hfd, lookup_insert_eq in Hdata. injection Hdata as <-.
  split; [done|]. exists contents. simpl. split; [|split; [congruence | done]].
  pose proof (lookup_beside_temp _ _ _ Hfresh Hexist) as Hsame.
  rewrite <- Hfb in Hsame. clear -Hall Hsame.
  induction Hall as [|p c ps cs Hp Hrest IH]; [constructor|].
  inversion Hsame; subst. constructor; [congruence | by apply IH].
Qed.

Lemma exportPDF_spec paths filename w path sz w' :
  Forall (fun imgPath => is_Some (files w !! imgPath)) paths ->
  exportPDF env paths filename w = (Ok (path, sz), w') ->
  path = ftpPath_of env filename /\
  exists dims,
    Forall2 (fun imgPath d => exists data, files w !! imgPath = Some data /\
                                           image_DecodeConfig env data = Ok d) paths dims /\
    remote w' = <[path := fpdf_Output env
                             (zip_with (fitted_page (fpdf_PageSize env "P" "mm" "A4"))
                                paths dims)]> (remote w) /\
    sz = Z.of_nat (length (fpdf_Output env
                             (zip_with (fitted_page (fpdf_PageSize env "P" "mm" "A4"))
                                paths dims))).
Proof.
  intros Hexist. unfold exportPDF. intros H. apply defer_inv in H.
  destruct H as (wz & H & ->). rewrite remote_remove_all.
  destruct (Nat.eqb (length paths) 0); [done|]. unfold buildAndPublishPDF in H.
  apply bind_inv in H. destruct H as [(tmp & wb & Htmp & H)|(? & _ & ?)]; [|done].
  apply os_CreateTemp_spec in Htmp. destruct Htmp as (Hrb & _ & Hfresh & Hfb & _).
  apply built_and_published in H; [|eauto with quiet].
  destruct H as ([] & wc & data & Hpdf & Hdata & -> & Hremote & ->).
  apply wrap_err_inv in Hpdf. destruct Hpdf as [([] & Hpdf & _)|(? & _ & ?)]; [|done].
  unfold convertImagePathsToPDF in Hpdf.
  apply bind_inv in Hpdf. destruct Hpdf as [(pdf & wa & Hadd & Hout)|(? & _ & ?)]; [|done].
  unfold pdf_OutputFileAndClose in Hout.
  destruct (fpdf_err pdf) as [err|] eqn:Herr; [done|].
  apply pdf_add_images_spec in Hadd; [|done].
  destruct Hadd as (_ & Hfa & _ & dims & Hall & Hpages).
  apply file_Write_ok in Hout. destruct Hout as [Hfc _].
  rewrite Hfc, lookup_insert_eq in Hdata. injection Hdata as <-.
  change (fpdf_pages pdf = zip_with (fitted_page (fpdf_PageSize env "P" "mm" "A4")) paths dims)
    in Hpages.
  rewrite Hpages in Hremote |- *. split; [done|]. exists dims.
  split; [|split; [congruence | done]].
  pose proof (lookup_beside_temp _ _ _ Hfresh Hexist) as Hsame.
  rewrite <- Hfb in Hsame. clear -Hall Hsame.
  induction Hall as [|p d ps ds Hp Hrest IH]; [constructor|].
  inversion Hsame; subst. constructor; [|by apply IH].
  destruct Hp as (data & Hdata & Hd). exists data. split; [congruence | done].
Qed.

(** A document without error has taken every file as an image. *)
Lemma pdf_add_images_registers imagePaths : forall pdf w pdf' w',
  pdf_add_images env pdf imagePaths w = (Ok pdf', w') ->
  fpdf_err pdf' = None ->
  Forall (fun imgPath => exists data, files w !! imgPath = Some data /\
                                      fpdf_RegisterImage env imgPath data = None) imagePaths.
Proof.
  induction imagePaths as [|imgPath rest IH]; intros pdf w pdf' w' H Herr'; [constructor|].
  simpl in H.
  apply bind_inv in H. destruct H as [(pdf1 & w1 & Hone & H)|(? & _ & ?)]; [|done].
  pose proof (pdf_add_images_spec env rest _ _ _ _ H Herr') as (Herr1 & _).
  apply IH in H; [|done].
  pose proof (pdf_add_image_spec env _ _ _ _ _ Hone Herr1) as (Herr & Hf1 & _).
  constructor.
  - unfold pdf_add_image in Hone.
    apply bind_inv in Hone. destruct Hone as [(file & v1 & Hopen & Hone)|(? & _ & ?)]; [|done].
    apply os_Open_ok in Hopen. destruct Hopen as (-> & Hfv1 & _ & _).
    apply bind_inv in Hone. destruct Hone as [(dims & v2 & Hcfg & Hone)|(? & _ & ?)]; [|done].
    pose proof (unchanged_image_DecodeConfig_file files env imgPath v1) as Hfv2.
    rewrite Hcfg in Hfv2. simpl in Hfv2.
    destruct (pdf_GetPageSize env pdf) as [pageWidth pageHeight].
    destruct (fit_to_page pageWidth pageHeight dims.1 dims.2) as [width height].
    unfold pdf_Image, pdf_AddPage in Hone. rewrite Herr in Hone. simpl in Hone.
    rewrite Hfv2, Hfv1 in Hone.
    destruct (files w !! imgPath) as [data|] eqn:Hdata.
    2:{ injection Hone as <- _. simpl in Herr1. done. }
    exists data. split; [done|].
    destruct (fpdf_RegisterImage env imgPath data) as [msg|] eqn:Hreg; [|done].
    injection Hone as <- _. simpl in Herr1. done.
  - eapply Forall_impl; [exact H|]. intros p (data & Hdata & Hreg). exists data.
    split; [congruence | done].
Qed.

Lemma exportPDF_registers paths filename w path sz w' :
  Forall (fun imgPath => is_Some (files w !! imgPath)) paths ->
  exportPDF env paths filename w = (Ok (path, sz), w') ->
  Forall (fun imgPath => exists data, files w !! imgPath = Some data /\
                                      fpdf_RegisterImage env imgPath data = None) paths.
Proof.
  intros Hexist. unfold exportPDF. intros H. apply defer_inv in H.
  destruct H as (wz & H & ->).
  destruct (Nat.eqb (length paths) 0); [done|]. unfold buildAndPublishPDF in H.
  apply bind_inv in H. destruct H as [(tmp & wb & Htmp & H)|(? & _ & ?)]; [|done].
  apply os_CreateTemp_spec in Htmp. destruct Htmp as (Hrb & _ & Hfresh & Hfb & _).
  apply built_and_published in H; [|eauto with quiet].
  destruct H as ([] & wc & data & Hpdf & _).
  apply wrap_err_inv in Hpdf. destruct Hpdf as [([] & Hpdf & _)|(? & _ & ?)]; [|done].
  unfold convertImagePathsToPDF in Hpdf.
  apply bind_inv in Hpdf. destruct Hpdf as [(pdf & wa & Hadd & Hout)|(? & _ & ?)]; [|done].
  unfold pdf_OutputFileAndClose in Hout.
  destruct (fpdf_err pdf) as [err|] eqn:Herr; [done|].
  apply pdf_add_images_registers in Hadd; [|done].
  pose proof (lookup_beside_temp _ _ _ Hfresh Hexist) as Hsame.
  rewrite <- Hfb in Hsame.
  rewrite Forall_forall in Hadd, Hsame. apply Forall_forall. intros p Hp.
  destruct (Hadd p Hp) as (dat & Hdat & Hreg). exists dat. split; [|done].
  rewrite <- (Hsame p Hp). done.
Qed.

(** The contents of the fetched files, slot by slot. *)
Lemma contents_by_slot urls paths contents (fs : gmap string bytes) :
  length paths = length urls ->
  (forall i url, urls !! i = Some url ->
     exists path data, paths !! i = Some path /\ fs !! path = Some data /\
                       jpeg_of env url data) ->
  Forall2 (fun imgPath c => fs !! imgPath = Some c) paths contents ->
  length contents = length urls /\
  forall i url, urls !! i = Some url ->
    exists data, contents !! i = Some data /\ jpeg_of env url data.
Proof.
  intros Hlen Hslot Hall. split.
  - by rewrite <- (Forall2_length _ _ _ Hall).
  - intros i url Hu. destruct (Hslot i url Hu) as (path & data & Hpath & Hdata & Hjpeg).
    destruct (Forall2_lookup_l _ _ _ _ _ Hall Hpath) as (c & Hc & Hfile).
    exists data. split; [congruence | done].
Qed.

End EndToEnd.

(** X26.  What a successful conversion to an archive or to a slide deck has
    put on the server, in terms of the URLs it was given.  The archive holds
    one entry per URL, in the order of the URLs, named [image_1.jpg],
    [image_2.jpg], ..., each the JPEG (quality 90) of the image its URL
    served; the slide deck holds those JPEGs, one slide per URL in the same
    order.  In each case the size returned is the length of the file
    stored. *)
Theorem conversion_uploads_what_the_urls_served env urls filename sched w path sz w' :
  (ConvertURLsToZip env urls filename sched w = Some (Ok (path, sz), w') ->
   exists contents,
     length contents = length urls /\
     (forall i url, urls !! i = Some url ->
        exists data, contents !! i = Some data /\ jpeg_of env url data) /\
     remote w' !! path
       = Some (zip_Output env (imap (fun i data => (entry_name i, data)) contents)) /\
     sz = Z.of_nat (length (zip_Output env
                              (imap (fun i data => (entry_name i, data)) contents)))) /\
  (ConvertURLsToPPTX env urls filename sched w = Some (Ok (path, sz), w') ->
   exists contents,
     length contents = length urls /\
     (forall i url, urls !! i = Some url ->
        exists data, contents !! i = Some data /\ jpeg_of env url data) /\
     remote w' !! path = Some (ppt_Output env contents) /\
     sz = Z.of_nat (length (ppt_Output env contents))).
Proof.
  split; intros H; apply bindB_lift_ok in H;
    destruct H as (paths & w1 & Hfetch & Hexp);
    apply fetched_files in Hfetch; destruct Hfetch as (Hlen & Hremote & Hexist & Hslot).
  - apply exportZip_spec in Hexp; [|done].
    destruct Hexp as (-> & contents & Hall & -> & ->).
    destruct (contents_by_slot env _ _ _ _ Hlen Hslot Hall) as [Hlen' Hcontents].
    exists contents. rewrite lookup_insert_eq. done.
  - apply exportPPTX_spec in Hexp.
    destruct Hexp as (-> & contents & Hall & -> & ->).
    destruct (contents_by_slot env _ _ _ _ Hlen Hslot Hall) as [Hlen' Hcontents].
    exists contents. rewrite lookup_insert_eq. done.
Qed.

(** X28.  What a successful conversion to PDF has put on the server, in terms
    of the URLs it was given.  The fetch stage has left one temporary file
    per URL, all of different names, the file at position [i] holding the
    JPEG (quality 90) of the image the URL at position [i] served.  The
    document has taken the bytes of each of these files as the image of
    that file's name, and its page [i] shows exactly the image named after
    the file at position [i], at the top-left corner, fitted to the page by
    the width and height of that JPEG: page [i] shows the image of URL [i].
    The size returned is the length of the file stored. *)
Theorem pdf_pages_show_the_urls env urls filename sched w path sz w' :
  ConvertURLsToPDF env urls filename sched w = Some (Ok (path, sz), w') ->
  exists imagePaths w1 pages,
    fetchImagesConcurrently env urls 25000 sched w = Some (Ok imagePaths, w1) /\
    NoDup imagePaths /\
    length pages = length urls /\
    (forall i url, urls !! i = Some url ->
       exists name data d,
         imagePaths !! i = Some name /\
         files w1 !! name = Some data /\
         jpeg_of env url data /\
         fpdf_RegisterImage env name data = None /\
         image_DecodeConfig env data = Ok d /\
         pages !! i = Some (fitted_page (fpdf_PageSize env "P" "mm" "A4") name d)) /\
    remote w' !! path = Some (fpdf_Output env pages) /\
    sz = Z.of_nat (length (fpdf_Output env pages)).
Proof.
  intros H. apply bindB_lift_ok in H. destruct H as (paths & w1 & Hfetch & Hexp).
  pose proof (fetch_ok_summary env _ _ _ _ _ _ Hfetch) as (_ & _ & Hnodup & _).
  pose proof (fetched_files env _ _ _ _ _ _ Hfetch) as (Hlen & Hremote & Hexist & Hslot).
  pose proof (exportPDF_registers env _ _ _ _ _ _ Hexist Hexp) as Hreg.
  apply exportPDF_spec in Hexp; [|done].
  destruct Hexp as (-> & dims & Hall & -> & ->).
  exists paths, w1, (zip_with (fitted_page (fpdf_PageSize env "P" "mm" "A4")) paths dims).
  rewrite lookup_insert_eq. split; [done|]. split; [done|].
  assert (Hdims : length dims = length paths) by (symmetry; by eapply Forall2_length).
  split; [rewrite length_zip_with; lia|]. split; [|done].
  intros i url Hu. destruct (Hslot i url Hu) as (name & data & Hname & Hdata & Hjpeg).
  destruct (Forall2_lookup_l _ _ _ _ _ Hall Hname) as (d & Hd & data' & Hdata' & Hcfg).
  assert (data' = data) as -> by congruence.
  exists name, data, d. repeat split; try done.
  - rewrite Forall_lookup in Hreg. destruct (Hreg i name Hname) as (data'' & Hd'' & Hr).
    congruence.
  - rewrite lookup_zip_with, Hname. simpl. by rewrite Hd.
Qed.

(** ** The theorems at work on concrete inputs *)

(** The upload is refused by the server after the PDF has been written: the
    two images and the PDF are gone all the same. *)
Lemma conversion_leaves_no_files_witness :
  let env := Demo.env_with Demo.network (fun _ => None) (Some "552 quota exceeded") in
  exists r w',
    ConvertURLsToPDF env ["s1-2048.jpg"; "s2-2048.jpg"] "deck.pdf" [1; 0; 1; 0; 1; 0; 1; 0]%nat Demo.w0
    = Some (r, w') /\
    files w' = files Demo.w0 /\
    Forall (fun path => files w' !! path = None) ["/tmp/slide-3.jpg"; "/tmp/slide-2.jpg"].
Proof.
  intros env.
  refine (proj1 (conversion_leaves_no_files env ["s1-2048.jpg"; "s2-2048.jpg"] "deck.pdf"
                   [1; 0; 1; 0; 1; 0; 1; 0]%nat Demo.w0)
            ["/tmp/slide-3.jpg"; "/tmp/slide-2.jpg"]
            (snd (default (Err (errorString ""), Demo.w0)
                    (fetchImagesConcurrently env ["s1-2048.jpg"; "s2-2048.jpg"] 25000
                       [1; 0; 1; 0; 1; 0; 1; 0]%nat Demo.w0))) _).
  vm_compute. reflexivity.
Defined.

Lemma fetchImagesConcurrently_returns_witness :
  exists r w',
    fetchImagesConcurrently Demo.env ["s1-2048.jpg"; "wide.png"; "text.txt"] 1
      (one_by_one 0 3) Demo.w0 = Some (r, w').
Proof.
  exact (fetchImagesConcurrently_returns Demo.env ["s1-2048.jpg"; "wide.png"; "text.txt"] 1
           Demo.w0 ltac:(lia)).
Defined.

(** The disk is full when the first task writes its JPEG, the second image
    is too wide for the encoder, the third task succeeds: its file is
    removed, the first task's file stays with the three bytes that were
    written, the second's stays empty. *)
Lemma failed_fetch_cleanup_witness :
  let env := Demo.env_of Demo.network
               (fun t => if Nat.eqb t 2
                         then Some "write /tmp/slide-1.jpg: no space left on device"
                         else None)
               3 (Demo.server None) None in
  let urls := ["s1-2048.jpg"; "wide.png"; "s2-2048.jpg"] in
  let p := fst (run_schedule env urls 1 (one_by_one 0 3) (init_pool (length urls), Demo.w0)) in
  exists e w1,
    fetchImagesConcurrently env urls 1 (one_by_one 0 3) Demo.w0 = Some (Err e, w1) /\
    files w1 !! "/tmp/slide-1.jpg" = Some [xff; xd8; x08] /\
    files w1 !! "/tmp/slide-4.jpg" = Some [] /\
    files w1 !! "/tmp/slide-6.jpg" = None /\
    (exists err, e = CustomAPIError 500 ("Failed to fetch images: " +:+ Error err)) /\
    (exists i url err,
       urls !! i = Some url /\ errors p !! i = Some (Some err) /\
       partial_jpeg env url [xff; xd8; x08]).
Proof.
  intros env urls p.
  assert (Hrun : exists e w1,
            fetchImagesConcurrently env urls 1 (one_by_one 0 3) Demo.w0 = Some (Err e, w1) /\
            files w1 !! "/tmp/slide-1.jpg" = Some [xff; xd8; x08] /\
            files w1 !! "/tmp/slide-4.jpg" = Some [] /\
            files w1 !! "/tmp/slide-6.jpg" = None)
    by (vm_compute; eexists _, _; repeat split; reflexivity).
  destruct Hrun as (e & w1 & Hrun & H1 & H4 & H6). exists e, w1.
  destruct (failed_fetch_cleanup env urls 1 _ Demo.w0 e w1 Hrun) as (He & _ & Hleft).
  repeat split; try done.
  exact (Hleft "/tmp/slide-1.jpg" [xff; xd8; x08] eq_refl H1).
Defined.


(** A landscape and a portrait image, 2048 by 1152 and 1152 by 2048, on a
    page of 210 by 297: the first is fitted to the width, the second to the
    height. *)
Lemma pdf_one_fitted_page_per_image_witness :
  let a := [xff; xd8; x08; x00; x04; x80; x5a; x01] in
  let b := [xff; xd8; x04; x80; x08; x00; x5a; x02] in
  let w := Demo.two_files "/tmp/a.jpg" "/tmp/b.jpg" "/tmp/out.pdf" a b in
  let imagePaths := ["/tmp/a.jpg"; "/tmp/b.jpg"] in
  exists w',
    convertImagePathsToPDF Demo.env imagePaths "/tmp/out.pdf" w = (Ok tt, w') /\
    fitted_page (210, 297)%float "/tmp/a.jpg" (2048, 1152)
      = [ {| pl_image := "/tmp/a.jpg"; pl_x := 0; pl_y := 0;
             pl_w := 210; pl_h := 118.125 |} ]%float /\
    fitted_page (210, 297)%float "/tmp/b.jpg" (1152, 2048)
      = [ {| pl_image := "/tmp/b.jpg"; pl_x := 0; pl_y := 0;
             pl_w := 167.0625; pl_h := 297 |} ]%float /\
    exists dims,
      Forall2 (fun path d => exists data, files w !! path = Some data /\
                                          image_DecodeConfig Demo.env data = Ok d)
              imagePaths dims /\
      files w' !! "/tmp/out.pdf"
        = Some (fpdf_Output Demo.env
                  (zip_with (fitted_page (fpdf_PageSize Demo.env "P" "mm" "A4"))
                     imagePaths dims)) /\
      length (zip_with (fitted_page (fpdf_PageSize Demo.env "P" "mm" "A4")) imagePaths dims)
        = length imagePaths /\
      trace w' = trace w ++ map ImageDecodeConfig imagePaths.
Proof.
  intros a b w imagePaths.
  assert (Hrun : convertImagePathsToPDF Demo.env imagePaths "/tmp/out.pdf" w
                 = (Ok tt, snd (convertImagePathsToPDF Demo.env imagePaths "/tmp/out.pdf" w)))
    by (vm_compute; reflexivity).
  eexists. split; [exact Hrun|].
  split; [vm_compute; reflexivity|]. split; [vm_compute; reflexivity|].
  exact (pdf_one_fitted_page_per_image Demo.env imagePaths "/tmp/out.pdf" w _
           ltac:(discriminate) Hrun).
Defined.

(** A URL on another host and a URL with a one-segment path are refused with
    the world untouched; the deck's URL, converted to PDF, is stored under
    its second-to-last segment. *)
Lemma url_checked_before_fetch_witness :
  (exists detail,
     GetSlidesDownloadLink Demo.env "https://slideshare.net/slideshow/verified-go/42"
       PDF HD [] Demo.w0 = Some (Err (CustomAPIError 400 detail), Demo.w0)) /\
  (exists detail,
     GetSlidesDownloadLink Demo.env "https://www.slideshare.net/deck"
       PDF HD [] Demo.w0 = Some (Err (CustomAPIError 400 detail), Demo.w0)) /\
  (exists resp w' before last ext remotePath,
     GetSlidesDownloadLink Demo.env Demo.page_url PDF HD [0; 0; 0; 0; 1; 1; 1; 1; 2; 2; 2; 2]%nat Demo.w0
       = Some (Ok resp, w') /\
     pathParts {| Host := "www.slideshare.net"; Path := "/slideshow/verified-go/42" |}
       = before ++ ["verified-go"; last] /\
     remotePath = "SS_DL/03112026/verified-go" +:+ ext /\
     is_Some (remote w' !! remotePath) /\
     slides_download_link (data resp) = "https://files.example/" +:+ remotePath).
Proof.
  split; [|split].
  - refine (proj1 (url_checked_before_fetch Demo.env
                     "https://slideshare.net/slideshow/verified-go/42" PDF HD [] Demo.w0
                     {| Host := "slideshare.net"; Path := "/slideshow/verified-go/42" |} _) _).
    + vm_compute. reflexivity.
    + left. discriminate.
  - refine (proj1 (url_checked_before_fetch Demo.env "https://www.slideshare.net/deck"
                     PDF HD [] Demo.w0
                     {| Host := "www.slideshare.net"; Path := "/deck" |} _) _).
    + vm_compute. reflexivity.
    + right. vm_compute. lia.
  - assert (Hrun : exists resp w',
              GetSlidesDownloadLink Demo.env Demo.page_url PDF HD
                [0; 0; 0; 0; 1; 1; 1; 1; 2; 2; 2; 2]%nat Demo.w0 = Some (Ok resp, w'))
      by (vm_compute; eexists _, _; reflexivity).
    destruct Hrun as (resp & w' & Hrun).
    assert (Hparse : url_Parse Demo.env Demo.page_url
                     = Some {| Host := "www.slideshare.net";
                               Path := "/slideshow/verified-go/42" |})
      by (vm_compute; reflexivity).
    destruct (proj2 (url_checked_before_fetch Demo.env Demo.page_url PDF HD
                       [0; 0; 0; 0; 1; 1; 1; 1; 2; 2; 2; 2]%nat Demo.w0 _ Hparse) resp w' Hrun)
      as (before & docShort & last & ext & remotePath & Hparts & Hpath & Hremote & Hlink).
    exists resp, w', before, last, ext, remotePath.
    assert (docShort = "verified-go") as ->.
    { assert (Hlast2 : forall (l1 l2 : list string) (a b c d : string),
                l1 ++ [a; b] = l2 ++ [c; d] -> a = c).
      { intros l1 l2 a0 b0 c d Heq.
        apply (f_equal (@rev string)) in Heq.
        rewrite !rev_app_distr in Heq. simpl in Heq. by injection Heq. }
      symmetry. eapply (Hlast2 ["slideshow"]). exact Hparts. }
    split; [exact Hrun|]. split; [exact Hparts|]. split; [exact Hpath|].
    split; [exact Hremote | exact Hlink].
Defined.

Lemma fetch_can_always_return_witness :
  exists r w',
    fetchImagesConcurrently Demo.env ["s1-2048.jpg"; "wide.png"] 1
      ([1; 0; 1; 0]%nat ++ one_by_one 0 2 ++ one_by_one 0 2) Demo.w0 = Some (r, w').
Proof.
  apply (fetch_can_always_return Demo.env ["s1-2048.jpg"; "wide.png"] 1 [1; 0; 1; 0]%nat
           Demo.w0).
  lia.
Defined.

Lemma fetch_blocks_without_capacity_witness :
  0 <= 0 /\
  fetchImagesConcurrently Demo.env ["s1-2048.jpg"; "s2-2048.jpg"] 0 (one_by_one 0 2) Demo.w0
  = None.
Proof.
  split; [lia|].
  apply (fetch_blocks_without_capacity Demo.env ["s1-2048.jpg"; "s2-2048.jpg"] 0
           (one_by_one 0 2) Demo.w0); [lia | done].
Defined.


Lemma pptx_deck_holds_the_files_witness :
  let w := Demo.two_files "/tmp/a.jpg" "/tmp/b.jpg" "/tmp/c.jpg" [x01] [x02; x03] in
  exists sz w',
    exportPPTX Demo.env ["/tmp/a.jpg"; "/tmp/b.jpg"] "deck.pptx" w
      = (Ok ("SS_DL/03112026/deck.pptx", sz), w') /\
    exists contents,
      Forall2 (fun imgPath c => files w !! imgPath = Some c) ["/tmp/a.jpg"; "/tmp/b.jpg"]
        contents /\
      remote w' = <["SS_DL/03112026/deck.pptx" := ppt_Output Demo.env contents]> (remote w) /\
      sz = Z.of_nat (length (ppt_Output Demo.env contents)).
Proof.
  intros w.
  assert (Hrun : exists sz w',
            exportPPTX Demo.env ["/tmp/a.jpg"; "/tmp/b.jpg"] "deck.pptx" w
            = (Ok ("SS_DL/03112026/deck.pptx", sz), w'))
    by (vm_compute; eexists _, _; reflexivity).
  destruct Hrun as (sz & w' & Hrun). exists sz, w'. split; [exact Hrun|].
  exact (proj2 (pptx_deck_holds_the_files Demo.env _ _ w _ sz w' Hrun)).
Defined.


Lemma malformed_port_fails_every_request_witness :
  let env := with_Getenv (fun k => if String.eqb k "FTP_PORT" then "ftp" else "") Demo.env in
  strconv_Atoi env "ftp" = Err (errorString "strconv.Atoi: invalid syntax") /\
  (forall filePath remotePath w,
     uploadToFTP env filePath remotePath w
     = (Err (errorString "strconv.Atoi: invalid syntax"), w)) /\
  (forall urlStr conversionType qualityType sched w resp w',
     GetSlidesDownloadLink env urlStr conversionType qualityType sched w
     <> Some (Ok resp, w')).
Proof.
  intros env. split; [reflexivity|].
  apply (malformed_port_fails_every_request env). reflexivity.
Defined.

Lemma request_status_codes_witness :
  let params := Some {| param_URL := "https://www.slideshare.net/slideshow/removed/7";
                        param_ConversionType := PDF; param_Quality := "" |} in
  exists e w',
    convertHandler Demo.env params [] Demo.w0 = Some (Err e, w') /\
    let code := fst (customErrorHandler e) in
    code = 400 \/ code = 404 \/ code = 500 \/
    exists p body,
      params = Some p /\
      http_Do Demo.env (clock Demo.w0) (param_URL p) None = Response code body /\
      code <> 200.
Proof.
  intros params.
  assert (Hrun : exists e w', convertHandler Demo.env params [] Demo.w0 = Some (Err e, w'))
    by (vm_compute; eexists _, _; reflexivity).
  destruct Hrun as (e & w' & Hrun). exists e, w'. split; [exact Hrun|].
  exact (request_status_codes Demo.env params [] Demo.w0 e w' Hrun).
Defined.

Lemma pptx_failures_carry_no_detail_witness :
  let env := Demo.env_with Demo.network (fun _ => None) (Some "552 quota exceeded") in
  exists e w',
    ConvertURLsToPPTX env ["s1-2048.jpg"] "deck.pptx" (one_by_one 0 1) Demo.w0
      = Some (Err e, w') /\
    ((exists err, e = CustomAPIError 500 ("Failed to fetch images: " +:+ Error err)) \/
     ((exists msg, e = errorString msg) /\
      customErrorHandler e = (500, "Internal Server Error"))).
Proof.
  intros env.
  assert (Hrun : exists e w',
            ConvertURLsToPPTX env ["s1-2048.jpg"] "deck.pptx" (one_by_one 0 1) Demo.w0
            = Some (Err e, w'))
    by (vm_compute; eexists _, _; reflexivity).
  destruct Hrun as (e & w' & Hrun). exists e, w'. split; [exact Hrun|].
  exact (pptx_failures_carry_no_detail env _ _ _ Demo.w0 e w' Hrun).
Defined.

Lemma unsupported_conversion_type_witness :
  exists w1,
    GetSlidesDownloadLink Demo.env Demo.page_url "pdf" HD [] Demo.w0
    = Some (Err (CustomAPIError 400 "Unsupported conversion type"), w1) /\
    trace w1 = [HttpGet Demo.page_url None].
Proof.
  assert (Hfetch : exists slidesData w1 urls thumb,
            FetchSlideImages Demo.env Demo.page_url Demo.w0 = (Ok slidesData, w1) /\
            select_resolution (slides slidesData) HD = Ok (urls, thumb) /\
            trace w1 = [HttpGet Demo.page_url None]).
  { eexists _, _, _, _. split; [|split]; vm_compute; reflexivity. }
  destruct Hfetch as (slidesData & w1 & urls & thumb & Hfetch & Hsel & Htrace).
  exists w1. split; [|exact Htrace].
  refine (unsupported_conversion_type Demo.env Demo.page_url "pdf" HD [] Demo.w0
            {| Host := "www.slideshare.net"; Path := "/slideshow/verified-go/42" |}
            slidesData w1 urls thumb _ _ _ Hfetch Hsel _ _ _).
  - vm_compute. reflexivity.
  - reflexivity.
  - vm_compute. lia.
  - discriminate.
  - discriminate.
  - discriminate.
Defined.

Lemma response_describes_the_upload_witness :
  exists resp w' stored_bytes,
    GetSlidesDownloadLink Demo.env Demo.page_url PPTX SD (one_by_one 0 2) Demo.w0
      = Some (Ok resp, w') /\
    message resp = "PPTX generated successfully." /\
    file_name (data resp) = "verified-go.pptx" /\
    remote w' !! "SS_DL/03112026/verified-go.pptx" = Some stored_bytes /\
    size (data resp) = Z.of_nat (length stored_bytes) /\
    data_title (data resp) = "Verified Go".
Proof.
  assert (Hrun : exists resp w',
            GetSlidesDownloadLink Demo.env Demo.page_url PPTX SD (one_by_one 0 2) Demo.w0
            = Some (Ok resp, w') /\
            message resp = "PPTX generated successfully." /\
            file_name (data resp) = "verified-go.pptx" /\
            data_title (data resp) = "Verified Go")
    by (vm_compute; eexists _, _; repeat split; reflexivity).
  destruct Hrun as (resp & w' & Hrun & Hmsg & Hname & Htitle).
  destruct (response_describes_the_upload Demo.env _ _ _ _ Demo.w0 resp w' Hrun)
    as (u & slidesData & w1 & ext & bs & _ & _ & _ & _ & Hremote & Hsize & _).
  exists resp, w', bs. rewrite Hname in Hremote. auto 10.
Defined.

(** A page with four slide images: one has no [srcset], the others offer a
    bare name, a pixel density, a word, a width that is no number and a
    source of three fields.  None is usable, and the answer is the 404. *)
Lemma page_without_slide_images_witness :
  http_Do Demo.env 0 Demo.bare_url None = Response 200 Demo.bare_body /\
  goquery_NewDocument Demo.env Demo.bare_body = Ok Demo.bare_document /\
  doc_srcsets Demo.bare_document
  = [Some "logo.png"; None; Some "a.jpg 2x, b.jpg wide"; Some "c.jpg xw, d.jpg 100w 2x"] /\
  (fst (FetchSlideImages Demo.env Demo.bare_url Demo.w0)
     = Err (CustomAPIError 404 "No slide images found")
   <-> forall srcset, Some srcset ∈ doc_srcsets Demo.bare_document ->
                      slideResolutions_of Demo.env srcset = ∅) /\
  fst (FetchSlideImages Demo.env Demo.bare_url Demo.w0)
  = Err (CustomAPIError 404 "No slide images found") /\
  slideResolutions_of Demo.env "c.jpg xw, d.jpg 100w 2x" = ∅.
Proof.
  assert (Hhttp : http_Do Demo.env (clock Demo.w0) Demo.bare_url None
                  = Response 200 Demo.bare_body) by reflexivity.
  assert (Hdoc : goquery_NewDocument Demo.env Demo.bare_body = Ok Demo.bare_document)
    by (vm_compute; reflexivity).
  assert (Hfail : fst (FetchSlideImages Demo.env Demo.bare_url Demo.w0)
                  = Err (CustomAPIError 404 "No slide images found"))
    by (vm_compute; reflexivity).
  pose proof (page_without_slide_images Demo.env Demo.bare_url Demo.w0 Demo.bare_body
                Demo.bare_document Hhttp Hdoc) as Hiff.
  split; [exact Hhttp|]. split; [exact Hdoc|]. split; [reflexivity|].
  split; [exact Hiff|]. split; [exact Hfail|].
  apply (proj1 Hiff Hfail). simpl. in_list.
Defined.

Lemma request_leaves_disk_clean_witness :
  let params := Some {| param_URL := Demo.page_url; param_ConversionType := ImagesZip;
                        param_Quality := "" |} in
  exists r w',
    convertHandler Demo.env params (one_by_one 0 3) Demo.w0 = Some (r, w') /\
    (files w' = files Demo.w0 \/
     exists err, r = Err (CustomAPIError 500 ("Failed to fetch images: " +:+ Error err))).
Proof.
  intros params.
  assert (Hrun : exists r w',
            convertHandler Demo.env params (one_by_one 0 3) Demo.w0 = Some (r, w'))
    by (vm_compute; eexists _, _; reflexivity).
  destruct Hrun as (r & w' & Hrun). exists r, w'. split; [exact Hrun|].
  exact (request_leaves_disk_clean Demo.env params _ Demo.w0 r w' Hrun).
Defined.

Lemma fetch_reports_lowest_failed_slot_witness :
  let urls := ["gone.html"; "s1-2048.jpg"; "text.txt"] in
  let sched := [2; 2; 0; 1; 0; 1; 1; 1]%nat in
  exists w',
    fetchImagesConcurrently Demo.env urls 3 sched Demo.w0
      = Some (Err (CustomAPIError 500
                     "Failed to fetch images: failed to fetch image: gone.html (status 404)"),
              w') /\
    let p := fst (run_schedule Demo.env urls 3 sched (init_pool (length urls), Demo.w0)) in
    exists i err,
      errors p !! i = Some (Some err) /\
      (forall j, (j < i)%nat -> errors p !! j = Some None) /\
      CustomAPIError 500 "Failed to fetch images: failed to fetch image: gone.html (status 404)"
      = CustomAPIError 500 ("Failed to fetch images: " +:+ Error err).
Proof.
  intros urls sched.
  assert (Hrun : exists w',
            fetchImagesConcurrently Demo.env urls 3 sched Demo.w0
            = Some (Err (CustomAPIError 500
                 "Failed to fetch images: failed to fetch image: gone.html (status 404)"), w'))
    by (vm_compute; eexists; reflexivity).
  destruct Hrun as (w' & Hrun). exists w'. split; [exact Hrun|].
  exact (fetch_reports_lowest_failed_slot Demo.env urls 3 sched Demo.w0 _ w' Hrun).
Defined.

Lemma bad_request_details_witness :
  exists w',
    GetSlidesDownloadLink Demo.env Demo.page_url "pdf" HD [] Demo.w0
      = Some (Err (CustomAPIError 400 "Unsupported conversion type"), w') /\
    "Unsupported conversion type"
      ∈ ["Invalid URL"; "Invalid SlideShare URL"; "Invalid SlideShare URL format";
         "Unsupported conversion type"; "Failed to fetch the presentation page"] /\
    "Unsupported conversion type" <> "Invalid URL format".
Proof.
  assert (Hrun : exists w',
            GetSlidesDownloadLink Demo.env Demo.page_url "pdf" HD [] Demo.w0
            = Some (Err (CustomAPIError 400 "Unsupported conversion type"), w'))
    by (vm_compute; eexists; reflexivity).
  destruct Hrun as (w' & Hrun). exists w'. split; [exact Hrun|].
  exact (bad_request_details Demo.env _ _ _ _ Demo.w0 _ w' Hrun).
Defined.

Lemma conversion_uploads_what_the_urls_served_witness :
  let urls := ["s3-2048.jpg"; "s1-2048.jpg"] in
  exists sz w' contents,
    ConvertURLsToZip Demo.env urls "deck.zip" [1; 0; 1; 0; 1; 0; 1; 0]%nat Demo.w0
      = Some (Ok ("SS_DL/03112026/deck.zip", sz), w') /\
    length contents = length urls /\
    (forall i url, urls !! i = Some url ->
       exists data, contents !! i = Some data /\ jpeg_of Demo.env url data) /\
    remote w' !! "SS_DL/03112026/deck.zip"
      = Some (zip_Output Demo.env (imap (fun i data => (entry_name i, data)) contents)) /\
    sz = Z.of_nat (length (zip_Output Demo.env
                             (imap (fun i data => (entry_name i, data)) contents))).
Proof.
  intros urls.
  assert (Hrun : exists sz w',
            ConvertURLsToZip Demo.env urls "deck.zip" [1; 0; 1; 0; 1; 0; 1; 0]%nat Demo.w0
            = Some (Ok ("SS_DL/03112026/deck.zip", sz), w'))
    by (vm_compute; eexists _, _; reflexivity).
  destruct Hrun as (sz & w' & Hrun).
  destruct (proj1 (conversion_uploads_what_the_urls_served Demo.env urls "deck.zip"
                     [1; 0; 1; 0; 1; 0; 1; 0]%nat Demo.w0 _ sz w') Hrun)
    as (contents & H1 & H2 & H3 & H4).
  exists sz, w', contents. auto.
Defined.

Lemma fetch_writes_only_temp_jpegs_witness :
  exists r w',
    fetchImagesConcurrently Demo.env ["s1-2048.jpg"; "wide.png"] 2 [0; 1; 0; 1; 0; 1; 0; 1]%nat
      Demo.w0 = Some (r, w') /\
    files w' !! "/tmp/slide-3.jpg" = Some [] /\
    temp_jpeg Demo.env "/tmp/slide-3.jpg".
Proof.
  assert (Hrun : exists r w',
            fetchImagesConcurrently Demo.env ["s1-2048.jpg"; "wide.png"] 2
              [0; 1; 0; 1; 0; 1; 0; 1]%nat Demo.w0 = Some (r, w') /\
            files w' !! "/tmp/slide-3.jpg" = Some [])
    by (vm_compute; eexists _, _; split; reflexivity).
  destruct Hrun as (r & w' & Hrun & Hleft). exists r, w'. split; [exact Hrun|].
  split; [exact Hleft|].
  apply (proj2 (proj2 (fetch_writes_only_temp_jpegs Demo.env ["s1-2048.jpg"; "wide.png"] 2
                         [0; 1; 0; 1; 0; 1; 0; 1]%nat Demo.w0) r w' Hrun) "/tmp/slide-3.jpg").
  - reflexivity.
  - rewrite Hleft. eauto.
Defined.

(** The two slides of a deck, the second before the first: page 1 of the PDF
    shows the file of the first URL, page 2 that of the second. *)
Lemma pdf_pages_show_the_urls_witness :
  let urls := ["s3-2048.jpg"; "s1-2048.jpg"] in
  let sched := [1; 0; 1; 0; 1; 0; 1; 0]%nat in
  exists sz w' imagePaths w1 pages,
    ConvertURLsToPDF Demo.env urls "deck.pdf" sched Demo.w0
      = Some (Ok ("SS_DL/03112026/deck.pdf", sz), w') /\
    fetchImagesConcurrently Demo.env urls 25000 sched Demo.w0 = Some (Ok imagePaths, w1) /\
    NoDup imagePaths /\
    length pages = length urls /\
    (forall i url, urls !! i = Some url ->
       exists name data d,
         imagePaths !! i = Some name /\
         files w1 !! name = Some data /\
         jpeg_of Demo.env url data /\
         fpdf_RegisterImage Demo.env name data = None /\
         image_DecodeConfig Demo.env data = Ok d /\
         pages !! i = Some (fitted_page (fpdf_PageSize Demo.env "P" "mm" "A4") name d)) /\
    remote w' !! "SS_DL/03112026/deck.pdf" = Some (fpdf_Output Demo.env pages) /\
    sz = Z.of_nat (length (fpdf_Output Demo.env pages)).
Proof.
  intros urls sched.
  assert (Hrun : exists sz w',
            ConvertURLsToPDF Demo.env urls "deck.pdf" sched Demo.w0
            = Some (Ok ("SS_DL/03112026/deck.pdf", sz), w'))
    by (vm_compute; eexists _, _; reflexivity).
  destruct Hrun as (sz & w' & Hrun).
  destruct (pdf_pages_show_the_urls Demo.env urls "deck.pdf" sched Demo.w0 _ sz w' Hrun)
    as (imagePaths & w1 & pages & H).
  exists sz, w', imagePaths, w1, pages. split; [exact Hrun | exact H].
Defined.

